(** * Utreexo forest (utreexo/forest.go): a shallow embedding

    The full accumulator of forest.go: an array of hash slots addressed by
    position, a reverse index from truncated leaf hashes to positions, and
    the Add / Remove / reHash / reMap / Modify / RestoreForest procedures.

    Go's fixed-width integers are integers of [Z] with their wrap-around
    written out; the storage backend is a finite map of slots; the reverse
    index is a finite map; a Go panic and a returned [error] are separate
    outcomes. *)

From Stdlib Require Import ZArith Lia List Bool String Sorted.
From stdpp Require Import base numbers option list sorting gmap fin_maps.

#[local] Open Scope Z_scope.

(** ** Machine integers *)

Module Uint.

Definition wrap64 (x : Z) : Z := x mod 2 ^ 64.
Definition wrap8 (x : Z) : Z := x mod 2 ^ 8.

(** [1 << s] and friends at type uint64: bits shifted past bit 63 are lost,
    so a shift count of 64 or more gives 0. *)
Definition shl64 (x s : Z) : Z := wrap64 (Z.shiftl x s).

Definition uint64 (x : Z) : Prop := 0 <= x < 2 ^ 64.
Definition uint8 (x : Z) : Prop := 0 <= x < 2 ^ 8.

(** [len(s)] of a Go slice. *)
Definition len {A} (l : list A) : Z := Z.of_nat (length l).

End Uint.
Import Uint.

(** ** Hashes *)

(** A [Hash] is Go's [[32]byte] read as a 256-bit number; [empty] is the
    all-zero array of forest.go:96.  A [MiniHash] is the key type of the
    reverse index. *)
Definition Hash : Type := Z.
Definition MiniHash : Type := Z.
Definition empty : Hash := 0.

(** A leaf to add; only its hash takes part in the accumulator. *)
Record LeafTXO := mkLeaf { LHash : Hash }.

(** One swap of a transform: the slots [from] and [to] change places. *)
Record arrow := mkArrow { from : Z; to : Z }.

(** ** Storage backend *)

(** Modelled from the spec: the [ForestData] interface and its two
    implementations are not under src/.  Spec 4.2: [read] returns the
    sentinel for a slot never written or outside the allocation, [write]
    overwrites unconditionally, [swapHash] exchanges two slots, [resize]
    grows the allocation to at least the requested capacity and never
    shrinks, [size] is the allocated capacity.  A write past the allocation
    grows it, as a write past the end of the backing file does. *)
Module ForestData.

Record t := mk { slots : gmap Z Hash; cap : Z }.

Definition new : t := mk ∅ 0.

Definition read (d : t) (pos : Z) : Hash := default empty (slots d !! pos).

Definition write (d : t) (pos : Z) (h : Hash) : t :=
  mk (<[pos := h]> (slots d)) (Z.max (cap d) (pos + 1)).

Definition swapHash (d : t) (a b : Z) : t :=
  let ha := read d a in
  let hb := read d b in
  write (write d a hb) b ha.

Definition resize (d : t) (news : Z) : t := mk (slots d) (Z.max (cap d) news).

Definition size (d : t) : Z := cap d.

(** Every stored slot lies inside the allocation. *)
Definition wf (d : t) : Prop :=
  forall pos h, slots d !! pos = Some h -> pos < cap d.

End ForestData.

(** ** Outcomes *)

(** The [error] values built with [fmt.Errorf] in forest.go, one constructor
    per call site, carrying the formatted arguments. *)
Inductive error :=
| ErrTooManyDels (ndels nl : Z)        (* "%d deletions but forest has %d leaves" *)
| ErrDelBeyond (dpos nl : Z)           (* "Trying to delete leaf at %d, beyond max %d" *)
| ErrDirtExceeds (pos nl : Z)          (* "Dirt %d exceeds numleaves %d" *)
| ErrPosHeight (pos h fh : Z)          (* "postion %d at height %d but forest only %d high" *)
| ErrNoTops (row : list Z)             (* "currentRow %v no tops remaining, ..." *)
| ErrSameHeight (dest : Z)             (* "can't remap %d to %d... it's the same" *)
| ErrMoreThanOne                       (* "changing by more than 1 height not programmed yet" *)
| ErrHeightReduction                   (* "height reduction not implemented" *)
| ErrInsufficientHeight (nl fh : Z)    (* "forest has %d leaves but insufficient height %d" *)
| ErrEmptyTop (nl ntops top : Z)       (* "Forest has %d leaves %d tops, but top @%d is empty" *)
| ErrPosMapSize (entries nl : Z)       (* "sanity: positionMap %d leaves but forest %d leaves" *)
| ErrPosMap (pos : Z)                  (* "positionMap error: map says %x @%d but @%d" *)
| ErrEOF.                              (* io.EOF from a read at the end of a file *)

(** A call either returns or panics (an index out of range, a failed
    diagnostic write). *)
Inductive outcome (A : Type) :=
| Returns (a : A)
| Panics.
Arguments Returns {A} a.
Arguments Panics {A}.

(** ** The forest *)

(** forest.go:22-66.  The timing fields are written by none of the
    procedures below and are left out.  [positionMap] is the map allocated
    by [NewForest], never Go's nil map. *)
Record Forest := mkForest {
  numLeaves : Z;                       (* uint64 *)
  height : Z;                          (* uint8 *)
  data : ForestData.t;
  positionMap : gmap MiniHash Z;
  HistoricHashes : Z                   (* uint64 *)
}.

Definition set_data (f : Forest) (d : ForestData.t) : Forest :=
  mkForest (numLeaves f) (height f) d (positionMap f) (HistoricHashes f).

Definition set_numLeaves (f : Forest) (n : Z) : Forest :=
  mkForest n (height f) (data f) (positionMap f) (HistoricHashes f).

Definition set_height (f : Forest) (h : Z) : Forest :=
  mkForest (numLeaves f) h (data f) (positionMap f) (HistoricHashes f).

Definition set_positionMap (f : Forest) (m : gmap MiniHash Z) : Forest :=
  mkForest (numLeaves f) (height f) (data f) m (HistoricHashes f).

(** forest.go:69-87, with the in-memory backend. *)
Definition NewForest : Forest :=
  mkForest 0 0 (ForestData.resize ForestData.new 1) ∅ 0.

(** ** Position arithmetic *)

(** Modelled from the spec: [up1] is not under src/.  Spec 4.1: the parent
    position of a node.  In the layout that reMap walks (forest.go:362-378)
    row [r] of a forest of height [H] starts at [2^(H+1) - 2^(H+1-r)] and a
    row is half as long as the one below, so the parent of [p] is [p]
    halved with bit [H] set. *)
Definition up1 (position forestHeight : Z) : Z :=
  Z.lor (Z.shiftr position 1) (shl64 1 forestHeight).

(** Modelled from the spec: [detectHeight] is not under src/.  Spec 4.1: the
    row of a position within a tree of the given height.  In the layout
    above the row is the number of consecutive set bits of the position from
    bit [forestHeight] downwards. *)
Fixpoint detectHeight_loop (fuel : nat) (position marker h : Z) : Z :=
  match fuel with
  | O => h
  | S k =>
      if Z.land position marker =? 0 then h
      else detectHeight_loop k position (Z.shiftr marker 1) (h + 1)
  end.

Definition detectHeight (position forestHeight : Z) : Z :=
  detectHeight_loop (Z.to_nat forestHeight + 1) position (shl64 1 forestHeight) 0.

(** The first position of row [r] in a forest of height [H]. *)
Definition rowBase (H r : Z) : Z := 2 ^ (H + 1) - 2 ^ (H + 1 - r).

(** ** The helpers forest.go calls but does not define *)

(** [Parent] and [Mini] are the hashing primitives, [BuildUndoData] builds
    the undo record of a Modify, [BtU64] and [BtU8] decode the persisted
    scalars; [getTopsReverse], [floorTransform] and [mergeSortedSlices] are
    pure functions of their arguments.  The procedures below are written
    over any choice of them. *)
Record Helpers := mkHelpers {
  undoBlock : Type;
  Parent : Hash -> Hash -> Hash;
  Mini : Hash -> MiniHash;
  getTopsReverse : Z -> Z -> list Z * list Z;
  floorTransform : list Z -> Z -> Z -> list arrow;
  mergeSortedSlices : list Z -> list Z -> list Z;
  BuildUndoData : Forest -> Z -> list Z -> undoBlock;
  BtU64 : list Z -> Z;
  BtU8 : list Z -> Z
}.

(** ** reMap (forest.go:339-391) *)

Module ReMap.

(** The inner loop of lines 367-376: [x] runs over [count] slots of one row. *)
Fixpoint copyRun (count : nat) (pos x : Z) (d : ForestData.t) : ForestData.t :=
  match count with
  | O => d
  | S k =>
      let srcpos := wrap64 (Z.shiftr pos 1 + x) in
      let ok := (srcpos <? ForestData.size d) &&
                negb (ForestData.read d srcpos =? empty) in
      let src := ForestData.read d srcpos in
      let d' := if ok then ForestData.write d (wrap64 (pos + x)) src else d in
      copyRun k pos (x + 1) d'
  end.

(** The outer loop of lines 365-379, [rows] rows from the one at [pos] on. *)
Fixpoint copyRows (rows : nat) (pos reach : Z) (d : ForestData.t) : ForestData.t :=
  match rows with
  | O => d
  | S k =>
      let runLength := Z.shiftr reach 1 in
      let d' := copyRun (Z.to_nat runLength) pos 0 d in
      copyRows k (wrap64 (pos + reach)) (Z.shiftr reach 1) d'
  end.

(** Lines 383-387: [count] slots from [x] on are set to the sentinel. *)
Fixpoint zeroRun (count : nat) (x : Z) (d : ForestData.t) : ForestData.t :=
  match count with
  | O => d
  | S k => zeroRun k (x + 1) (ForestData.write d x empty)
  end.

End ReMap.

Definition reMap (f : Forest) (destHeight : Z) : Forest * option error :=
  if destHeight =? height f then (f, Some (ErrSameHeight destHeight))
  else if (wrap8 (height f + 1) <? destHeight) ||
          ((0 <? height f) && (destHeight <? wrap8 (height f - 1)))
  then (f, Some ErrMoreThanOne)
  else if destHeight <? height f then (f, Some ErrHeightReduction)
  else
    let d0 := ForestData.resize (data f) (shl64 1 destHeight) in
    let pos := shl64 1 destHeight in
    let reach := Z.shiftr pos 1 in
    let d1 := ReMap.copyRows (Z.to_nat (destHeight - 1)) pos reach d0 in
    let lo := shl64 1 (height f) in
    let hi := shl64 1 destHeight in
    let d2 := ReMap.zeroRun (Z.to_nat (hi - lo)) lo d1 in
    (set_height (set_data f d2) destHeight, None).

Section Procedures.

Variable E : Helpers.

(** ** reHash (forest.go:161-254) *)

(** Lines 171-189: the dirty positions are filed per row.  [h] only ever
    grows, so a position is filed under the highest row seen so far. *)
Fixpoint fileDirt (nl fh : Z) (dirt : list Z) (dirty2d : list (list Z))
    (h dirtyRemaining : Z) : outcome (list (list Z) * Z + error) :=
  match dirt with
  | [] => Returns (inl (dirty2d, dirtyRemaining))
  | pos :: rest =>
      if nl <? pos then Returns (inr (ErrDirtExceeds pos nl))
      else
        let dHeight := detectHeight pos fh in
        let h' := Z.max h dHeight in
        if fh <? h' then Returns (inr (ErrPosHeight pos h' fh))
        else
          match dirty2d !! Z.to_nat h' with
          | None => Panics
          | Some row =>
              fileDirt nl fh rest (<[Z.to_nat h' := row ++ [pos]]> dirty2d)
                h' (dirtyRemaining + 1)
          end
  end.

(** Lines 215-244: one pass over [currentRow]; the state is the storage, the
    hash counter and [nextRow]. *)
Fixpoint hashRow (fh : Z) (tops whole row : list Z)
    (st : ForestData.t * Z * list Z) : ForestData.t * Z * list Z * option error :=
  match row with
  | [] => (st, None)
  | pos :: rest =>
      let nextIsSibling :=
        match rest with
        | next :: _ => Z.lor pos 1 =? next
        | [] => false
        end in
      if nextIsSibling then hashRow fh tops whole rest st
      else
        match tops with
        | [] => (st, Some (ErrNoTops whole))
        | top0 :: _ =>
            if pos =? top0 then hashRow fh tops whole rest st
            else
              let '(d, hashes, nextRow) := st in
              let right := Z.lor pos 1 in
              let left := Z.lxor right 1 in
              let parpos := up1 left fh in
              let '(d', hashes') :=
                if (ForestData.read d left =? empty) ||
                   (ForestData.read d right =? empty)
                then (ForestData.write d parpos empty, hashes)
                else
                  let par := Parent E (ForestData.read d left)
                                      (ForestData.read d right) in
                  (ForestData.write d parpos par, wrap64 (hashes + 1)) in
              hashRow fh tops whole rest (d', hashes', nextRow ++ [parpos])
        end
  end.

(** Lines 199-251: floor by floor, [fuel] floors from [h] on. *)
Fixpoint floors (fuel : nat) (h fh : Z) (dirty2d : list (list Z))
    (tops topheights currentRow : list Z) (dirtyRemaining : Z)
    (st : ForestData.t * Z) : outcome (ForestData.t * Z * option error) :=
  match fuel with
  | O => Returns (st, None)
  | S k =>
      match dirty2d !! Z.to_nat h with
      | None => Panics
      | Some dirty =>
          let currentRow := mergeSortedSlices E currentRow dirty in
          let dirtyRemaining := dirtyRemaining - len dirty in
          if (dirtyRemaining =? 0) && (len currentRow =? 0)
          then Returns (st, None)
          else
            match hashRow fh tops currentRow currentRow (st, []) with
            | (d', hashes', _, Some e) => Returns (d', hashes', Some e)
            | (d', hashes', nextRow, None) =>
                match topheights with
                | [] => Panics
                | th :: ths =>
                    if th =? h then
                      match tops with
                      | [] => Panics
                      | _ :: ts =>
                          floors k (h + 1) fh dirty2d ts ths nextRow
                            dirtyRemaining (d', hashes')
                      end
                    else
                      floors k (h + 1) fh dirty2d tops topheights nextRow
                        dirtyRemaining (d', hashes')
                end
            end
      end
  end.

Definition reHash (f : Forest) (dirt : list Z) : outcome (Forest * option error) :=
  if (height f =? 0) || (len dirt =? 0) then Returns (f, None)
  else
    let '(tops, topheights) := getTopsReverse E (numLeaves f) (height f) in
    let dirty2d := replicate (Z.to_nat (height f)) [] in
    match fileDirt (numLeaves f) (height f) dirt dirty2d 0 0 with
    | Panics => Panics
    | Returns (inr e) => Returns (f, Some e)
    | Returns (inl (dirty2d, dirtyRemaining)) =>
        match floors (Z.to_nat (height f)) 0 (height f) dirty2d tops topheights
                [] dirtyRemaining (data f, HistoricHashes f) with
        | Panics => Panics
        | Returns (d', hashes', e) =>
            Returns (mkForest (numLeaves f) (height f) d' (positionMap f) hashes', e)
        end
    end.

(** ** Remove (forest.go:99-154) *)

(** Lines 136-149, one swap: the state is the storage, the dirt and the
    reverse index. *)
Definition applySwap (nextNumLeaves : Z)
    (st : ForestData.t * list Z * gmap MiniHash Z) (s : arrow)
    : ForestData.t * list Z * gmap MiniHash Z :=
  let '(d, dirt, pm) := st in
  let d' := ForestData.swapHash d (from s) (to s) in
  let dirt' :=
    if to s <? nextNumLeaves then
      if from s <? nextNumLeaves then dirt ++ [to s] ++ [from s]
      else dirt ++ [to s]
    else dirt in
  let pm1 := <[Mini E (ForestData.read d' (to s)) := to s]> pm in
  let pm2 := <[Mini E (ForestData.read d' (from s)) := from s]> pm1 in
  (d', dirt', pm2).

Definition removev3 (f : Forest) (dels : list Z) : outcome (Forest * option error) :=
  if numLeaves f <? len dels
  then Returns (f, Some (ErrTooManyDels (len dels) (numLeaves f)))
  else
    let nextNumLeaves := wrap64 (numLeaves f - len dels) in
    match List.find (fun dpos => numLeaves f <? dpos) dels with
    | Some dpos => Returns (f, Some (ErrDelBeyond dpos (numLeaves f)))
    | None =>
        let swaps := floorTransform E dels (numLeaves f) (height f) in
        let '(d, dirt, pm) :=
          fold_left (applySwap nextNumLeaves) swaps (data f, [], positionMap f) in
        reHash (mkForest nextNumLeaves (height f) d pm (HistoricHashes f)) dirt
    end.

Definition Remove (f : Forest) (dels : list Z) : outcome (Forest * option error) :=
  removev3 f dels.

(** ** cleanup (forest.go:257-263) *)

Fixpoint cleanup_loop (count : nat) (p : Z) (f : Forest) : Forest :=
  match count with
  | O => f
  | S k =>
      let pm := delete (Mini E (ForestData.read (data f) p)) (positionMap f) in
      let d := ForestData.write (data f) p empty in
      cleanup_loop k (p + 1) (set_data (set_positionMap f pm) d)
  end.

Definition cleanup (f : Forest) (overshoot : Z) : Forest :=
  let bound := wrap64 (numLeaves f + overshoot) in
  cleanup_loop (Z.to_nat (bound - numLeaves f)) (numLeaves f) f.

(** ** Add (forest.go:266-293) *)

(** Lines 281-289: the carry loop, from height [h] on.  The condition reads
    bit [h] of [numLeaves]; for a uint64 it is false at [h = 64] at the
    latest, so 65 rounds of fuel are never used up. *)
Fixpoint carry (fuel : nat) (nl fh : Z) (tops : list Z) (h pos : Z) (n : Hash)
    (d : ForestData.t) : outcome ForestData.t :=
  match fuel with
  | O => Returns d
  | S k =>
      if Z.land (Z.shiftr nl h) 1 =? 1 then
        match tops !! Z.to_nat h with
        | None => Panics
        | Some toppos =>
            let top := ForestData.read d toppos in
            let n' := Parent E top n in
            let pos' := up1 pos fh in
            carry k nl fh tops (h + 1) pos' n' (ForestData.write d pos' n')
        end
      else Returns d
  end.

Definition addOne (f : Forest) (add : LeafTXO) : outcome Forest :=
  let pm := <[Mini E (LHash add) := numLeaves f]> (positionMap f) in
  let tops := fst (getTopsReverse E (numLeaves f) (height f)) in
  let pos := numLeaves f in
  let n := LHash add in
  let d := ForestData.write (data f) pos n in
  match carry 65 (numLeaves f) (height f) tops 0 pos n d with
  | Panics => Panics
  | Returns d' =>
      Returns (mkForest (wrap64 (numLeaves f + 1)) (height f) d' pm
                 (HistoricHashes f))
  end.

Fixpoint addv2 (f : Forest) (adds : list LeafTXO) : outcome Forest :=
  match adds with
  | [] => Returns f
  | add :: rest =>
      match addOne f add with
      | Panics => Panics
      | Returns f' => addv2 f' rest
      end
  end.

Definition Add (f : Forest) (adds : list LeafTXO) : outcome Forest := addv2 f adds.

(** ** Modify (forest.go:299-336) *)

(** Lines 303-310.  Every round that does not return raises [height] by
    one, and reMap refuses to go past 255, so 256 rounds are never used
    up. *)
Fixpoint growLoop (fuel : nat) (f : Forest) (delta : Z) : Forest * option error :=
  match fuel with
  | O => (f, None)
  | S k =>
      if shl64 1 (height f) <? wrap64 (numLeaves f + delta) then
        match reMap f (wrap8 (height f + 1)) with
        | (f', Some e) => (f', Some e)
        | (f', None) => growLoop k f' delta
        end
      else (f, None)
  end.

(** Lines 312-335: what Modify does once the height is settled. *)
Definition applyBlock (f1 : Forest) (adds : list LeafTXO) (dels : list Z)
    : outcome (Forest * option (undoBlock E) * option error) :=
  match removev3 f1 dels with
  | Panics => Panics
  | Returns (f2, Some e) => Returns (f2, None, Some e)
  | Returns (f2, None) =>
      let f3 := cleanup f2 (len dels) in
      let ub := BuildUndoData E f3 (len adds) dels in
      match addv2 f3 adds with
      | Panics => Panics
      | Returns f4 => Returns (f4, Some ub, None)
      end
  end.

Definition Modify (f : Forest) (adds : list LeafTXO) (dels : list Z)
    : outcome (Forest * option (undoBlock E) * option error) :=
  let numdels := len dels in
  let numadds := len adds in
  let delta := wrap64 (numadds - numdels) in
  match growLoop 256 f delta with
  | (f1, Some e) => Returns (f1, None, Some e)
  | (f1, None) => applyBlock f1 adds dels
  end.

(** ** sanity and PosMapSanity (forest.go:395-425) *)

Definition sanity (f : Forest) : option error :=
  if shl64 1 (height f) <? numLeaves f
  then Some (ErrInsufficientHeight (numLeaves f) (height f))
  else
    let tops := fst (getTopsReverse E (numLeaves f) (height f)) in
    match List.find (fun t => ForestData.read (data f) t =? empty) tops with
    | Some t => Some (ErrEmptyTop (numLeaves f) (len tops) t)
    | None =>
        if numLeaves f <? Z.of_nat (size (positionMap f))
        then Some (ErrPosMapSize (Z.of_nat (size (positionMap f))) (numLeaves f))
        else None
    end.

(** A missing key reads as 0, as in Go. *)
Fixpoint PosMapSanity_loop (count : nat) (i : Z) (f : Forest) : option error :=
  match count with
  | O => None
  | S k =>
      if default 0 (positionMap f !! Mini E (ForestData.read (data f) i)) =? i
      then PosMapSanity_loop k (i + 1) f
      else Some (ErrPosMap i)
  end.

Definition PosMapSanity (f : Forest) : option error :=
  PosMapSanity_loop (Z.to_nat (numLeaves f)) 0 f.

(** ** RestoreForest (forest.go:429-471) *)

(** Lines 442-444: the reverse index is filled from the bottom row. *)
Fixpoint scanLeaves (count : nat) (i : Z) (d : ForestData.t)
    (pm : gmap MiniHash Z) : gmap MiniHash Z :=
  match count with
  | O => pm
  | S k => scanLeaves k (i + 1) d (<[Mini E (ForestData.read d i) := i]> pm)
  end.

End Procedures.

(** An open file: its bytes and the read offset.  [Read] hands back up to
    [n] bytes in a zeroed buffer of [n] bytes, and io.EOF when none are
    left. *)
Record File := mkFile { contents : list Z; offset : nat }.

Definition fileRead (fl : File) (n : nat) : File * (list Z + error) :=
  let rest := drop (offset fl) (contents fl) in
  match rest with
  | [] => (fl, inr ErrEOF)
  | _ =>
      let got := take n rest in
      (mkFile (contents fl) (offset fl + length got),
       inl (got ++ replicate (n - length got) 0))
  end.

(** What the file system does with the diagnostic file: whether opening it
    and writing to it succeed. *)
Record FileSystem := mkFS { openOk : string -> bool; writeOk : string -> bool }.

Inductive fsOp :=
| OpenFile (name : string)             (* os.OpenFile(name, O_CREATE|O_WRONLY, 0600) *)
| WriteString (name : string).         (* a WriteString on the file opened as name *)

(** What a call of RestoreForest leaves behind: how it ended, the metadata
    file, and the operations on other files, in order. *)
Record restored := mkRestored {
  result : outcome (Forest * option error);
  misc : File;
  fsOps : list fsOp
}.

Definition RestoreForest (E : Helpers) (fs : FileSystem) (f : Forest)
    (miscForestFile forestFile : File) : restored :=
  match fileRead miscForestFile 8 with
  | (m1, inr e) => mkRestored (Returns (f, Some e)) m1 []
  | (m1, inl byteLeaves) =>
      let nl := BtU64 E byteLeaves in
      let pm := scanLeaves E (Z.to_nat nl) 0 (data f) (positionMap f) in
      let f1 := mkForest nl (height f) (data f) pm (HistoricHashes f) in
      let name := "generatedpositionmap"%string in
      if negb (openOk fs name) then mkRestored Panics m1 [OpenFile name]
      else if negb (writeOk fs name)
      then mkRestored Panics m1 [OpenFile name; WriteString name]
      else
        let ops := [OpenFile name; WriteString name] in
        match fileRead m1 1 with
        | (m2, inr e) => mkRestored (Returns (f1, Some e)) m2 ops
        | (m2, inl byteHeight) =>
            mkRestored (Returns (set_height f1 (BtU8 E byteHeight), None)) m2 ops
        end
  end.

(** ** Replaying batches *)

(** A batch of the round-trip property: leaves to add or positions to
    delete. *)
Inductive batch :=
| AddBatch (adds : list LeafTXO)
| RemoveBatch (dels : list Z).

(** Batches are applied in order.  Before an Add the height is grown by the
    loop of Modify (forest.go:303-310) until the new leaves fit; the first
    error ends the replay. *)
Fixpoint replay (E : Helpers) (f : Forest) (batches : list batch)
    : outcome (Forest * option error) :=
  match batches with
  | [] => Returns (f, None)
  | AddBatch adds :: rest =>
      match growLoop 256 f (wrap64 (len adds)) with
      | (f1, Some e) => Returns (f1, Some e)
      | (f1, None) =>
          match Add E f1 adds with
          | Panics => Panics
          | Returns f2 => replay E f2 rest
          end
      end
  | RemoveBatch dels :: rest =>
      match Remove E f dels with
      | Panics => Panics
      | Returns (f1, Some e) => Returns (f1, Some e)
      | Returns (f1, None) => replay E f1 rest
      end
  end.

(** The list [l] without the entries at the positions [dels] (ascending):
    the highest position is dropped first, so the lower ones do not move. *)
Definition removePositions {A} (dels : list Z) (l : list A) : list A :=
  fold_left (fun acc d => delete (Z.to_nat d) acc) (rev dels) l.

(** The leaves that are in the set after the batches, oldest first. *)
Fixpoint survivors (live : list Hash) (batches : list batch) : list Hash :=
  match batches with
  | [] => live
  | AddBatch adds :: rest => survivors (live ++ (LHash <$> adds)) rest
  | RemoveBatch dels :: rest => survivors (removePositions dels live) rest
  end.

Fixpoint totalAdded (batches : list batch) : Z :=
  match batches with
  | [] => 0
  | AddBatch adds :: rest => len adds + totalAdded rest
  | RemoveBatch _ :: rest => totalAdded rest
  end.

Fixpoint totalDeleted (batches : list batch) : Z :=
  match batches with
  | [] => 0
  | AddBatch _ :: rest => totalDeleted rest
  | RemoveBatch dels :: rest => len dels + totalDeleted rest
  end.

(** The hashes in the bottom row, positions [0 .. n-1]. *)
Definition leafRow (d : ForestData.t) (n : Z) : list Hash :=
  (fun i => ForestData.read d (Z.of_nat i)) <$> seq 0 (Z.to_nat n).

(** A list of swaps applied to a row held as a list. *)
Definition swapList {A} (l : list A) (s : arrow) : list A :=
  match l !! Z.to_nat (from s), l !! Z.to_nat (to s) with
  | Some x, Some y => <[Z.to_nat (to s) := x]> (<[Z.to_nat (from s) := y]> l)
  | _, _ => l
  end.

Definition applySwaps {A} (swaps : list arrow) (l : list A) : list A :=
  fold_left swapList swaps l.

(** A deletion list as Remove wants it (spec 4.4): ascending, without
    repeats, every position below [numLeaves]. *)
Definition validDels (dels : list Z) (nl : Z) : Prop :=
  StronglySorted Z.lt dels /\ Forall (fun d => 0 <= d < nl) dels.

(** The contract of [floorTransform] (spec 4.4 step 3): for a valid
    deletion list the swaps stay inside the bottom row, and applied in
    order to any row of [numLeaves] leaves they leave the survivors, in
    their original order, in the first [numLeaves - |dels|] places. *)
Definition compacts (E : Helpers) : Prop :=
  forall dels nl fh, validDels dels nl ->
    Forall (fun s => 0 <= from s < nl /\ 0 <= to s < nl)
      (floorTransform E dels nl fh) /\
    forall row : list Hash, len row = nl ->
      take (Z.to_nat (nl - len dels))
        (applySwaps (floorTransform E dels nl fh) row)
      = removePositions dels row.

(** The batches the round trip is about, [live] being the leaves in the
    set before them: additions come in slices of a length Go can hold and
    keep the reverse-index keys of the leaves in the set pairwise distinct;
    deletion lists are valid for the set they are applied to. *)
Fixpoint admissible (E : Helpers) (live : list Hash) (batches : list batch) : Prop :=
  match batches with
  | [] => True
  | AddBatch adds :: rest =>
      len adds < 2 ^ 63 /\
      NoDup (Mini E <$> (live ++ (LHash <$> adds))) /\
      admissible E (live ++ (LHash <$> adds)) rest
  | RemoveBatch dels :: rest =>
      validDels dels (len live) /\
      admissible E (removePositions dels live) rest
  end.

(** The reverse index sends the key of every leaf of the bottom row to the
    leaf's position. *)
Definition indexed (E : Helpers) (d : ForestData.t) (pm : gmap MiniHash Z)
    (nl : Z) : Prop :=
  forall i, 0 <= i < nl -> pm !! Mini E (ForestData.read d i) = Some i.

(** What ties a forest to the list of leaves in the set: the count, the
    bottom row, and the reverse index. *)
Definition holds (E : Helpers) (f : Forest) (live : list Hash) : Prop :=
  0 <= height f <= 63 /\
  numLeaves f <= 2 ^ height f /\
  numLeaves f = len live /\
  leafRow (data f) (numLeaves f) = live /\
  forall (i : nat) x, live !! i = Some x ->
    positionMap f !! Mini E x = Some (Z.of_nat i).

(** ** Add, in the words of the spec (4.3) *)

Module AddSpec.

(** The number of consecutive set bits of [nl] from bit 0 up, at most
    [width]. *)
Fixpoint trailingOnes (width : nat) (h : Z) (nl : Z) : nat :=
  match width with
  | O => O
  | S k => if Z.testbit nl h then S (trailingOnes k (h + 1) nl) else O
  end.

(** One round of carry propagation at height [h]: the hash at entry [h] of
    the top list is the left child, the running hash the right child, and
    the result goes one level above the last position written. *)
Definition carryRound (E : Helpers) (fh : Z) (tops : list Z)
    (st : outcome (Z * Hash * ForestData.t)) (h : nat)
    : outcome (Z * Hash * ForestData.t) :=
  match st with
  | Panics => Panics
  | Returns (pos, running, d) =>
      match tops !! h with
      | None => Panics
      | Some toppos =>
          let combined := Parent E (ForestData.read d toppos) running in
          let above := up1 pos fh in
          Returns (above, combined, ForestData.write d above combined)
      end
  end.

Definition addOne (E : Helpers) (f : Forest) (add : LeafTXO) : outcome Forest :=
  let tops := fst (getTopsReverse E (numLeaves f) (height f)) in
  let pm := <[Mini E (LHash add) := numLeaves f]> (positionMap f) in
  let d := ForestData.write (data f) (numLeaves f) (LHash add) in
  let rounds := seq 0 (trailingOnes 64 0 (numLeaves f)) in
  match fold_left (carryRound E (height f) tops) rounds
          (Returns (numLeaves f, LHash add, d)) with
  | Panics => Panics
  | Returns (_, _, d') =>
      Returns (mkForest (wrap64 (numLeaves f + 1)) (height f) d' pm
                 (HistoricHashes f))
  end.

(** The items of a batch, in order. *)
Fixpoint addAll (E : Helpers) (f : Forest) (adds : list LeafTXO) : outcome Forest :=
  match adds with
  | [] => Returns f
  | add :: rest =>
      match addOne E f add with
      | Panics => Panics
      | Returns f' => addAll E f' rest
      end
  end.

End AddSpec.

(** ** Stand-ins for the helpers *)

Module Helper.

(** [rise] steps up from [position]. *)
Definition upMany (position : Z) (rise : nat) (forestHeight : Z) : Z :=
  Nat.iter rise (fun p => up1 p forestHeight) position.

(** From row [h] down: a set bit [h] of [leaves] gives a perfect subtree of
    [2^h] leaves starting at leaf [position]; its root is put in front of
    the roots found so far. *)
Fixpoint topsDown (h : nat) (leaves forestHeight position : Z)
    (tops heights : list Z) : list Z * list Z :=
  let '(position', tops', heights') :=
    if Z.testbit leaves (Z.of_nat h)
    then (position + 2 ^ Z.of_nat h,
          upMany position h forestHeight :: tops,
          Z.of_nat h :: heights)
    else (position, tops, heights) in
  match h with
  | O => (tops', heights')
  | S k => topsDown k leaves forestHeight position' tops' heights'
  end.

(** Modelled from the spec: [getTopsReverse] is not under src/, and what it
    returns cannot be read from the source.  Taken from spec 3 and 4.1: one
    top per set bit of [numLeaves], the root of the perfect subtree that
    bit stands for, with its row.  Not taken from the spec: the order.
    Spec 4.1 words it tallest first ([getTopsTallestFirst] below); this
    stand-in lists the shortest top first, the order in which the callers
    in forest.go index the lists: addv2 takes entry [h] for the top of
    height [h] while the low bits of [numLeaves] are set (line 283), and
    reHash drops entry 0 once the row it is hashing, rows ascending, is
    that entry's row (lines 245-248).  The procedures of forest.go are
    written over any [Helpers]; this function only fills the record where
    a theorem is applied to a concrete forest. *)
Definition getTopsReverse (leaves forestHeight : Z) : list Z * list Z :=
  topsDown (Z.to_nat forestHeight) leaves forestHeight 0 [] [].

(** Modelled from the spec: the same tops in the order spec 3 and 4.1 word
    them, tallest first. *)
Definition getTopsTallestFirst (leaves forestHeight : Z) : list Z * list Z :=
  let '(tops, heights) := getTopsReverse leaves forestHeight in
  (rev tops, rev heights).

(** Modelled from the spec: [mergeSortedSlices] is not under src/.  Spec 4.5
    step 2: two sorted lists of positions are merged; a position in both is
    kept once. *)
Fixpoint mergeSortedSlices (a : list Z) : list Z -> list Z :=
  match a with
  | [] => fun b => b
  | x :: a' =>
      fix mergeInto (b : list Z) : list Z :=
        match b with
        | [] => x :: a'
        | y :: b' =>
            if x <? y then x :: mergeSortedSlices a' b
            else if y <? x then y :: mergeInto b'
            else x :: mergeSortedSlices a' b'
        end
  end.

(** The swaps that carry the leaf at [d] to position [d + count], each
    leaf in between moving one place down. *)
Fixpoint bubble (count : nat) (d : Z) : list arrow :=
  match count with
  | O => []
  | S k => mkArrow (d + 1) d :: bubble k (d + 1)
  end.

(** [rdels] descending: each deleted leaf is carried to the end of what is
    left of the row, [last] being the last position of that. *)
Fixpoint compact (rdels : list Z) (last : Z) : list arrow :=
  match rdels with
  | [] => []
  | d :: ds => bubble (Z.to_nat (last - d)) d ++ compact ds (last - 1)
  end.

(** Modelled from the spec: [floorTransform] is not under src/.  Spec 4.4
    step 3 and 9 give it by its contract alone: bottom-row swaps after
    which the surviving leaves fill [[0, numLeaves - |dels|)] in their
    original order. *)
Definition floorTransform (dels : list Z) (numLeaves : Z) (forestHeight : Z)
    : list arrow :=
  compact (rev dels) (numLeaves - 1).

(** The hashing and decoding primitives are opaque to forest.go; these
    stand in for them where a procedure is run on a concrete forest.  [Mini]
    keeps the leading 12 of the 32 bytes. *)
Definition Parent (l r : Hash) : Hash := (2 * l + 3 * r + 1) mod 2 ^ 256.

Definition Mini (h : Hash) : MiniHash := Z.shiftr h 160.

Definition BtU64 (b : list Z) : Z :=
  fold_left (fun acc x => wrap64 (acc * 256 + x)) b 0.

Definition BtU8 (b : list Z) : Z :=
  match b with
  | x :: _ => wrap8 x
  | [] => 0
  end.

Definition BuildUndoData (f : Forest) (numadds : Z) (dels : list Z)
    : Z * list Z :=
  (numadds, dels).

Definition helpers : Helpers :=
  mkHelpers (Z * list Z) Parent Mini getTopsReverse floorTransform
    mergeSortedSlices BuildUndoData BtU64 BtU8.

End Helper.

(** ** Growth, call by call *)

(** [k] calls of reMap, each to one more than the current height. *)
Fixpoint reMapTimes (k : nat) (f : Forest) : Forest :=
  match k with
  | O => f
  | S k' => reMapTimes k' (fst (reMap f (wrap8 (height f + 1))))
  end.

(** The invariants of the data model (spec 3): the fields hold values of
    their Go types and the leaves fit under the height. *)
Definition sane (f : Forest) : Prop :=
  uint64 (numLeaves f) /\ uint8 (height f) /\ numLeaves f <= 2 ^ height f.

(** ** Small forests *)

(** The forest with the single leaf [x]: what Add makes of [NewForest] and
    the one-item batch [x]. *)
Definition oneLeaf (E : Helpers) (x : Hash) : Forest :=
  mkForest 1 0 (ForestData.write (ForestData.resize ForestData.new 1) 0 x)
    (<[Mini E x := 0]> ∅) 0.

(** ** reHash, positions first *)

(** Which positions reHash hashes, and in what order, does not depend on
    what storage holds; [Plan] computes that list on its own, so that the
    writes can be studied as a list of steps. *)
Module Plan.

Definition rightOf (pos : Z) : Z := Z.lor pos 1.
Definition leftOf (pos : Z) : Z := Z.lxor (Z.lor pos 1) 1.
Definition parentOf (fh pos : Z) : Z := up1 (leftOf pos) fh.

(** Lines 230-242 for one position. *)
Definition hashStep (E : Helpers) (fh : Z) (d : ForestData.t) (pos : Z)
    : ForestData.t :=
  let l := ForestData.read d (leftOf pos) in
  let r := ForestData.read d (rightOf pos) in
  ForestData.write d (parentOf fh pos)
    (if (l =? empty) || (r =? empty) then empty else Parent E l r).

Definition exec (E : Helpers) (fh : Z) (ps : list Z) (d : ForestData.t)
    : ForestData.t :=
  fold_left (hashStep E fh) ps d.

(** The positions of [row] that [hashRow] hashes, and whether it stops on
    the missing-tops error. *)
Fixpoint planRow (tops row : list Z) : list Z * bool :=
  match row with
  | [] => ([], false)
  | pos :: rest =>
      let nextIsSibling :=
        match rest with
        | next :: _ => Z.lor pos 1 =? next
        | [] => false
        end in
      if nextIsSibling then planRow tops rest
      else
        match tops with
        | [] => ([], true)
        | top0 :: _ =>
            if pos =? top0 then planRow tops rest
            else let '(ps, err) := planRow tops rest in (pos :: ps, err)
        end
  end.

(** The positions [floors] hashes over all floors; [None] for a panic. *)
Fixpoint planFloors (E : Helpers) (fuel : nat) (h fh : Z)
    (dirty2d : list (list Z)) (tops topheights currentRow : list Z)
    (dirtyRemaining : Z) : option (list Z * bool) :=
  match fuel with
  | O => Some ([], false)
  | S k =>
      match dirty2d !! Z.to_nat h with
      | None => None
      | Some dirty =>
          let currentRow := mergeSortedSlices E currentRow dirty in
          let dirtyRemaining := dirtyRemaining - len dirty in
          if (dirtyRemaining =? 0) && (len currentRow =? 0)
          then Some ([], false)
          else
            match planRow tops currentRow with
            | (ps, true) => Some (ps, true)
            | (ps, false) =>
                let nextRow := map (parentOf fh) ps in
                match topheights with
                | [] => None
                | th :: ths =>
                    let rest :=
                      if th =? h then
                        match tops with
                        | [] => None
                        | _ :: ts =>
                            planFloors E k (h + 1) fh dirty2d ts ths nextRow
                              dirtyRemaining
                        end
                      else
                        planFloors E k (h + 1) fh dirty2d tops topheights
                          nextRow dirtyRemaining in
                    match rest with
                    | None => None
                    | Some (ps', err) => Some (ps ++ ps', err)
                    end
                end
            end
      end
  end.

(** Hashing at [pos] would write what the parent slot already holds. *)
Definition settled (E : Helpers) (fh : Z) (d : ForestData.t) (pos : Z) : Prop :=
  ForestData.read (hashStep E fh d pos) (parentOf fh pos) =
  ForestData.read d (parentOf fh pos).

(** [pos] lies in row [r] of a forest of height [H]. *)
Definition inRow (H r pos : Z) : Prop :=
  rowBase H r <= pos < rowBase H (r + 1).

(** Every list filed under a row holds positions of that row. *)
Definition filedByRow (H : Z) (dirty2d : list (list Z)) : Prop :=
  forall k row, dirty2d !! k = Some row -> Forall (inRow H (Z.of_nat k)) row.

(** Positions listed row by row, no row below [h] and none at the top. *)
Inductive rowSorted (H : Z) : Z -> list Z -> Prop :=
| rowSorted_nil h : rowSorted H h []
| rowSorted_cons h r pos ps :
    h <= r < H -> inRow H r pos -> rowSorted H r ps ->
    rowSorted H h (pos :: ps).

End Plan.

(** Four leaves added to the empty forest. *)
Definition fourLeaves : Forest :=
  match replay Helper.helpers NewForest
          [AddBatch [mkLeaf 11; mkLeaf 12; mkLeaf 13; mkLeaf 14]] with
  | Returns (f, _) => f
  | Panics => NewForest
  end.

(** The same forest in the middle of a removal: leaves 0 and 1 have been
    swapped and the rows above are not rehashed yet. *)
Definition staleForest : Forest :=
  set_data fourLeaves (ForestData.swapHash (data fourLeaves) 0 1).

(** Two leaves under height 63, with the hash of their parent at the start
    of row 1. *)
Definition tallForest : Forest :=
  mkForest 2 63
    (ForestData.write (ForestData.write (ForestData.write ForestData.new 0 5) 1 6)
       (2 ^ 63) 7)
    ∅ 0.

(** Three leaves with distinct keys are added, the middle one is deleted,
    a fourth is added. *)
Definition distinctKeys : list batch :=
  [AddBatch [mkLeaf (2 ^ 200); mkLeaf (2 ^ 201); mkLeaf (2 ^ 202)];
   RemoveBatch [1];
   AddBatch [mkLeaf (2 ^ 203)]].

(** Two leaves whose hashes differ only after the leading 12 bytes. *)
Definition sharedKey : list batch := [AddBatch [mkLeaf 1; mkLeaf 2]].

(** The same leaf added twice, the second copy deleted. *)
Definition twiceAdded : list batch :=
  [AddBatch [mkLeaf (2 ^ 200); mkLeaf (2 ^ 200)]; RemoveBatch [1]].

(** What C1 says of the forest [f] left by [batches]. *)
Definition roundTrip (E : Helpers) (batches : list batch) (f : Forest) : Prop :=
  numLeaves f = totalAdded batches - totalDeleted batches /\
  forall x, x ∈ survivors [] batches ->
    exists p, positionMap f !! Mini E x = Some p /\
              0 <= p < numLeaves f /\
              ForestData.read (data f) p = x.

(** ** The order of the tops *)

(** The first leaf of the perfect subtree that bit [h] of [leaves] stands
    for: the leaves of the taller subtrees come before it. *)
Definition firstLeaf (leaves forestHeight h : Z) : Z :=
  Z.shiftl (Z.shiftr (Z.land leaves (Z.ones (forestHeight + 1))) (h + 1)) (h + 1).

(** The set bits of [leaves] up to bit [top], lowest first. *)
Definition setBits (leaves : Z) (top : nat) : list Z :=
  List.filter (Z.testbit leaves) (Z.of_nat <$> seq 0 (S top)).

(** One top per set bit of [leaves], the lowest bit first. *)
Definition topsAscending (leaves forestHeight : Z) : list Z * list Z :=
  let heights := setBits leaves (Z.to_nat forestHeight) in
  ((fun h => Helper.upMany (firstLeaf leaves forestHeight h) (Z.to_nat h)
               forestHeight) <$> heights,
   heights).

(** Row heights listed from the tallest top to the shortest. *)
Definition tallestFirst (heights : list Z) : Prop :=
  StronglySorted (fun a b => b < a) heights.

(** Row heights listed from the shortest top to the tallest. *)
Definition shortestFirst (heights : list Z) : Prop :=
  StronglySorted Z.lt heights.

(** The stand-ins, with the tops handed out tallest first. *)
Definition tallestFirstHelpers : Helpers :=
  mkHelpers (Z * list Z) Helper.Parent Helper.Mini Helper.getTopsTallestFirst
    Helper.floorTransform Helper.mergeSortedSlices Helper.BuildUndoData
    Helper.BtU64 Helper.BtU8.

(** The four leaves of [fourLeaves], added with the tops tallest first. *)
Definition fourLeavesTallestFirst : Forest :=
  match replay tallestFirstHelpers NewForest
          [AddBatch [mkLeaf 11; mkLeaf 12; mkLeaf 13; mkLeaf 14]] with
  | Returns (f, _) => f
  | Panics => NewForest
  end.

(** What the carry loop of addv2 (forest.go:281-288) asks of the list
    [tops] it is given for [leaves]: as long as the bits [0 .. h] of
    [leaves] are all set, entry [h] is the left sibling of the position the
    loop has risen to after [h] rounds. *)
Definition readsSibling (tops : list Z) (leaves forestHeight : Z) : bool :=
  forallb
    (fun h : nat =>
       implb (forallb (fun k : nat => Z.testbit leaves (Z.of_nat k)) (seq 0 (S h)))
         (bool_decide (tops !! h =
            Some (Z.lxor (Helper.upMany leaves h forestHeight) 1))))
    (seq 0 (S (Z.to_nat forestHeight))).

(** Every leaf count that fits under every height up to [top]. *)
Definition leafCounts (top : nat) : list (Z * Z) :=
  fh ← seq 0 (S top);
  (fun leaves : nat => (Z.of_nat leaves, Z.of_nat fh)) <$> seq 0 (2 ^ fh).

(** The reverse index is exact: the forest holds the leaves [live], their
    keys are pairwise distinct, and no other key is bound. *)
Definition tight (E : Helpers) (f : Forest) (live : list Hash) : Prop :=
  holds E f live /\ NoDup (Mini E <$> live) /\
  forall k, is_Some (positionMap f !! k) -> k ∈ (Mini E <$> live).

(** The leaves of [distinctKeys], as two blocks for Modify: three leaves
    added, then the middle one deleted while a fourth is added. *)
Definition firstBlock : list LeafTXO :=
  [mkLeaf (2 ^ 200); mkLeaf (2 ^ 201); mkLeaf (2 ^ 202)].

Definition secondBlock : list LeafTXO := [mkLeaf (2 ^ 203)].

(** The forest after Modify has applied [firstBlock] to the empty one. *)
Definition afterFirstBlock : Forest :=
  match Modify Helper.helpers NewForest firstBlock [] with
  | Returns (f, _, _) => f
  | Panics => NewForest
  end.

(** ** The hash tree *)

(** The position of the node at offset [x] of row [r]. *)
Definition nodePos (H r x : Z) : Z := rowBase H r + x.

(** The node at offset [x] of row [r] stands over the leaves
    [x * 2^r .. (x + 1) * 2^r - 1]; it is full when the forest has all of
    them. *)
Definition full (nl r x : Z) : Prop := 0 <= x /\ (x + 1) * 2 ^ r <= nl.

(** Every full node above the bottom row holds the parent hash of its left
    and right child. *)
Definition hashed (E : Helpers) (H : Z) (d : ForestData.t) (nl : Z) : Prop :=
  forall r x, 0 <= r < H -> full nl (r + 1) x ->
    ForestData.read d (nodePos H (r + 1) x) =
    Parent E (ForestData.read d (nodePos H r (2 * x)))
             (ForestData.read d (nodePos H r (2 * x + 1))).

(** The node of row [j] over leaf [nl]: where the carry loop stands after
    [j] rounds. *)
Definition overLeaf (nl H j : Z) : Z := nodePos H j (Z.shiftr nl j).

(** What the carry loop of addv2 (forest.go:277-288) takes from the list
    of tops for [nl] leaves: while the bits [0 .. h] of [nl] are set, entry
    [h] is the left neighbour of the node of row [h] over leaf [nl]. *)
Definition topsForCarry (E : Helpers) (nl H : Z) : Prop :=
  forall h : nat,
    (forall j, 0 <= j <= Z.of_nat h -> Z.testbit nl j = true) ->
    fst (getTopsReverse E nl H) !! h =
    Some (nodePos H (Z.of_nat h) (Z.shiftr nl (Z.of_nat h)) - 1).

(** The empty forest with the height of four leaves. *)
Definition emptyHeight2 : Forest := set_height NewForest 2.

(** Four leaves for it. *)
Definition thirdBlock : list LeafTXO :=
  [mkLeaf 11; mkLeaf 12; mkLeaf 13; mkLeaf 14].

(** [pos] is a child of a full node: it has a parent in the forest. *)
Definition childOfFull (nl H pos : Z) : Prop :=
  exists r x, 0 <= r < H /\ full nl (r + 1) x /\
    (pos = nodePos H r (2 * x) \/ pos = nodePos H r (2 * x + 1)).

(** Helpers whose parent hash is never the sentinel, as a cryptographic
    hash is taken to be: the stand-ins with an odd parent hash. *)
Definition oddParent (l r : Hash) : Hash := 2 * ((2 * l + 3 * r) mod 2 ^ 255) + 1.

Definition treeHelpers : Helpers :=
  mkHelpers (Z * list Z) oddParent Helper.Mini Helper.getTopsReverse
    Helper.floorTransform Helper.mergeSortedSlices Helper.BuildUndoData
    Helper.BtU64 Helper.BtU8.

(** Four leaves added with them under height 2. *)
Definition treeOfFour : Forest :=
  match Add treeHelpers emptyHeight2 thirdBlock with
  | Returns f => f
  | Panics => NewForest
  end.

(** ** GetTops and WriteForest (forest.go:485-506) *)

(** forest.go:496-506: the hashes at the top positions, in the order of
    the list of positions. *)
Definition GetTops (E : Helpers) (f : Forest) : list Hash :=
  ForestData.read (data f) <$> fst (getTopsReverse E (numLeaves f) (height f)).

(** What a [WriteAt(b, off)] that succeeds leaves in the file: [b] takes
    the place of the bytes from [off] on, after zeros if the file ended
    before [off]; the read offset is not moved. *)
Definition written (fl : File) (b : list Z) (off : nat) : File :=
  mkFile (take off (contents fl) ++ replicate (off - length (contents fl)) 0 ++
          b ++ drop (off + length b) (contents fl))
         (offset fl).

(** forest.go:485-493.  The encoders [U64tB] and [U8tB] are not under src/
    and [WriteAt] is the operating system's: the procedure is written over
    any choice of them.  The error of the write, if any, is handed back. *)
Definition WriteForest (U64tB U8tB : Z -> list Z)
    (WriteAt : File -> list Z -> nat -> File * option error)
    (f : Forest) (miscForestFile : File) : File * option error :=
  WriteAt miscForestFile (U64tB (numLeaves f) ++ U8tB (height f)) 0%nat.

(** Encoders to run WriteForest with: big-endian bytes, what
    [Helper.BtU64] and [Helper.BtU8] decode; and a write that succeeds. *)
Module Codec.

Definition U64tB (n : Z) : list Z :=
  (fun i : Z => Z.land (Z.shiftr n (8 * i)) 255) <$> [7; 6; 5; 4; 3; 2; 1; 0].

Definition U8tB (n : Z) : list Z := [Z.land n 255].

Definition WriteAt (fl : File) (b : list Z) (off : nat) : File * option error :=
  (written fl b off, None).

End Codec.

(** A forest whose reverse index has lost the entry of its only leaf. *)
Definition unindexedLeaf : Forest :=
  set_positionMap (oneLeaf Helper.helpers 5) ∅.

(** * Facts *)

(** ** Machine integers *)

Module UintFacts.

Lemma wrap64_range x : uint64 (wrap64 x).
Proof. unfold uint64, wrap64. apply Z.mod_pos_bound. lia. Qed.

Lemma wrap8_range x : uint8 (wrap8 x).
Proof. unfold uint8, wrap8. apply Z.mod_pos_bound. lia. Qed.

Lemma wrap64_small x : uint64 x -> wrap64 x = x.
Proof. unfold uint64, wrap64. intros H. apply Z.mod_small. lia. Qed.

Lemma wrap8_small x : uint8 x -> wrap8 x = x.
Proof. unfold uint8, wrap8. intros H. apply Z.mod_small. lia. Qed.

Lemma shl64_one_small s : 0 <= s < 64 -> shl64 1 s = 2 ^ s.
Proof.
  intros Hs. unfold shl64. rewrite Z.shiftl_1_l.
  apply wrap64_small. unfold uint64. split; [apply Z.pow_nonneg; lia|].
  apply Z.pow_lt_mono_r; lia.
Qed.

Lemma shl64_one_big s : 64 <= s -> shl64 1 s = 0.
Proof.
  intros Hs. unfold shl64, wrap64. rewrite Z.shiftl_1_l.
  replace s with (64 + (s - 64)) by lia.
  rewrite Z.pow_add_r by lia.
  rewrite Z.mul_comm. apply Z.mod_mul. lia.
Qed.

Lemma shl64_one_range s : uint64 (shl64 1 s).
Proof. apply wrap64_range. Qed.

Lemma wrap64_add_wrap64 a b : wrap64 (a + wrap64 b) = wrap64 (a + b).
Proof. unfold wrap64. apply Z.add_mod_idemp_r. lia. Qed.

Lemma len_nonneg {A} (l : list A) : 0 <= len l.
Proof. unfold len. lia. Qed.

Lemma len_app {A} (l k : list A) : len (l ++ k) = len l + len k.
Proof. unfold len. rewrite length_app. lia. Qed.

Lemma len_cons {A} (x : A) l : len (x :: l) = 1 + len l.
Proof. unfold len. simpl length. lia. Qed.

End UintFacts.
Import UintFacts.

(** ** Storage backend *)

Module ForestDataFacts.
Import ForestData.

Lemma read_write d pos h q :
  read (write d pos h) q = if decide (q = pos) then h else read d q.
Proof.
  unfold read, write; simpl. destruct (decide (q = pos)) as [->|Hne].
  - by rewrite lookup_insert_eq.
  - by rewrite lookup_insert_ne.
Qed.

Lemma read_write_eq d pos h : read (write d pos h) pos = h.
Proof. rewrite read_write. by rewrite decide_True. Qed.

Lemma read_write_ne d pos h q : q <> pos -> read (write d pos h) q = read d q.
Proof. intros. rewrite read_write. by rewrite decide_False. Qed.

Lemma read_resize d n q : read (resize d n) q = read d q.
Proof. reflexivity. Qed.

Lemma read_swapHash d a b q :
  read (swapHash d a b) q =
  if decide (q = b) then read d a
  else if decide (q = a) then read d b else read d q.
Proof. unfold swapHash. by rewrite !read_write. Qed.

Lemma read_new q : read new q = empty.
Proof. reflexivity. Qed.

Lemma size_resize d n : n <= size (resize d n) /\ size d <= size (resize d n).
Proof. unfold size, resize; simpl. lia. Qed.

Lemma size_write d pos h : size d <= size (write d pos h).
Proof. unfold size, write; simpl. lia. Qed.

(** The operations keep every stored slot inside the allocation, so a read
    outside the allocation gives the sentinel (spec 4.2). *)
Lemma wf_new : wf new.
Proof. intros pos h. unfold new; simpl. by rewrite lookup_empty. Qed.

Lemma wf_write d pos h : wf d -> wf (write d pos h).
Proof.
  intros Hwf q hq. unfold write; simpl.
  destruct (decide (pos = q)) as [->|Hne].
  - intros _. lia.
  - rewrite lookup_insert_ne by done. intros Hq. apply Hwf in Hq. lia.
Qed.

Lemma wf_resize d n : wf d -> wf (resize d n).
Proof. intros Hwf q hq Hq. apply Hwf in Hq. unfold resize; simpl. lia. Qed.

Lemma wf_swapHash d a b : wf d -> wf (swapHash d a b).
Proof. intros Hwf. unfold swapHash. by do 2 apply wf_write. Qed.

Lemma wf_read_outside d pos : wf d -> size d <= pos -> read d pos = empty.
Proof.
  intros Hwf Hpos. unfold read. destruct (slots d !! pos) as [h|] eqn:Hl; [|done].
  apply Hwf in Hl. unfold size in Hpos. lia.
Qed.

End ForestDataFacts.
Import ForestDataFacts.

(** ** reMap: the argument check *)

(** C7. reMap returns without error only when [destHeight] is [height + 1];
    for every other argument (the same height, a growth by more than one,
    any decrease) it returns an error, and every error return hands back
    the forest it was given: numLeaves, height and all of storage are
    untouched. *)
Theorem reMap_only_by_one (f : Forest) (destHeight : Z)
    (Hh : uint8 (height f)) (Hd : uint8 destHeight) :
  (snd (reMap f destHeight) = None -> destHeight = height f + 1) /\
  (destHeight <> height f + 1 ->
     exists e, reMap f destHeight = (f, Some e)).
Proof.
  unfold uint8 in *. unfold reMap.
  assert (Hbound : wrap8 (height f + 1) <= height f + 1).
  { unfold wrap8. apply Z.mod_le; lia. }
  destruct (Z.eqb_spec destHeight (height f)) as [Heq|Hne].
  { split; [discriminate|]. intros _. eauto. }
  destruct (Z.ltb_spec (wrap8 (height f + 1)) destHeight) as [Hgt|Hle]; simpl.
  { split; [discriminate|]. intros _. eauto. }
  destruct (Z.ltb_spec 0 (height f)) as [Hpos|Hzero]; simpl.
  - destruct (Z.ltb_spec destHeight (wrap8 (height f - 1))) as [Hlt|Hge]; simpl.
    { split; [discriminate|]. intros _. eauto. }
    destruct (Z.ltb_spec destHeight (height f)) as [Hlt2|Hge2]; simpl.
    { split; [discriminate|]. intros _. eauto. }
    split; [intros _; lia | intros Hx; lia].
  - destruct (Z.ltb_spec destHeight (height f)) as [Hlt2|Hge2]; simpl.
    { split; [discriminate|]. intros _. eauto. }
    split; [intros _; lia | intros Hx; lia].
Qed.

Lemma reMap_only_by_one_witness :
  (snd (reMap NewForest 1) = None -> 1 = height NewForest + 1) /\
  (1 <> height NewForest + 1 -> exists e, reMap NewForest 1 = (NewForest, Some e)).
Proof.
  apply (reMap_only_by_one NewForest 1); unfold uint8; simpl; lia.
Defined.

(** Which error each kind of refused argument gets. *)
Lemma reMap_same_height f : reMap f (height f) = (f, Some (ErrSameHeight (height f))).
Proof. unfold reMap. by rewrite Z.eqb_refl. Qed.

Lemma reMap_by_one_ok f :
  0 <= height f < 255 ->
  exists d, reMap f (height f + 1) = (mkForest (numLeaves f) (height f + 1) d
                                        (positionMap f) (HistoricHashes f), None).
Proof.
  intros Hh. unfold reMap.
  destruct (Z.eqb_spec (height f + 1) (height f)); [lia|].
  rewrite (wrap8_small (height f + 1)) by (unfold uint8; lia).
  rewrite Z.ltb_irrefl. simpl.
  destruct (Z.ltb_spec 0 (height f)); simpl.
  - rewrite (wrap8_small (height f - 1)) by (unfold uint8; lia).
    destruct (Z.ltb_spec (height f + 1) (height f - 1)); [lia|].
    destruct (Z.ltb_spec (height f + 1) (height f)); [lia|].
    eexists. reflexivity.
  - destruct (Z.ltb_spec (height f + 1) (height f)); [lia|].
    eexists. reflexivity.
Qed.

(** ** Remove: the checks before the swaps *)

Section RemoveChecks.

Variable E : Helpers.

Lemma oneLeaf_is_added x : Add E NewForest [mkLeaf x] = Returns (oneLeaf E x).
Proof. reflexivity. Qed.

(** The two checks of lines 113-125 as written: more deletions than leaves,
    or a position above [numLeaves], end the call with the forest as it
    was. *)
Lemma removev3_rejects f dels :
  numLeaves f < len dels \/ Exists (fun dpos => numLeaves f < dpos) dels ->
  exists e, removev3 E f dels = Returns (f, Some e).
Proof.
  intros Hbad. unfold removev3.
  destruct (Z.ltb_spec (numLeaves f) (len dels)) as [Hlt|Hge]; [eauto|].
  destruct Hbad as [Hlt|Hex]; [lia|].
  destruct (List.find _ dels) as [dpos|] eqn:Hfind; [eauto|].
  exfalso. apply Exists_exists in Hex as (dpos & Hin & Hgt).
  apply list_elem_of_In in Hin.
  pose proof (List.find_none _ _ Hfind dpos Hin) as Hno. simpl in Hno.
  apply Z.ltb_ge in Hno. lia.
Qed.

(** When both checks pass, the swaps are applied and [numLeaves] is lowered
    before reHash is entered. *)
Lemma removev3_passes f dels :
  len dels <= numLeaves f -> Forall (fun dpos => dpos <= numLeaves f) dels ->
  exists d dirt pm,
    removev3 E f dels =
    reHash E (mkForest (wrap64 (numLeaves f - len dels)) (height f) d pm
                (HistoricHashes f)) dirt.
Proof.
  intros Hlen Hall. unfold removev3.
  destruct (Z.ltb_spec (numLeaves f) (len dels)) as [Hlt|Hge]; [lia|].
  destruct (List.find _ dels) as [dpos|] eqn:Hfind.
  - apply List.find_some in Hfind as [Hin Hgt]. apply Z.ltb_lt in Hgt.
    rewrite Forall_forall in Hall. apply list_elem_of_In in Hin.
    specialize (Hall _ Hin). simpl in Hall. lia.
  - destruct (fold_left _ _ _) as [[d dirt] pm]. eauto.
Qed.

Lemma reHash_height_0 f dirt : height f = 0 -> reHash E f dirt = Returns (f, None).
Proof. intros Hh. unfold reHash. by rewrite Hh. Qed.

(** C2, at the input where the code departs from it.  The forest holds one
    leaf and position 1 is to be deleted: 1 is not below [numLeaves], yet
    the check of line 121 ([dpos > numLeaves]) lets it through, the call
    returns no error, and [numLeaves] has dropped to 0. *)
Theorem removev3_accepts_position_numLeaves (x : Hash) :
  exists f', removev3 E (oneLeaf E x) [1] = Returns (f', None) /\
             numLeaves f' = 0 /\ numLeaves (oneLeaf E x) = 1.
Proof.
  destruct (removev3_passes (oneLeaf E x) [1]) as (d & dirt & pm & Heq).
  - reflexivity.
  - constructor; [simpl; lia | constructor].
  - rewrite Heq. rewrite reHash_height_0 by reflexivity.
    eexists. split; [reflexivity|]. split; reflexivity.
Qed.

Lemma map_size_insert_mono (k v : Z) (m : gmap Z Z) :
  (size m <= size (<[k := v]> m))%nat.
Proof. rewrite map_size_insert. destruct (m !! k); simpl; lia. Qed.

(** A swap never takes an entry out of the reverse index. *)
Lemma applySwap_size next st s :
  (size (st.2) <= size ((applySwap E next st s).2))%nat.
Proof.
  destruct st as [[d dirt] pm]. unfold applySwap. cbn [snd].
  etransitivity; [|apply map_size_insert_mono]. apply map_size_insert_mono.
Qed.

Lemma applySwaps_size next swaps st :
  (size (st.2) <= size ((fold_left (applySwap E next) swaps st).2))%nat.
Proof.
  revert st. induction swaps as [|s swaps IH]; intros st; simpl; [done|].
  etransitivity; [apply (applySwap_size next st s)|apply IH].
Qed.

(** C5, at the input where the code departs from it.  Remove of the only
    leaf of a one-leaf forest returns no error and leaves [numLeaves] at 0,
    but the reverse index still has an entry: removev3 only ever inserts
    into it, and only Modify goes on to call cleanup. *)
Theorem Remove_keeps_index_entries (x : Hash) :
  exists f', Remove E (oneLeaf E x) [0] = Returns (f', None) /\
             numLeaves f' = 0 /\ (numLeaves f' < Z.of_nat (size (positionMap f'))).
Proof.
  unfold Remove, removev3. cbn [oneLeaf numLeaves height data positionMap HistoricHashes].
  change (1 <? len [0]) with false. cbn [List.find]. change (1 <? 0) with false.
  cbv iota.
  pose proof (applySwaps_size (wrap64 (1 - len [0])) (floorTransform E [0] 1 0)
    (ForestData.write (ForestData.resize ForestData.new 1) 0 x, [],
     <[Mini E x := 0]> ∅)) as Hsize.
  destruct (fold_left _ _ _) as [[d dirt] pm]. cbn [snd] in Hsize.
  rewrite reHash_height_0 by reflexivity.
  eexists. split; [reflexivity|]. split; [reflexivity|].
  cbn [numLeaves positionMap]. change (wrap64 (1 - len [0])) with 0.
  rewrite map_size_insert_None in Hsize by apply lookup_empty.
  lia.
Qed.

End RemoveChecks.

(** The forest Remove leaves there is the one the check of [sanity]
    (forest.go, [sanity], third test) reports. *)
Lemma Remove_fails_sanity :
  exists f', Remove Helper.helpers (oneLeaf Helper.helpers 5) [0] = Returns (f', None) /\
             sanity Helper.helpers f' = Some (ErrPosMapSize 1 0).
Proof. eexists. split; [vm_compute; reflexivity|]. vm_compute. reflexivity. Qed.

(** ** Add: the carry loop *)

Section CarryLoop.

Variable E : Helpers.

(** The loop condition of line 281 reads bit [h] of [numLeaves]. *)
Lemma carry_condition nl h : (Z.land (Z.shiftr nl h) 1 =? 1) = Z.testbit nl h.
Proof.
  rewrite Z.testbit_odd. change 1 with (Z.ones 1) at 1.
  rewrite Z.land_ones by lia. change (2 ^ 1) with 2.
  rewrite Zmod_odd. by destruct (Z.odd (Z.shiftr nl h)).
Qed.

Lemma uint64_bit_64 nl : uint64 nl -> Z.testbit nl 64 = false.
Proof.
  intros [Hlo Hhi]. destruct (Z.eq_dec nl 0) as [->|Hne]; [apply Z.bits_0|].
  apply Z.bits_above_log2; [lia|]. apply Z.log2_lt_pow2; lia.
Qed.

Lemma carryRound_panics fh tops rounds :
  fold_left (AddSpec.carryRound E fh tops) rounds Panics = Panics.
Proof. induction rounds as [|h rounds IH]; simpl; [done|apply IH]. Qed.

(** The loop as written, on [fuel] rounds of fuel, is the fold of the
    spec's round over the heights of the trailing set bits, whenever the
    bit after [width] positions is clear and the fuel is more than
    [width]. *)
Lemma carry_rounds nl fh tops width :
  forall fuel h pos n d,
    0 <= h -> (width < fuel)%nat ->
    Z.testbit nl (h + Z.of_nat width) = false ->
    carry E fuel nl fh tops h pos n d =
    match fold_left (AddSpec.carryRound E fh tops)
            (seq (Z.to_nat h) (AddSpec.trailingOnes width h nl))
            (Returns (pos, n, d)) with
    | Panics => Panics
    | Returns (_, _, d') => Returns d'
    end.
Proof.
  induction width as [|width IH]; intros fuel h pos n d Hh Hfuel Hclear.
  - destruct fuel as [|fuel]; [lia|]. simpl.
    rewrite carry_condition. rewrite Z.add_0_r in Hclear. by rewrite Hclear.
  - destruct fuel as [|fuel]; [lia|]. simpl.
    rewrite carry_condition. destruct (Z.testbit nl h) eqn:Hbit; [|done].
    simpl. destruct (tops !! Z.to_nat h) as [toppos|] eqn:Htop.
    + rewrite (IH fuel (h + 1)); [|lia|lia|].
      * replace (Z.to_nat (h + 1)) with (S (Z.to_nat h)) by lia. reflexivity.
      * replace (h + 1 + Z.of_nat width) with (h + Z.of_nat (S width)) by lia.
        exact Hclear.
    + by rewrite carryRound_panics.
Qed.

Lemma addOne_refines f add :
  uint64 (numLeaves f) -> addOne E f add = AddSpec.addOne E f add.
Proof.
  intros Hnl. unfold addOne, AddSpec.addOne.
  rewrite (carry_rounds (numLeaves f) (height f) _ 64); [|lia|lia|].
  - change (Z.to_nat 0) with 0%nat.
    destruct (fold_left _ _ _) as [[[pos n] d]|]; reflexivity.
  - by apply uint64_bit_64.
Qed.

Lemma addOne_numLeaves f add f' :
  addOne E f add = Returns f' ->
  numLeaves f' = wrap64 (numLeaves f + 1) /\ height f' = height f.
Proof.
  unfold addOne. destruct (carry _ _ _ _ _ _ _ _ _); [|discriminate].
  intros [= <-]. split; reflexivity.
Qed.

(** C3. Add handles each item as spec 4.3 words it: the hash is written at
    position [numLeaves]; then, for each height [h] from 0 while bit [h] of
    [numLeaves] is set, the hash read at entry [h] of the top list (the
    list computed before the item was written) is combined as left child
    with the running hash as right child, and the result is written at
    [up1] of the position written last; then [numLeaves] goes up by one.
    Over a batch [numLeaves] goes up by one per item. *)
Theorem addv2_carry_propagation (f : Forest) (adds : list LeafTXO)
    (Hnl : uint64 (numLeaves f)) :
  addv2 E f adds = AddSpec.addAll E f adds /\
  (forall f', addv2 E f adds = Returns f' ->
     numLeaves f' = wrap64 (numLeaves f + len adds)).
Proof.
  revert f Hnl. induction adds as [|add rest IH]; intros f Hnl.
  - split; [reflexivity|]. intros f' [= <-]. simpl.
    unfold len; simpl. rewrite Z.add_0_r. symmetry. by apply wrap64_small.
  - simpl. rewrite <- (addOne_refines f add Hnl).
    destruct (addOne E f add) as [f1|] eqn:Hone; [|split; [done|discriminate]].
    apply addOne_numLeaves in Hone as [Hn1 _].
    assert (Hnl1 : uint64 (numLeaves f1)) by (rewrite Hn1; apply wrap64_range).
    destruct (IH f1 Hnl1) as [Hall Hcount]. split; [exact Hall|].
    intros f' Hf'. rewrite (Hcount f' Hf'), Hn1, len_cons.
    rewrite Z.add_comm, wrap64_add_wrap64. f_equal. lia.
Qed.

End CarryLoop.

Lemma addv2_carry_propagation_witness :
  uint64 (numLeaves tallForest) /\
  (exists f', addv2 Helper.helpers tallForest [mkLeaf 8; mkLeaf 9] = Returns f' /\
              numLeaves f' = 4) /\
  addv2 Helper.helpers tallForest [mkLeaf 8; mkLeaf 9] =
    AddSpec.addAll Helper.helpers tallForest [mkLeaf 8; mkLeaf 9] /\
  (forall f', addv2 Helper.helpers tallForest [mkLeaf 8; mkLeaf 9] = Returns f' ->
     numLeaves f' = wrap64 (numLeaves tallForest + len [mkLeaf 8; mkLeaf 9])).
Proof.
  assert (H : uint64 (numLeaves tallForest)) by (unfold uint64; simpl; lia).
  split; [exact H|].
  split; [eexists; split; [vm_compute; reflexivity|reflexivity]|].
  exact (addv2_carry_propagation Helper.helpers tallForest
           [mkLeaf 8; mkLeaf 9] H).
Defined.

(** ** Modify: the growth loop *)

Section Growth.

Lemma reMap_at_255 f :
  height f = 255 -> exists e, reMap f (wrap8 (height f + 1)) = (f, Some e).
Proof.
  intros Hh. unfold reMap. rewrite Hh.
  change (wrap8 (255 + 1)) with 0. eexists. reflexivity.
Qed.

Lemma reMap_next f :
  0 <= height f < 255 ->
  exists f', reMap f (wrap8 (height f + 1)) = (f', None) /\
             numLeaves f' = numLeaves f /\ height f' = height f + 1 /\
             positionMap f' = positionMap f.
Proof.
  intros Hh. rewrite wrap8_small by (unfold uint8; lia).
  destruct (reMap_by_one_ok f Hh) as [d Hd]. rewrite Hd.
  eexists. split; [reflexivity|]. by repeat split.
Qed.

(** The loop of lines 303-310 on enough fuel: it makes [k] calls of reMap
    that succeed, each wanted by the loop condition, and then either the
    condition is false or the height is 255 and reMap refuses.  The fuel is
    enough from 255 - height + 1 rounds on. *)
Lemma growLoop_rounds fuel : forall f delta,
  uint8 (height f) -> (Z.to_nat (256 - height f) <= fuel)%nat ->
  exists (k : nat) e,
    growLoop fuel f delta = (reMapTimes k f, e) /\
    numLeaves (reMapTimes k f) = numLeaves f /\
    positionMap (reMapTimes k f) = positionMap f /\
    height (reMapTimes k f) = height f + Z.of_nat k /\
    (forall j, 0 <= j < Z.of_nat k ->
       shl64 1 (height f + j) < wrap64 (numLeaves f + delta)) /\
    match e with
    | None => wrap64 (numLeaves f + delta) <= shl64 1 (height f + Z.of_nat k)
    | Some _ => height f + Z.of_nat k = 255
    end.
Proof.
  induction fuel as [|fuel IH]; intros f delta Hh Hfuel.
  { unfold uint8 in Hh. lia. }
  simpl. destruct (Z.ltb_spec (shl64 1 (height f)) (wrap64 (numLeaves f + delta)))
    as [Hgrow|Hfits].
  - destruct (Z.eq_dec (height f) 255) as [H255|Hlow].
    + destruct (reMap_at_255 f H255) as [e He]. rewrite He.
      exists 0%nat, (Some e). simpl. repeat split; try lia.
    + unfold uint8 in Hh.
      destruct (reMap_next f ltac:(lia)) as (f' & Hre & Hnl & Hht & Hpm).
      rewrite Hre.
      destruct (IH f' delta) as (k & e & Hloop & Hknl & Hkpm & Hkh & Hmin & Hend).
      { unfold uint8. lia. }
      { lia. }
      exists (S k), e. simpl. rewrite Hre. simpl.
      rewrite Hloop, Hknl, Hkpm, Hkh, Hnl, Hpm, Hht.
      repeat split; try lia.
      * intros j Hj. destruct (Z.eq_dec j 0) as [->|Hj0].
        -- by rewrite Z.add_0_r.
        -- specialize (Hmin (j - 1) ltac:(lia)). rewrite Hnl, Hht in Hmin.
           replace (height f + j) with (height f + 1 + (j - 1)) by lia. exact Hmin.
      * rewrite Hnl, Hht in Hend.
        replace (height f + Z.of_nat (S k)) with (height f + 1 + Z.of_nat k) by lia.
        exact Hend.
  - exists 0%nat, None. simpl. rewrite Z.add_0_r. repeat split; try lia.
Qed.

(** More fuel than 256 rounds changes nothing. *)
Lemma growLoop_fuel extra f delta :
  uint8 (height f) -> growLoop (256 + extra) f delta = growLoop 256 f delta.
Proof.
  intros Hh. assert (Hgen : forall fuel g,
    uint8 (height g) -> (Z.to_nat (256 - height g) <= fuel)%nat ->
    growLoop (S fuel) g delta = growLoop fuel g delta).
  { clear f Hh. induction fuel as [|fuel IH]; intros g Hg Hfuel.
    { unfold uint8 in Hg. lia. }
    change (growLoop (S (S fuel)) g delta) with
      (if shl64 1 (height g) <? wrap64 (numLeaves g + delta) then
         match reMap g (wrap8 (height g + 1)) with
         | (f', Some e) => (f', Some e)
         | (f', None) => growLoop (S fuel) f' delta
         end
       else (g, None)).
    change (growLoop (S fuel) g delta) with
      (if shl64 1 (height g) <? wrap64 (numLeaves g + delta) then
         match reMap g (wrap8 (height g + 1)) with
         | (f', Some e) => (f', Some e)
         | (f', None) => growLoop fuel f' delta
         end
       else (g, None)).
    destruct (_ <? _); [|done].
    destruct (Z.eq_dec (height g) 255) as [H255|Hlow].
    - destruct (reMap_at_255 g H255) as [e He]. by rewrite He.
    - unfold uint8 in Hg.
      destruct (reMap_next g ltac:(lia)) as (f' & Hre & _ & Hht & _).
      rewrite Hre. apply IH; [unfold uint8; lia | lia]. }
  induction extra as [|extra IH]; [done|].
  replace (256 + S extra)%nat with (S (256 + extra)) by lia.
  rewrite Hgen; [exact IH | exact Hh | unfold uint8 in Hh; lia].
Qed.

(** C6. On a forest that meets the invariants of the data model, with
    [len(dels) <= numLeaves] and a slice of additions of a length Go can
    hold, Modify first runs its growth loop, a number of reMap calls to one
    more than the current height, and only then goes on to deletions and
    additions; when the loop is over, [numLeaves + len(adds) - len(dels) <=
    2^height] holds over the integers, although the code takes the
    difference [len(adds) - len(dels)] in uint64, where it wraps when there
    are more deletions than additions. *)
Theorem Modify_grows_until_fit (E : Helpers) (f : Forest)
    (adds : list LeafTXO) (dels : list Z)
    (Hsane : sane f)
    (Hdels : len dels <= numLeaves f)
    (Hadds : len adds < 2 ^ 63) :
  exists (k : nat) (e : option error),
    let f1 := reMapTimes k f in
    growLoop 256 f (wrap64 (len adds - len dels)) = (f1, e) /\
    Modify E f adds dels =
      match e with
      | Some err => Returns (f1, None, Some err)
      | None => applyBlock E f1 adds dels
      end /\
    numLeaves f1 = numLeaves f /\
    height f1 = height f + Z.of_nat k /\
    numLeaves f + len adds - len dels <= 2 ^ height f1 /\
    (forall j, 0 <= j < Z.of_nat k -> height f + j < 64 ->
       2 ^ (height f + j) < numLeaves f + len adds - len dels).
Proof.
  destruct Hsane as (Hnl & Hh & Hcap).
  destruct (growLoop_rounds 256 f (wrap64 (len adds - len dels)) Hh)
    as (k & e & Hloop & Hknl & _ & Hkh & Hmin & Hend).
  { unfold uint8 in Hh. lia. }
  exists k, e. cbv zeta. split; [exact Hloop|].
  split. { unfold Modify. rewrite Hloop. by destruct e. }
  split; [exact Hknl|]. split; [exact Hkh|].
  rewrite Hkh.
  assert (Hmin' : forall j, 0 <= j < Z.of_nat k -> shl64 1 (height f + j) <
            wrap64 (numLeaves f + len adds - len dels)).
  { intros j Hj. specialize (Hmin j Hj). rewrite wrap64_add_wrap64 in Hmin.
    by replace (numLeaves f + (len adds - len dels))
         with (numLeaves f + len adds - len dels) in Hmin by lia. }
  clear Hmin. rewrite wrap64_add_wrap64 in Hend.
  set (N := numLeaves f + len adds - len dels) in *.
  replace (numLeaves f + (len adds - len dels)) with N in Hend by (unfold N; lia).
  pose proof (len_nonneg adds) as Ha. pose proof (len_nonneg dels) as Hd.
  unfold uint64, uint8 in *.
  assert (HN : 0 <= N) by (unfold N; lia).
  assert (Hlow : height f <= 63 -> wrap64 N = N).
  { intros Hhf. assert (2 ^ height f <= 2 ^ 63) by (apply Z.pow_le_mono_r; lia).
    apply wrap64_small. unfold uint64, N.
    change (2 ^ 64) with (2 ^ 63 + 2 ^ 63). lia. }
  split.
  - set (h1 := height f + Z.of_nat k) in *.
    assert (Hh1 : 0 <= h1) by (unfold h1; lia).
    destruct (Z.le_gt_cases 65 h1) as [Hbig|Hsmall].
    { assert (2 ^ 65 <= 2 ^ h1) by (apply Z.pow_le_mono_r; lia).
      assert (N < 2 ^ 65); [|lia].
      unfold N. change (2 ^ 65) with (2 ^ 64 + 2 ^ 64). lia. }
    destruct e as [err|]; [lia|].
    destruct (Z.le_gt_cases 64 h1) as [H64|H63].
    { assert (h1 = 64) as -> by lia.
      change (shl64 1 64) with 0 in Hend.
      assert (Hw : wrap64 N = 0) by (pose proof (wrap64_range N) as [? ?]; lia).
      unfold wrap64 in Hw. apply Z.mod_divide in Hw; [|lia].
      destruct Hw as [q Hq].
      assert (N < 2 * 2 ^ 64) by (unfold N; lia).
      assert (q = 0 \/ q = 1) as [-> | ->] by nia; lia. }
    rewrite shl64_one_small in Hend by lia.
    rewrite Hlow in Hend by (unfold h1 in H63; lia). exact Hend.
  - intros j Hj Hj64. specialize (Hmin' j Hj).
    rewrite shl64_one_small in Hmin' by lia.
    rewrite Hlow in Hmin' by lia. exact Hmin'.
Qed.

End Growth.

Lemma Modify_grows_until_fit_witness :
  sane NewForest /\
  len (@nil Z) <= numLeaves NewForest /\
  len [mkLeaf 5; mkLeaf 6; mkLeaf 7] < 2 ^ 63 /\
  exists (k : nat) (e : option error),
    let f1 := reMapTimes k NewForest in
    growLoop 256 NewForest (wrap64 (len [mkLeaf 5; mkLeaf 6; mkLeaf 7] - len (@nil Z)))
      = (f1, e) /\
    Modify Helper.helpers NewForest [mkLeaf 5; mkLeaf 6; mkLeaf 7] [] =
      match e with
      | Some err => Returns (f1, None, Some err)
      | None => applyBlock Helper.helpers f1 [mkLeaf 5; mkLeaf 6; mkLeaf 7] []
      end /\
    numLeaves f1 = numLeaves NewForest /\
    height f1 = height NewForest + Z.of_nat k /\
    numLeaves NewForest + len [mkLeaf 5; mkLeaf 6; mkLeaf 7] - len (@nil Z)
      <= 2 ^ height f1 /\
    (forall j, 0 <= j < Z.of_nat k -> height NewForest + j < 64 ->
       2 ^ (height NewForest + j) <
       numLeaves NewForest + len [mkLeaf 5; mkLeaf 6; mkLeaf 7] - len (@nil Z)).
Proof.
  assert (H1 : sane NewForest) by (unfold sane, uint64, uint8; simpl; lia).
  assert (H2 : len (@nil Z) <= numLeaves NewForest) by (simpl; reflexivity).
  assert (H3 : len [mkLeaf 5; mkLeaf 6; mkLeaf 7] < 2 ^ 63) by reflexivity.
  split; [exact H1|]. split; [exact H2|]. split; [exact H3|].
  exact (Modify_grows_until_fit Helper.helpers NewForest
           [mkLeaf 5; mkLeaf 6; mkLeaf 7] [] H1 H2 H3).
Defined.

(** Without the invariant [numLeaves <= 2^height] the sum itself can wrap:
    with [2^64 - 1] leaves recorded at height 0 and one addition the loop
    condition sees 0 and the loop does not run. *)
Lemma growLoop_wrapped_sum :
  let f := mkForest (2 ^ 64 - 1) 0 ForestData.new ∅ 0 in
  growLoop 256 f (wrap64 (len [mkLeaf 1] - len (@nil Z))) = (f, None) /\
  ~ (numLeaves f + len [mkLeaf 1] - len (@nil Z) <= 2 ^ height f).
Proof. split; [reflexivity|]. intros H. vm_compute in H. by apply H. Qed.

(** ** RestoreForest *)

Section Restore.

Variable E : Helpers.

(** A key already bound to a leaf that carries it stays bound to such a
    leaf, that one or a later one. *)
Lemma scanLeaves_keeps d count : forall i pm k j0,
  pm !! k = Some j0 -> Mini E (ForestData.read d j0) = k -> j0 < i ->
  exists j', scanLeaves E count i d pm !! k = Some j' /\
             Mini E (ForestData.read d j') = k /\
             j0 <= j' < Z.max (j0 + 1) (i + Z.of_nat count).
Proof.
  induction count as [|count IH]; intros i pm k j0 Hk Hj0 Hlt; simpl.
  - exists j0. repeat split; [done|done|lia|lia].
  - destruct (decide (Mini E (ForestData.read d i) = k)) as [Heq|Hne].
    + destruct (IH (i + 1) (<[Mini E (ForestData.read d i) := i]> pm) k i)
        as (j' & Hl & Hm & Hr); [by rewrite Heq, lookup_insert_eq|done|lia|].
      exists j'. repeat split; [done|done|lia|lia].
    + destruct (IH (i + 1) (<[Mini E (ForestData.read d i) := i]> pm) k j0)
        as (j' & Hl & Hm & Hr); [by rewrite lookup_insert_ne|done|lia|].
      exists j'. repeat split; [done|done|lia|lia].
Qed.

(** After the scan every leaf of the row has its key bound to a leaf of
    the row that carries the same key. *)
Lemma scanLeaves_leaf d count : forall i pm j,
  i <= j < i + Z.of_nat count ->
  exists j', scanLeaves E count i d pm !! Mini E (ForestData.read d j) = Some j' /\
             Mini E (ForestData.read d j') = Mini E (ForestData.read d j) /\
             j <= j' < i + Z.of_nat count.
Proof.
  induction count as [|count IH]; intros i pm j Hj; [lia|]. simpl.
  destruct (Z.eq_dec j i) as [->|Hne].
  - destruct (scanLeaves_keeps d count (i + 1)
                (<[Mini E (ForestData.read d i) := i]> pm)
                (Mini E (ForestData.read d i)) i)
      as (j' & Hl & Hm & Hr); [by rewrite lookup_insert_eq|done|lia|].
    exists j'. repeat split; [done|done|lia|lia].
  - destruct (IH (i + 1) (<[Mini E (ForestData.read d i) := i]> pm) j)
      as (j' & Hl & Hm & Hr); [lia|].
    exists j'. repeat split; [done|done|lia|lia].
Qed.

(** Keys that no leaf of the row carries keep what they were bound to. *)
Lemma scanLeaves_other d count : forall i pm k,
  (forall j, i <= j < i + Z.of_nat count -> Mini E (ForestData.read d j) <> k) ->
  scanLeaves E count i d pm !! k = pm !! k.
Proof.
  induction count as [|count IH]; intros i pm k Hk; simpl; [done|].
  rewrite IH by (intros j Hj; apply Hk; lia).
  apply lookup_insert_ne. apply Hk. lia.
Qed.

(** A fresh handle on a file of nine bytes or more: the first read gives
    bytes 0 to 7, the next one byte 8. *)
Lemma fileRead_scalars (bytes : list Z) :
  (9 <= length bytes)%nat ->
  exists m1 m2,
    fileRead (mkFile bytes 0) 8 = (m1, inl (take 8 bytes)) /\
    fileRead m1 1 = (m2, inl (take 1 (drop 8 bytes))).
Proof.
  intros Hlen. do 9 (destruct bytes as [|? bytes]; [simpl in Hlen; lia|]).
  eexists _, _. split; reflexivity.
Qed.


End Restore.


(** ** Rows of the position space *)

Module Rows.

Lemma pow2_pos n : 0 <= n -> 0 < 2 ^ n.
Proof. intros. apply Z.pow_pos_nonneg; lia. Qed.

Lemma pow2_succ n : 0 <= n -> 2 ^ (n + 1) = 2 * 2 ^ n.
Proof. intros. rewrite Z.pow_add_r by lia. lia. Qed.

Lemma pow2_le a b : 0 <= a <= b -> 2 ^ a <= 2 ^ b.
Proof. intros. apply Z.pow_le_mono_r; lia. Qed.

Lemma pow2_lt a b : 0 <= a < b -> 2 ^ a < 2 ^ b.
Proof. intros. apply Z.pow_lt_mono_r; lia. Qed.

Lemma rowBase_0 H : 0 <= H -> rowBase H 0 = 0.
Proof. intros. unfold rowBase. rewrite Z.sub_0_r. lia. Qed.

Lemma rowBase_1 H : 0 <= H -> rowBase H 1 = 2 ^ H.
Proof.
  intros. unfold rowBase. replace (H + 1 - 1) with H by lia.
  rewrite pow2_succ by lia. lia.
Qed.

(** A row is followed by the next one, half as long. *)
Lemma rowBase_next H r :
  0 <= r <= H -> rowBase H (r + 1) = rowBase H r + 2 ^ (H - r).
Proof.
  intros. unfold rowBase. replace (H + 1 - r) with (H - r + 1) by lia.
  replace (H + 1 - (r + 1)) with (H - r) by lia.
  rewrite (pow2_succ (H - r)) by lia. lia.
Qed.

Lemma rowBase_range H r : 0 <= r <= H -> 0 <= rowBase H r < 2 ^ (H + 1).
Proof.
  intros. unfold rowBase.
  pose proof (pow2_pos (H + 1 - r) ltac:(lia)).
  pose proof (pow2_le (H + 1 - r) (H + 1) ltac:(lia)). lia.
Qed.

Lemma rowBase_ge H r : 1 <= r <= H -> 2 ^ H <= rowBase H r.
Proof.
  intros. unfold rowBase. rewrite (pow2_succ H) by lia.
  pose proof (pow2_le (H + 1 - r) H ltac:(lia)). lia.
Qed.

(** Halving the base of row [r] under height [H + 1] gives the base of
    row [r] under height [H]. *)
Lemma rowBase_half H r :
  0 <= r <= H -> Z.shiftr (rowBase (H + 1) r) 1 = rowBase H r.
Proof.
  intros. rewrite Z.shiftr_div_pow2 by lia. change (2 ^ 1) with 2.
  unfold rowBase. replace (H + 1 + 1 - r) with (H + 1 - r + 1) by lia.
  rewrite (pow2_succ (H + 1)), (pow2_succ (H + 1 - r)) by lia.
  replace (2 * 2 ^ (H + 1) - 2 * 2 ^ (H + 1 - r))
    with ((2 ^ (H + 1) - 2 ^ (H + 1 - r)) * 2) by lia.
  apply Z.div_mul. lia.
Qed.

End Rows.

(** ** reMap: what moves where *)

Section ReMapMoves.

Import ForestData.

Lemma zeroRun_read count : forall x d q,
  read (ReMap.zeroRun count x d) q =
  if decide (x <= q < x + Z.of_nat count) then empty else read d q.
Proof.
  induction count as [|count IH]; intros x d q; simpl.
  - destruct (decide _); [lia|done].
  - rewrite IH, read_write.
    repeat destruct (decide _); try done; lia.
Qed.

(** One run of the copy loop: slots outside the destination run keep their
    hash; a destination slot takes the hash of its source when that is not
    the sentinel and keeps its own otherwise. *)
Lemma copyRun_read count : forall pos x d,
  let src := Z.shiftr pos 1 in
  0 <= src -> 0 <= x ->
  src + x + Z.of_nat count <= pos ->
  pos + x + Z.of_nat count <= 2 ^ 64 ->
  src + x + Z.of_nat count <= size d ->
  let d' := ReMap.copyRun count pos x d in
  size d <= size d' /\
  (forall q, ~ (pos + x <= q < pos + x + Z.of_nat count) -> read d' q = read d q) /\
  (forall i, 0 <= i < Z.of_nat count ->
     read d' (pos + x + i) =
     if decide (read d (src + x + i) = empty) then read d (pos + x + i)
     else read d (src + x + i)).
Proof.
  induction count as [|count IH]; intros pos x d src Hsrc Hx Hbelow Hfit Hsize; cbv zeta.
  { simpl. split; [lia|]. split; [done|]. intros i Hi. lia. }
  simpl ReMap.copyRun. fold src.
  rewrite (wrap64_small (src + x)) by (unfold uint64; lia).
  rewrite (wrap64_small (pos + x)) by (unfold uint64; lia).
  destruct (Z.ltb_spec (src + x) (size d)) as [_|Hbad]; [|lia]. cbn [andb].
  set (d1 := if negb (read d (src + x) =? empty)
             then write d (pos + x) (read d (src + x)) else d).
  assert (Hsz1 : size d <= size d1).
  { unfold d1. destruct (negb _); [apply size_write|lia]. }
  assert (Hd1 : forall q, q <> pos + x -> read d1 q = read d q).
  { intros q Hq. unfold d1. destruct (negb _); [by apply read_write_ne|done]. }
  assert (Hd1x : read d1 (pos + x) =
                 if decide (read d (src + x) = empty) then read d (pos + x)
                 else read d (src + x)).
  { unfold d1. destruct (Z.eqb_spec (read d (src + x)) empty) as [He|Hne]; simpl.
    - by rewrite decide_True.
    - rewrite decide_False by done. apply read_write_eq. }
  destruct (IH pos (x + 1) d1) as (Hsz & Hout & Hin); fold src; try lia.
  split; [lia|]. split.
  - intros q Hq. rewrite Hout by lia. apply Hd1. lia.
  - intros i Hi. destruct (Z.eq_dec i 0) as [->|Hi0].
    + rewrite !Z.add_0_r. rewrite Hout by lia. exact Hd1x.
    + specialize (Hin (i - 1) ltac:(lia)).
      replace (pos + (x + 1) + (i - 1)) with (pos + x + i) in Hin by lia.
      replace (Z.shiftr pos 1 + (x + 1) + (i - 1)) with (src + x + i) in Hin
        by (unfold src; lia).
      rewrite Hin. rewrite !Hd1 by lia. done.
Qed.

(** The rows [r], [r+1], ..., [H] of the old layout, copied in that order
    under the new height [H + 1]. *)
Lemma copyRows_read H rows : forall r d,
  0 <= H <= 62 -> 1 <= r -> r + Z.of_nat rows = H + 1 ->
  2 ^ (H + 1) <= size d ->
  let d' := ReMap.copyRows rows (rowBase (H + 1) r) (2 ^ (H + 1 - r)) d in
  (forall q, q < rowBase (H + 1) r -> read d' q = read d q) /\
  (forall r' x, r <= r' <= H -> 0 <= x < 2 ^ (H - r') ->
     read d (rowBase H r' + x) <> empty ->
     read d' (rowBase (H + 1) r' + x) = read d (rowBase H r' + x)).
Proof.
  induction rows as [|rows IH]; intros r d HH Hr Hrows Hsize; cbv zeta.
  { simpl. split; [done|]. intros r' x Hr'. lia. }
  simpl ReMap.copyRows.
  assert (Hrun : Z.shiftr (2 ^ (H + 1 - r)) 1 = 2 ^ (H - r)).
  { rewrite Z.shiftr_div_pow2 by lia. change (2 ^ 1) with 2.
    replace (H + 1 - r) with (H - r + 1) by lia.
    rewrite Rows.pow2_succ by lia. rewrite Z.mul_comm. apply Z.div_mul. lia. }
  rewrite Hrun.
  assert (Hreach : 2 ^ (H + 1 - r) = 2 * 2 ^ (H - r)).
  { replace (H + 1 - r) with (H - r + 1) by lia. apply Rows.pow2_succ. lia. }
  rewrite Hreach.
  pose proof (Rows.pow2_pos (H - r) ltac:(lia)) as Hlen.
  pose proof (Rows.rowBase_range (H + 1) r ltac:(lia)) as [Hb0 Hb1].
  pose proof (Rows.rowBase_range H r ltac:(lia)) as [Hs0 Hs1].
  pose proof (Rows.rowBase_next (H + 1) r ltac:(lia)) as Hnext.
  pose proof (Rows.rowBase_next H r ltac:(lia)) as Hsnext.
  replace (H + 1 - r) with (H - r + 1) in Hnext by lia.
  rewrite (Rows.pow2_succ (H - r)) in Hnext by lia.
  pose proof (Rows.rowBase_ge (H + 1) r ltac:(lia)) as Hge.
  pose proof (Rows.pow2_le (H + 1 + 1) 64 ltac:(lia)) as H64.
  pose proof (Rows.pow2_succ (H + 1) ltac:(lia)) as Hsucc.
  assert (Hsrcend : rowBase H r + 2 ^ (H - r) <= 2 ^ (H + 1)).
  { unfold rowBase. replace (H + 1 - r) with (H - r + 1) by lia.
    rewrite (Rows.pow2_succ (H - r)) by lia. lia. }
  pose proof (Rows.rowBase_range (H + 1) (r + 1) ltac:(lia)) as [_ Hdstend].
  remember (2 ^ (H - r)) as L eqn:HL.
  pose proof (copyRun_read (Z.to_nat L) (rowBase (H + 1) r) 0 d) as Hcr.
  cbv zeta in Hcr. rewrite Rows.rowBase_half in Hcr by lia.
  destruct Hcr as (Hsz & Hout & Hin); try lia.
  set (d1 := ReMap.copyRun _ _ _ d) in *.
  rewrite wrap64_small by (unfold uint64; lia).
  rewrite <- Hnext.
  assert (Hthis : forall x, 0 <= x < L -> read d (rowBase H r + x) <> empty ->
            read d1 (rowBase (H + 1) r + x) = read d (rowBase H r + x)).
  { intros x Hx Hne. specialize (Hin x ltac:(lia)). rewrite !Z.add_0_r in Hin.
    rewrite Hin. by rewrite decide_False. }
  destruct rows as [|rows'].
  - (* r = H: the last row *)
    assert (r = H) as -> by lia. simpl ReMap.copyRows.
    split.
    + intros q Hq. apply Hout. lia.
    + intros r' x Hr' Hx Hne. assert (r' = H) as -> by lia.
      apply Hthis; [rewrite HL; lia | exact Hne].
  - destruct (IH (r + 1) d1) as (Hout' & Hin'); try lia.
    replace (H + 1 - (r + 1)) with (H - r) in * by lia.
    rewrite <- HL in *.
    split.
    + intros q Hq. rewrite Hout' by lia. apply Hout. lia.
    + intros r' x Hr' Hx Hne. destruct (Z.eq_dec r' r) as [->|Hr'ne].
      * rewrite Hout' by lia. apply Hthis; [rewrite HL; lia | exact Hne].
      * assert (Hsrc : rowBase H r' + x < 2 ^ (H + 1)).
        { unfold rowBase. replace (H + 1 - r') with (H - r' + 1) by lia.
          rewrite (Rows.pow2_succ (H - r')) by lia. lia. }
        rewrite Hin'; [|lia|lia|].
        -- apply Hout. lia.
        -- rewrite Hout by lia. exact Hne.
Qed.

End ReMapMoves.

Section ReMapEffect.

Import ForestData.

(** The successful path of reMap, spelled out. *)
Lemma reMap_grow f :
  0 <= height f < 255 ->
  let dest := height f + 1 in
  reMap f dest =
  (set_height
     (set_data f
        (ReMap.zeroRun (Z.to_nat (shl64 1 dest - shl64 1 (height f)))
           (shl64 1 (height f))
           (ReMap.copyRows (Z.to_nat (dest - 1)) (shl64 1 dest)
              (Z.shiftr (shl64 1 dest) 1)
              (resize (data f) (shl64 1 dest)))))
     dest, None).
Proof.
  intros Hh dest. unfold reMap, dest.
  destruct (Z.eqb_spec (height f + 1) (height f)); [lia|].
  rewrite (wrap8_small (height f + 1)) by (unfold uint8; lia).
  rewrite Z.ltb_irrefl. simpl.
  destruct (Z.ltb_spec 0 (height f)); simpl.
  - rewrite (wrap8_small (height f - 1)) by (unfold uint8; lia).
    destruct (Z.ltb_spec (height f + 1) (height f - 1)); [lia|].
    destruct (Z.ltb_spec (height f + 1) (height f)); [lia|]. reflexivity.
  - destruct (Z.ltb_spec (height f + 1) (height f)); [lia|]. reflexivity.
Qed.

(** C8, for heights up to 62.  When reMap takes a forest from height [H]
    to [H + 1]: every slot of the bottom row [[0, 2^H)] holds the hash it
    held before; every slot of [[2^H, 2^(H+1))] holds the sentinel; and for
    each row [r >= 1] of the old layout, every slot that was not the
    sentinel is found, with the same hash, at the same offset from the
    base of row [r] under the new height. *)
Theorem reMap_relocates (f : Forest) (HH : 0 <= height f <= 62) :
  let H := height f in
  exists f',
    reMap f (H + 1) = (f', None) /\
    height f' = H + 1 /\ numLeaves f' = numLeaves f /\
    positionMap f' = positionMap f /\
    (forall p, 0 <= p < 2 ^ H -> read (data f') p = read (data f) p) /\
    (forall p, 2 ^ H <= p < 2 ^ (H + 1) -> read (data f') p = empty) /\
    (forall r x, 1 <= r <= H -> 0 <= x < 2 ^ (H - r) ->
       read (data f) (rowBase H r + x) <> empty ->
       read (data f') (rowBase (H + 1) r + x) = read (data f) (rowBase H r + x)).
Proof.
  intros H. eexists. split; [apply reMap_grow; lia|]. fold H.
  cbn [height numLeaves positionMap data set_height set_data].
  split; [done|]. split; [done|]. split; [done|].
  rewrite !shl64_one_small by lia.
  pose proof (Rows.pow2_pos H ltac:(lia)) as Hpos.
  pose proof (Rows.pow2_succ H ltac:(lia)) as Hsucc.
  assert (Hhalf : Z.shiftr (2 ^ (H + 1)) 1 = 2 ^ H).
  { rewrite Z.shiftr_div_pow2 by lia. change (2 ^ 1) with 2.
    rewrite Hsucc, Z.mul_comm. apply Z.div_mul. lia. }
  rewrite Hhalf.
  set (d0 := resize (data f) (2 ^ (H + 1))).
  destruct (copyRows_read H (Z.to_nat (H + 1 - 1)) 1 d0) as (Hout & Hin);
    [lia|lia|lia|apply size_resize|].
  rewrite Rows.rowBase_1 in Hout, Hin by lia.
  replace (H + 1 - 1) with H in * by lia.
  set (d1 := ReMap.copyRows _ _ _ d0) in *.
  split; [|split].
  - intros p Hp. rewrite zeroRun_read, decide_False by lia.
    rewrite Hout by lia. reflexivity.
  - intros p Hp. rewrite zeroRun_read, decide_True by lia. reflexivity.
  - intros r x Hr Hx Hne.
    pose proof (Rows.rowBase_ge (H + 1) r ltac:(lia)).
    rewrite zeroRun_read, decide_False by lia.
    apply Hin; [lia|lia|exact Hne].
Qed.

End ReMapEffect.

Lemma reMap_relocates_witness :
  0 <= height (oneLeaf Helper.helpers 5) <= 62 /\
  exists f',
    reMap (oneLeaf Helper.helpers 5) 1 = (f', None) /\
    ForestData.read (data f') 0 = 5 /\ ForestData.read (data f') 1 = empty.
Proof.
  assert (HH : 0 <= height (oneLeaf Helper.helpers 5) <= 62) by (simpl; lia).
  split; [exact HH|].
  destruct (reMap_relocates (oneLeaf Helper.helpers 5) HH)
    as (f' & Hre & _ & _ & _ & Hrow0 & Hzero & _).
  exists f'. split; [exact Hre|]. split.
  - rewrite Hrow0 by (simpl; lia). reflexivity.
  - apply Hzero. simpl. lia.
Defined.

(** At height 63 the shifts of reMap run out of bits: [1 << 64] is 0 in
    uint64, neither loop runs, and the old row 1 is left where it was, in
    the half of the new bottom row that C8 wants cleared. *)
Lemma reMap_height_63_keeps_row1 :
  exists f',
    reMap tallForest (height tallForest + 1) = (f', None) /\
    2 ^ height tallForest <= 2 ^ 63 < 2 ^ (height tallForest + 1) /\
    ForestData.read (data f') (2 ^ 63) <> empty.
Proof.
  eexists. split; [vm_compute; reflexivity|]. split; [simpl; lia|].
  vm_compute. discriminate.
Qed.

(** ** reHash: the writes as a list of steps *)

Section RehashPlan.

Variable E : Helpers.
Import ForestData.

Lemma hashRow_plan fh tops whole : forall row d hashes nextRow,
  exists hashes',
    hashRow E fh tops whole row (d, hashes, nextRow) =
    (Plan.exec E fh (Plan.planRow tops row).1 d, hashes',
     nextRow ++ map (Plan.parentOf fh) (Plan.planRow tops row).1,
     if (Plan.planRow tops row).2 then Some (ErrNoTops whole) else None).
Proof.
  induction row as [|pos rest IH]; intros d hashes nextRow.
  { exists hashes. simpl. by rewrite app_nil_r. }
  cbn [hashRow Plan.planRow].
  destruct (match rest with
            | [] => false
            | next :: _ => Z.lor pos 1 =? next
            end) eqn:Hsib.
  { apply IH. }
  destruct tops as [|top0 tops'].
  { exists hashes. simpl. by rewrite app_nil_r. }
  destruct (pos =? top0) eqn:Htop.
  { apply IH. }
  destruct (Plan.planRow (top0 :: tops') rest) as [ps err] eqn:Hplan.
  cbn [fst snd].
  set (l := read d (Z.lxor (Z.lor pos 1) 1)).
  set (r := read d (Z.lor pos 1)).
  destruct ((l =? empty) || (r =? empty)) eqn:Hempty.
  - destruct (IH (write d (up1 (Z.lxor (Z.lor pos 1) 1) fh) empty) hashes
                (nextRow ++ [up1 (Z.lxor (Z.lor pos 1) 1) fh])) as [hashes' Hrec].
    exists hashes'. rewrite Hrec. cbn [fst snd map Plan.exec fold_left].
    rewrite <- app_assoc. cbn [app].
    unfold Plan.hashStep, Plan.leftOf, Plan.rightOf, Plan.parentOf.
    fold l r. rewrite Hempty. reflexivity.
  - destruct (IH (write d (up1 (Z.lxor (Z.lor pos 1) 1) fh) (Parent E l r))
                (wrap64 (hashes + 1))
                (nextRow ++ [up1 (Z.lxor (Z.lor pos 1) 1) fh])) as [hashes' Hrec].
    exists hashes'. rewrite Hrec. cbn [fst snd map Plan.exec fold_left].
    rewrite <- app_assoc. cbn [app].
    unfold Plan.hashStep, Plan.leftOf, Plan.rightOf, Plan.parentOf.
    fold l r. rewrite Hempty. reflexivity.
Qed.

Lemma exec_app fh ps ps' d :
  Plan.exec E fh (ps ++ ps') d = Plan.exec E fh ps' (Plan.exec E fh ps d).
Proof. unfold Plan.exec. apply fold_left_app. Qed.

(** [floors] panics exactly when the plan does, returns an error exactly
    when the plan says so, and leaves storage as the planned steps do. *)
Lemma floors_plan fh dirty2d fuel : forall h tops topheights currentRow rem d hashes,
  match Plan.planFloors E fuel h fh dirty2d tops topheights currentRow rem with
  | None =>
      floors E fuel h fh dirty2d tops topheights currentRow rem (d, hashes) = Panics
  | Some (ps, err) =>
      exists hashes' e,
        floors E fuel h fh dirty2d tops topheights currentRow rem (d, hashes) =
          Returns (Plan.exec E fh ps d, hashes', e) /\
        (e = None <-> err = false)
  end.
Proof.
  induction fuel as [|fuel IH]; intros h tops topheights currentRow rem d hashes.
  { simpl. exists hashes, None. done. }
  cbn [floors Plan.planFloors].
  destruct (dirty2d !! Z.to_nat h) as [dirty|]; [|done].
  destruct ((rem - len dirty =? 0) &&
            (len (mergeSortedSlices E currentRow dirty) =? 0)).
  { simpl. exists hashes, None. done. }
  set (row := mergeSortedSlices E currentRow dirty).
  destruct (hashRow_plan fh tops row row d hashes []) as [hashes1 Hrow].
  rewrite Hrow. destruct (Plan.planRow tops row) as [ps err]. cbn [fst snd app].
  destruct err.
  { exists hashes1, (Some (ErrNoTops row)). split; [done|]. split; discriminate. }
  destruct topheights as [|th ths]; [done|].
  destruct (th =? h).
  - destruct tops as [|t ts]; [done|].
    specialize (IH (h + 1) ts ths (map (Plan.parentOf fh) ps) (rem - len dirty)
                  (Plan.exec E fh ps d) hashes1).
    destruct (Plan.planFloors E fuel (h + 1) fh dirty2d ts ths _ _) as [[ps' err']|].
    + destruct IH as (hashes' & e & Hfl & He). exists hashes', e.
      rewrite Hfl, exec_app. done.
    + exact IH.
  - specialize (IH (h + 1) tops (th :: ths) (map (Plan.parentOf fh) ps)
                  (rem - len dirty) (Plan.exec E fh ps d) hashes1).
    destruct (Plan.planFloors E fuel (h + 1) fh dirty2d tops (th :: ths) _ _)
      as [[ps' err']|].
    + destruct IH as (hashes' & e & Hfl & He). exists hashes', e.
      rewrite Hfl, exec_app. done.
    + exact IH.
Qed.

End RehashPlan.

(** ** Bits of a position *)

Module Bits.

Lemma lor_1 p : 0 <= p -> Z.lor p 1 = 2 * (p / 2) + 1.
Proof.
  intros Hp. destruct p as [|q|q]; [reflexivity| |lia].
  destruct q as [q|q|].
  - change (Z.lor (Z.pos q~1) 1) with (Z.pos q~1).
    change (Z.pos q~1) with (2 * Z.pos q + 1). Z.div_mod_to_equations; lia.
  - change (Z.lor (Z.pos q~0) 1) with (Z.pos q~1).
    change (Z.pos q~1) with (2 * Z.pos q + 1).
    change (Z.pos q~0) with (2 * Z.pos q). Z.div_mod_to_equations; lia.
  - reflexivity.
Qed.

Lemma lxor_lor_1 p : 0 <= p -> Z.lxor (Z.lor p 1) 1 = 2 * (p / 2).
Proof.
  intros Hp. destruct p as [|q|q]; [reflexivity| |lia].
  destruct q as [q|q|].
  - change (Z.lxor (Z.lor (Z.pos q~1) 1) 1) with (Z.pos q~0).
    change (Z.pos q~1) with (2 * Z.pos q + 1).
    change (Z.pos q~0) with (2 * Z.pos q). Z.div_mod_to_equations; lia.
  - change (Z.lxor (Z.lor (Z.pos q~0) 1) 1) with (Z.pos q~0).
    change (Z.pos q~0) with (2 * Z.pos q). Z.div_mod_to_equations; lia.
  - reflexivity.
Qed.

Lemma land_pow2_small a n : 0 <= n -> 0 <= a < 2 ^ n -> Z.land a (2 ^ n) = 0.
Proof.
  intros Hn Ha. apply Z.bits_inj'. intros k Hk.
  rewrite Z.land_spec, Z.bits_0, Z.pow2_bits_eqb by lia.
  destruct (Z.eqb_spec n k) as [<-|]; [|apply andb_false_r].
  rewrite andb_true_r. destruct (Z.eq_dec a 0) as [->|]; [apply Z.bits_0|].
  apply Z.bits_above_log2; [lia|]. apply Z.log2_lt_pow2; lia.
Qed.

Lemma lor_pow2 a n : 0 <= n -> 0 <= a < 2 ^ n -> Z.lor a (2 ^ n) = a + 2 ^ n.
Proof.
  intros Hn Ha. pose proof (land_pow2_small a n Hn Ha) as Hland.
  rewrite <- Z.lxor_lor by exact Hland. symmetry.
  apply Z.add_nocarry_lxor. exact Hland.
Qed.

(** The parent of [p]: [p] halved, moved up by the bottom row's length. *)
Lemma up1_eq p H :
  0 <= H <= 63 -> 0 <= p < 2 ^ (H + 1) -> up1 p H = p / 2 + 2 ^ H.
Proof.
  intros HH Hp. unfold up1. rewrite shl64_one_small by lia.
  rewrite Z.shiftr_div_pow2 by lia. change (2 ^ 1) with 2.
  rewrite (Rows.pow2_succ H) in Hp by lia.
  apply lor_pow2; [lia|]. Z.div_mod_to_equations; lia.
Qed.

(** A position of the bottom row is in row 0. *)
Lemma detectHeight_bottom p H :
  0 <= H <= 63 -> 0 <= p < 2 ^ H -> detectHeight p H = 0.
Proof.
  intros HH Hp. unfold detectHeight. rewrite shl64_one_small by lia.
  replace (Z.to_nat H + 1)%nat with (S (Z.to_nat H)) by lia. simpl.
  by rewrite land_pow2_small by lia.
Qed.

End Bits.

(** ** Rows and the steps of reHash *)

Module RowFacts.
Import Plan.

(** The three row bases around row [r < H], in terms of the length [X] of
    the bottom row and the length [M] of row [r + 1]. *)
Lemma bases H r :
  0 <= r < H ->
  exists X M, 2 ^ H = X /\ 1 <= M /\ 2 * M <= X /\
    rowBase H r = 2 * X - 4 * M /\
    rowBase H (r + 1) = 2 * X - 2 * M /\
    rowBase H (r + 2) = 2 * X - M.
Proof.
  intros Hr. exists (2 ^ H), (2 ^ (H - r - 1)).
  pose proof (Rows.pow2_pos (H - r - 1) ltac:(lia)) as Hpos.
  pose proof (Rows.pow2_le (H - r) H ltac:(lia)) as Hle.
  assert (Ha : 2 ^ (H - r) = 2 * 2 ^ (H - r - 1)).
  { replace (H - r) with (H - r - 1 + 1) at 1 by lia. apply Rows.pow2_succ. lia. }
  assert (Hb : 2 ^ (H + 1 - r) = 2 * 2 ^ (H - r)).
  { replace (H + 1 - r) with (H - r + 1) by lia. apply Rows.pow2_succ. lia. }
  unfold rowBase. rewrite (Rows.pow2_succ H) by lia.
  replace (H + 1 - (r + 1)) with (H - r) by lia.
  replace (H + 1 - (r + 2)) with (H - r - 1) by lia.
  rewrite Hb, Ha. rewrite Ha in Hle. repeat split; lia.
Qed.

Lemma rowBase_mono H r r' : 0 <= r <= r' -> r' <= H + 1 -> rowBase H r <= rowBase H r'.
Proof.
  intros Hr Hr'. unfold rowBase.
  pose proof (Rows.pow2_le (H + 1 - r') (H + 1 - r) ltac:(lia)). lia.
Qed.

(** Rows do not overlap. *)
Lemma inRow_unique H r r' p :
  0 <= r <= H -> 0 <= r' <= H -> inRow H r p -> inRow H r' p -> r = r'.
Proof.
  intros Hr Hr' [Hlo Hhi] [Hlo' Hhi'].
  destruct (Z.lt_trichotomy r r') as [Hlt|[Heq|Hgt]]; [|done|].
  - pose proof (rowBase_mono H (r + 1) r' ltac:(lia) ltac:(lia)). lia.
  - pose proof (rowBase_mono H (r' + 1) r ltac:(lia) ltac:(lia)). lia.
Qed.

Lemma inRow_nonneg H r p : 0 <= r <= H -> inRow H r p -> 0 <= p < 2 ^ (H + 1).
Proof.
  intros Hr [Hlo Hhi]. pose proof (Rows.rowBase_range H r Hr).
  pose proof (rowBase_mono H (r + 1) (H + 1) ltac:(lia) ltac:(lia)).
  assert (rowBase H (H + 1) < 2 ^ (H + 1)); [|lia].
  unfold rowBase. replace (H + 1 - (H + 1)) with 0 by lia. simpl. lia.
Qed.

(** The children named by a position of row [r < H] are in row [r]; the
    parent is in row [r + 1], at half the offset. *)
Lemma children_parent H r p :
  0 <= H <= 63 -> 0 <= r < H -> inRow H r p ->
  leftOf p = 2 * (p / 2) /\ rightOf p = 2 * (p / 2) + 1 /\
  parentOf H p = p / 2 + 2 ^ H /\
  inRow H r (leftOf p) /\ inRow H r (rightOf p) /\ inRow H (r + 1) (parentOf H p).
Proof.
  intros HH Hr Hin. pose proof (inRow_nonneg H r p ltac:(lia) Hin) as Hp.
  destruct Hin as [Hlo Hhi].
  destruct (bases H r Hr) as (X & M & HX & HM & HMX & Hb0 & Hb1 & Hb2).
  unfold parentOf, leftOf, rightOf.
  rewrite Bits.lxor_lor_1, Bits.lor_1 by lia.
  assert (Hup : up1 (2 * (p / 2)) H = p / 2 + 2 ^ H).
  { rewrite Bits.up1_eq; [|lia|].
    - f_equal. rewrite Z.mul_comm. apply Z.div_mul. lia.
    - Z.div_mod_to_equations; lia. }
  rewrite Hup. unfold inRow.
  replace (r + 1 + 1) with (r + 2) by lia.
  rewrite Hb0, Hb1, Hb2, HX in *.
  repeat split; Z.div_mod_to_equations; lia.
Qed.

End RowFacts.

(** ** reHash: running the steps twice *)

Section StepsTwice.

Variable E : Helpers.
Variable H : Z.
Hypothesis HH : 0 <= H <= 63.

Import ForestData Plan.

Lemma hashStep_read d c q :
  q <> parentOf H c -> read (hashStep E H d c) q = read d q.
Proof. intros Hq. unfold hashStep. by apply read_write_ne. Qed.

(** What a step writes depends on the two children only. *)
Lemma hashStep_value d d' c c' :
  leftOf c = leftOf c' -> rightOf c = rightOf c' ->
  read d (leftOf c) = read d' (leftOf c) ->
  read d (rightOf c) = read d' (rightOf c) ->
  read (hashStep E H d c) (parentOf H c) = read (hashStep E H d' c') (parentOf H c').
Proof.
  intros Hl Hr Hdl Hdr. unfold hashStep. rewrite !read_write_eq.
  by rewrite <- Hl, <- Hr, Hdl, Hdr.
Qed.

Lemma exec_frame ps : forall d q,
  (forall c, c ∈ ps -> parentOf H c <> q) ->
  read (exec E H ps d) q = read d q.
Proof.
  induction ps as [|c ps IH]; intros d q Hq; [done|]. simpl.
  rewrite IH by (intros c' Hc'; apply Hq; apply elem_of_cons; by right).
  apply hashStep_read. intros ->. apply (Hq c); [apply elem_of_cons; by left|done].
Qed.

Lemma rowSorted_rows h ps :
  rowSorted H h ps -> forall c, c ∈ ps -> exists r, h <= r < H /\ inRow H r c.
Proof.
  induction 1 as [h|h r pos ps Hr Hin Hsorted IH]; intros c Hc.
  - by apply elem_of_nil in Hc.
  - apply elem_of_cons in Hc as [->|Hc]; [eauto|].
    destruct (IH c Hc) as (r' & Hr' & Hin'). exists r'. split; [lia|done].
Qed.

Lemma settled_ext d d' c :
  (forall q, read d q = read d' q) -> settled E H d c -> settled E H d' c.
Proof.
  intros Hext Hs. unfold settled in *. rewrite <- Hext, <- Hs.
  symmetry. by apply hashStep_value.
Qed.

(** Steps listed row by row: once all are done, each of them is settled. *)
Lemma exec_settled h ps :
  0 <= h -> rowSorted H h ps ->
  forall d c, c ∈ ps -> settled E H (exec E H ps d) c.
Proof.
  intros Hh Hsorted. revert Hh.
  induction Hsorted as [h|h r pos ps Hr Hin Hsorted IH]; intros Hh d c Hc.
  { by apply elem_of_nil in Hc. }
  simpl. apply elem_of_cons in Hc as [->|Hc]; [|apply IH; [lia|done]].
  destruct (RowFacts.children_parent H r pos HH ltac:(lia) Hin)
    as (Hl & Hrt & Hp & Hlrow & Hrrow & Hprow).
  set (d1 := hashStep E H d pos). set (d' := exec E H ps d1).
  assert (Hother : forall c', c' ∈ ps -> forall q, inRow H r q -> parentOf H c' <> q).
  { intros c' Hc' q Hq Heq.
    destruct (rowSorted_rows r ps Hsorted c' Hc') as (r' & Hr' & Hin').
    destruct (RowFacts.children_parent H r' c' HH ltac:(lia) Hin')
      as (_ & _ & _ & _ & _ & Hprow').
    rewrite Heq in Hprow'.
    pose proof (RowFacts.inRow_unique H (r' + 1) r q ltac:(lia) ltac:(lia) Hprow' Hq).
    lia. }
  assert (Hself : forall q, inRow H r q -> parentOf H pos <> q).
  { intros q Hq Heq. rewrite Heq in Hprow.
    pose proof (RowFacts.inRow_unique H (r + 1) r q ltac:(lia) ltac:(lia) Hprow Hq).
    lia. }
  assert (Hkeep : forall q, inRow H r q -> read d' q = read d q).
  { intros q Hq. unfold d'. rewrite exec_frame by (intros c' Hc'; by apply Hother).
    apply hashStep_read. intros ->. by apply (Hself (parentOf H pos)). }
  unfold settled.
  assert (Hdec : Decision (Exists (fun c' => parentOf H c' = parentOf H pos) ps))
    by (apply Exists_dec; intros x; apply Z.eq_dec).
  destruct Hdec as [Hex|Hno].
  - apply Exists_exists in Hex as (c' & Hc' & Hsame).
    destruct (rowSorted_rows r ps Hsorted c' Hc') as (r' & Hr' & Hin').
    destruct (RowFacts.children_parent H r' c' HH ltac:(lia) Hin')
      as (Hl' & Hrt' & Hp' & _ & _ & Hprow').
    assert (Hhalf : c' / 2 = pos / 2) by lia.
    pose proof (IH ltac:(lia) d1 c' Hc') as Hset. unfold settled in Hset.
    fold d' in Hset. rewrite <- Hsame at 2. rewrite <- Hset.
    apply hashStep_value; [|  |done|done]; rewrite ?Hl, ?Hl', ?Hrt, ?Hrt'; lia.
  - apply not_Exists_Forall in Hno; [|intros x; apply Z.eq_dec].
    rewrite Forall_forall in Hno.
    transitivity (read d1 (parentOf H pos)).
    + apply hashStep_value; [done|done|by apply Hkeep|by apply Hkeep].
    + symmetry. apply exec_frame. intros c' Hc'. by apply Hno.
Qed.

(** Steps that are all settled change nothing. *)
Lemma exec_noop ps : forall d,
  (forall c, c ∈ ps -> settled E H d c) ->
  forall q, read (exec E H ps d) q = read d q.
Proof.
  induction ps as [|c ps IH]; intros d Hs q; [done|]. simpl.
  assert (Hsame : forall q', read d q' = read (hashStep E H d c) q').
  { intros q'. destruct (decide (q' = parentOf H c)) as [->|Hne].
    - symmetry. apply Hs. apply elem_of_cons. by left.
    - symmetry. by apply hashStep_read. }
  rewrite IH; [by rewrite <- Hsame|].
  intros c' Hc'. apply (settled_ext d); [exact Hsame|]. apply Hs.
  apply elem_of_cons. by right.
Qed.

Lemma exec_twice h ps d :
  0 <= h -> rowSorted H h ps ->
  forall q, read (exec E H ps (exec E H ps d)) q = read (exec E H ps d) q.
Proof.
  intros Hh Hsorted. apply exec_noop. intros c Hc. by apply (exec_settled h).
Qed.

End StepsTwice.

(** ** reHash: dirt of the bottom row *)

Section RehashBottomRow.

Variable E : Helpers.
Variable H : Z.
Hypothesis HH : 0 <= H <= 63.
Hypothesis mergeSortedSlices_elem :
  forall a b x, x ∈ mergeSortedSlices E a b -> x ∈ a \/ x ∈ b.

Import ForestData Plan.

Lemma inRow_bottom p : 0 <= p < 2 ^ H -> inRow H 0 p.
Proof.
  intros Hp. unfold inRow. rewrite Rows.rowBase_0 by lia.
  change (0 + 1) with 1. rewrite Rows.rowBase_1 by lia. exact Hp.
Qed.

Lemma fileDirt_rows nl : forall dirt acc rem d2d rem',
  Forall (fun p => 0 <= p < 2 ^ H) dirt -> filedByRow H acc ->
  fileDirt nl H dirt acc 0 rem = Returns (inl (d2d, rem')) ->
  filedByRow H d2d.
Proof.
  induction dirt as [|pos dirt IH]; intros acc rem d2d rem' Hdirt Hacc Hfile.
  { simpl in Hfile. by injection Hfile as <- <-. }
  apply Forall_cons in Hdirt as [Hpos Hdirt]. simpl in Hfile.
  destruct (nl <? pos); [discriminate|].
  rewrite Bits.detectHeight_bottom in Hfile by lia.
  change (Z.max 0 0) with 0 in Hfile.
  destruct (H <? 0); [discriminate|].
  change (Z.to_nat 0) with 0%nat in Hfile.
  destruct (acc !! 0%nat) as [row|] eqn:Hrow; [|discriminate].
  apply (IH _ _ _ _ Hdirt) in Hfile; [done|].
  intros k row' Hk. rewrite list_lookup_insert in Hk.
  destruct (decide (0%nat = k ∧ (0 < length acc)%nat)) as [[<- _]|_].
  - injection Hk as <-. apply Forall_app. split; [by apply (Hacc 0%nat)|].
    apply Forall_singleton. by apply inRow_bottom.
  - by apply Hacc.
Qed.

Lemma planRow_sub tops : forall row c, c ∈ (planRow tops row).1 -> c ∈ row.
Proof.
  induction row as [|pos rest IH]; intros c Hc; [done|].
  cbn [planRow] in Hc.
  destruct (match rest with [] => false | next :: _ => Z.lor pos 1 =? next end).
  { apply elem_of_cons. right. by apply IH. }
  destruct tops as [|top0 tops']; [by apply elem_of_nil in Hc|].
  destruct (pos =? top0).
  { apply elem_of_cons. right. by apply IH. }
  destruct (planRow (top0 :: tops') rest) as [ps err]. cbn [fst] in *.
  apply elem_of_cons in Hc as [->|Hc]; apply elem_of_cons; [by left|right; by apply IH].
Qed.

Lemma rowSorted_weaken h h' ps :
  rowSorted H h ps -> h' <= h -> rowSorted H h' ps.
Proof.
  intros Hs Hle. destruct Hs as [h|h r pos ps Hr Hin Hs]; [constructor|].
  apply (rowSorted_cons H h' r); [lia|done|done].
Qed.

Lemma rowSorted_app h h2 l l2 :
  h < H -> h <= h2 -> Forall (inRow H h) l -> rowSorted H h2 l2 ->
  rowSorted H h (l ++ l2).
Proof.
  intros HhH Hle Hl Hl2. induction Hl as [|p l Hp Hl IH]; simpl.
  - by apply (rowSorted_weaken h2).
  - apply (rowSorted_cons H h h); [lia|done|done].
Qed.

Lemma parents_next_row h ps :
  0 <= h < H -> Forall (inRow H h) ps ->
  Forall (inRow H (h + 1)) (map (parentOf H) ps).
Proof.
  intros Hh Hps. induction Hps as [|p ps Hp Hps IH]; simpl; constructor; [|done].
  by destruct (RowFacts.children_parent H h p HH Hh Hp) as (_ & _ & _ & _ & _ & ?).
Qed.

(** The steps of [floors] come row by row. *)
Lemma planFloors_rowSorted dirty2d :
  filedByRow H dirty2d ->
  forall fuel h tops topheights currentRow rem ps err,
    0 <= h -> h + Z.of_nat fuel = H -> Forall (inRow H h) currentRow ->
    planFloors E fuel h H dirty2d tops topheights currentRow rem = Some (ps, err) ->
    rowSorted H h ps.
Proof.
  intros Hfiled.
  induction fuel as [|fuel IH];
    intros h tops topheights currentRow rem ps err Hh Hfuel Hcur Hplan.
  { simpl in Hplan. injection Hplan as <- <-. constructor. }
  cbn [planFloors] in Hplan.
  destruct (dirty2d !! Z.to_nat h) as [dirty|] eqn:Hdirty; [|discriminate].
  apply Hfiled in Hdirty. rewrite Z2Nat.id in Hdirty by lia.
  set (row := mergeSortedSlices E currentRow dirty) in *.
  assert (Hrow : Forall (inRow H h) row).
  { apply Forall_forall. intros x Hx.
    apply mergeSortedSlices_elem in Hx as [Hx|Hx];
      [rewrite Forall_forall in Hcur | rewrite Forall_forall in Hdirty]; auto. }
  destruct ((rem - len dirty =? 0) && (len row =? 0)).
  { injection Hplan as <- <-. constructor. }
  pose proof (planRow_sub tops row) as Hsub.
  destruct (planRow tops row) as [ps0 err0]. cbn [fst] in Hsub.
  assert (Hps0 : Forall (inRow H h) ps0).
  { apply Forall_forall. intros x Hx. rewrite Forall_forall in Hrow. auto. }
  destruct err0.
  { injection Hplan as <- <-. rewrite <- (app_nil_r ps0).
    apply (rowSorted_app h h); [lia|lia|done|constructor]. }
  destruct topheights as [|th ths]; [discriminate|].
  pose proof (parents_next_row h ps0 ltac:(lia) Hps0) as Hnext.
  destruct (th =? h).
  - destruct tops as [|t ts]; [discriminate|].
    destruct (planFloors E fuel (h + 1) H dirty2d ts ths _ _) as [[ps' err']|] eqn:Hrest;
      [|discriminate].
    injection Hplan as <- <-.
    apply (rowSorted_app h (h + 1)); [lia|lia|done|].
    eapply IH; [| |exact Hnext|exact Hrest]; lia.
  - destruct (planFloors E fuel (h + 1) H dirty2d tops (th :: ths) _ _)
      as [[ps' err']|] eqn:Hrest; [|discriminate].
    injection Hplan as <- <-.
    apply (rowSorted_app h (h + 1)); [lia|lia|done|].
    eapply IH; [| |exact Hnext|exact Hrest]; lia.
Qed.

End RehashBottomRow.

Section RehashTwice.

Import ForestData Plan.

Lemma filedByRow_replicate H n : filedByRow H (replicate n []).
Proof. intros k row Hk. apply lookup_replicate in Hk as [-> _]. constructor. Qed.

(** C9, for dirt of the bottom row.  On a forest of height at most 63, with
    every dirty position in the bottom row [[0, 2^height)] and a merge that
    invents no position: when reHash returns without error, a second
    reHash with the same dirt returns without error as well and leaves
    every storage slot as the first run left it. *)
Theorem reHash_twice_bottom_row (E : Helpers) (f f1 : Forest) (dirt : list Z)
    (Hmerge : forall a b x, x ∈ mergeSortedSlices E a b -> x ∈ a \/ x ∈ b)
    (Hh : 0 <= height f <= 63)
    (Hdirt : Forall (fun p => 0 <= p < 2 ^ height f) dirt)
    (Hrun : reHash E f dirt = Returns (f1, None)) :
  exists f2,
    reHash E f1 dirt = Returns (f2, None) /\
    forall p, read (data f2) p = read (data f1) p.
Proof.
  unfold reHash in Hrun.
  destruct ((height f =? 0) || (len dirt =? 0)) eqn:Hskip.
  { injection Hrun as <-. exists f. split; [|done]. unfold reHash. by rewrite Hskip. }
  destruct (getTopsReverse E (numLeaves f) (height f)) as [tops topheights] eqn:Htops.
  destruct (fileDirt _ _ _ _ _ _) as [[[dirty2d rem]|e]|] eqn:Hfile;
    [|discriminate|discriminate].
  pose proof (floors_plan E (height f) dirty2d (Z.to_nat (height f)) 0 tops
                topheights [] rem) as Hplan.
  destruct (planFloors E _ 0 _ dirty2d tops topheights [] rem)
    as [[ps err]|] eqn:Hps.
  2:{ rewrite (Hplan (data f) (HistoricHashes f)) in Hrun. discriminate. }
  destruct (Hplan (data f) (HistoricHashes f)) as (hashes1 & e1 & Hfl1 & He1).
  rewrite Hfl1 in Hrun. injection Hrun as <- ->.
  assert (Herr : err = false) by (by apply He1).
  destruct (Hplan (exec E (height f) ps (data f)) hashes1)
    as (hashes2 & e2 & Hfl2 & He2).
  assert (He2' : e2 = None) by (by apply He2).
  eexists. split.
  - unfold reHash. cbn [height numLeaves data HistoricHashes positionMap].
    rewrite Hskip, Htops, Hfile, Hfl2, He2'. reflexivity.
  - cbn [data]. apply (exec_twice E (height f) Hh 0); [lia|].
    apply (planFloors_rowSorted E (height f) Hh Hmerge dirty2d) with
      (fuel := Z.to_nat (height f)) (tops := tops) (topheights := topheights)
      (currentRow := []) (rem := rem) (err := err); [|lia|lia|constructor|exact Hps].
    eapply (fileDirt_rows (height f) Hh (numLeaves f) dirt);
      [exact Hdirt|apply filedByRow_replicate|exact Hfile].
Qed.

End RehashTwice.

(** The stand-in merge invents no position. *)
Lemma mergeSortedSlices_elem a : forall b x,
  x ∈ Helper.mergeSortedSlices a b -> x ∈ a \/ x ∈ b.
Proof.
  induction a as [|y a IHa]; intros b x Hx; [by right|].
  induction b as [|z b IHb]; [by left|].
  cbn [Helper.mergeSortedSlices] in Hx.
  destruct (y <? z).
  - apply elem_of_cons in Hx as [->|Hx]; [left; apply elem_of_cons; by left|].
    apply IHa in Hx as [Hx|Hx]; [left; apply elem_of_cons; by right|by right].
  - destruct (z <? y).
    + apply elem_of_cons in Hx as [->|Hx]; [right; apply elem_of_cons; by left|].
      apply IHb in Hx as [Hx|Hx]; [by left|right; apply elem_of_cons; by right].
    + apply elem_of_cons in Hx as [->|Hx]; [left; apply elem_of_cons; by left|].
      apply IHa in Hx as [Hx|Hx];
        [left; apply elem_of_cons; by right|right; apply elem_of_cons; by right].
Qed.

Lemma reHash_twice_bottom_row_witness :
  exists f1 f2,
    reHash Helper.helpers staleForest [0] = Returns (f1, None) /\
    reHash Helper.helpers f1 [0] = Returns (f2, None) /\
    forall p, ForestData.read (data f2) p = ForestData.read (data f1) p.
Proof.
  destruct (reHash Helper.helpers staleForest [0]) as [[f1 [e|]]|] eqn:Hrun;
    [vm_compute in Hrun; discriminate| |vm_compute in Hrun; discriminate].
  assert (Hf1 : height staleForest = 2) by reflexivity.
  destruct (reHash_twice_bottom_row Helper.helpers staleForest f1 [0]
              mergeSortedSlices_elem) as (f2 & Hrun2 & Hsame).
  - rewrite Hf1. lia.
  - rewrite Hf1. constructor; [lia|constructor].
  - exact Hrun.
  - exists f1, f2. split; [reflexivity|]. split; [exact Hrun2|exact Hsame].
Defined.

(** With dirt that mixes rows the second run differs.  Positions 4 (row 1)
    and 0 are dirty, in that order: both are filed under row 1, so the
    parent of 4 and 5 is hashed before slot 4 itself is refreshed from the
    leaves 0 and 1; the second run hashes the refreshed slot 4 into slot 6. *)
Lemma reHash_twice_mixed_rows :
  exists f1 f2,
    reHash Helper.helpers staleForest [4; 0] = Returns (f1, None) /\
    reHash Helper.helpers f1 [4; 0] = Returns (f2, None) /\
    ForestData.read (data f2) 6 <> ForestData.read (data f1) 6.
Proof.
  eexists. eexists. split; [vm_compute; reflexivity|].
  split; [vm_compute; reflexivity|]. vm_compute. discriminate.
Qed.

(** ** The round trip: Add *)

Section RoundTripAdd.

Variable E : Helpers.
Import ForestData.

Lemma leafRow_length d n : length (leafRow d n) = Z.to_nat n.
Proof. unfold leafRow. by rewrite length_fmap, length_seq. Qed.

Lemma leafRow_lookup d n (i : nat) :
  (i < Z.to_nat n)%nat -> leafRow d n !! i = Some (read d (Z.of_nat i)).
Proof.
  intros Hi. unfold leafRow. rewrite list_lookup_fmap, lookup_seq_lt by done.
  reflexivity.
Qed.

Lemma leafRow_ext d d' n :
  (forall q, 0 <= q < n -> read d q = read d' q) -> leafRow d n = leafRow d' n.
Proof.
  intros Hext. apply list_eq. intros i.
  destruct (decide (i < Z.to_nat n)%nat) as [Hi|Hi].
  - rewrite !leafRow_lookup by done. f_equal. apply Hext. lia.
  - rewrite !lookup_ge_None_2; [done| |]; rewrite leafRow_length; lia.
Qed.

Lemma leafRow_snoc d n : 0 <= n -> leafRow d (n + 1) = leafRow d n ++ [read d n].
Proof.
  intros Hn. unfold leafRow. replace (Z.to_nat (n + 1)) with (S (Z.to_nat n)) by lia.
  rewrite seq_S, fmap_app. simpl. by rewrite Z2Nat.id by lia.
Qed.

Lemma leafRow_take d n m : 0 <= m <= n -> take (Z.to_nat m) (leafRow d n) = leafRow d m.
Proof.
  intros Hm. apply list_eq. intros i.
  destruct (decide (i < Z.to_nat m)%nat) as [Hi|Hi].
  - rewrite lookup_take_lt by done. rewrite !leafRow_lookup by lia. done.
  - rewrite lookup_take_ge by lia.
    rewrite lookup_ge_None_2; [done|]. rewrite leafRow_length. lia.
Qed.

(** A parent position is never a position of the bottom row. *)
Lemma up1_not_bottom p H q : 0 <= H <= 63 -> 0 <= q < 2 ^ H -> up1 p H <> q.
Proof.
  intros HH Hq Heq.
  assert (Hbit : Z.testbit (up1 p H) H = true).
  { unfold up1. rewrite shl64_one_small by lia.
    rewrite Z.lor_spec, Z.pow2_bits_true by lia. apply orb_true_r. }
  rewrite Heq in Hbit.
  destruct (Z.eq_dec q 0) as [->|Hq0]; [by rewrite Z.bits_0 in Hbit|].
  rewrite Z.bits_above_log2 in Hbit; [done|lia|]. apply Z.log2_lt_pow2; lia.
Qed.

(** The carry loop leaves the bottom row alone. *)
Lemma carry_frame nl fh tops fuel : forall h pos n d d',
  0 <= fh <= 63 ->
  carry E fuel nl fh tops h pos n d = Returns d' ->
  forall q, 0 <= q < 2 ^ fh -> read d' q = read d q.
Proof.
  induction fuel as [|fuel IH]; intros h pos n d d' Hfh Hcarry q Hq; simpl in Hcarry.
  { by injection Hcarry as <-. }
  destruct (Z.land (Z.shiftr nl h) 1 =? 1); [|by injection Hcarry as <-].
  destruct (tops !! Z.to_nat h) as [toppos|]; [|discriminate].
  rewrite (IH _ _ _ _ _ Hfh Hcarry q Hq).
  apply read_write_ne. intros ->. by apply (up1_not_bottom pos fh (up1 pos fh)).
Qed.

Lemma addOne_inversion f add f' :
  addOne E f add = Returns f' ->
  exists d',
    carry E 65 (numLeaves f) (height f)
      (fst (getTopsReverse E (numLeaves f) (height f))) 0 (numLeaves f)
      (LHash add) (write (data f) (numLeaves f) (LHash add)) = Returns d' /\
    f' = mkForest (wrap64 (numLeaves f + 1)) (height f) d'
           (<[Mini E (LHash add) := numLeaves f]> (positionMap f))
           (HistoricHashes f).
Proof.
  unfold addOne. destruct (carry _ _ _ _ _ _ _ _ _) as [d'|]; [|discriminate].
  intros [= <-]. by exists d'.
Qed.

Lemma addOne_holds f live x f' :
  holds E f live -> numLeaves f < 2 ^ height f ->
  Mini E x ∉ (Mini E <$> live) ->
  addOne E f (mkLeaf x) = Returns f' ->
  holds E f' (live ++ [x]).
Proof.
  intros (Hh & Hcap & Hnl & Hrow & Hpm) Hroom Hfresh Hadd.
  apply addOne_inversion in Hadd as (d' & Hcarry & ->). cbn [LHash] in *.
  pose proof (len_nonneg live) as Hlen.
  pose proof (Rows.pow2_le (height f) 63 ltac:(lia)) as H63.
  assert (Hw : wrap64 (numLeaves f + 1) = numLeaves f + 1).
  { apply wrap64_small. unfold uint64.
    change (2 ^ 64) with (2 ^ 63 + 2 ^ 63). lia. }
  pose proof (carry_frame _ _ _ _ _ _ _ _ _ Hh Hcarry) as Hframe.
  unfold holds. cbn [height numLeaves data positionMap]. rewrite Hw.
  split; [done|]. split; [lia|]. split; [rewrite len_app, Hnl; unfold len; simpl; lia|].
  split.
  - rewrite leafRow_snoc by lia. rewrite Hframe by lia. rewrite read_write_eq.
    f_equal. rewrite <- Hrow. apply leafRow_ext. intros q Hq.
    rewrite Hframe by lia. apply read_write_ne. lia.
  - intros i y Hy. apply lookup_app_Some in Hy as [Hy|[Hge Hy]].
    + rewrite lookup_insert_ne; [by apply Hpm|].
      intros Heq. apply Hfresh. rewrite Heq.
      apply list_elem_of_fmap_2. by apply list_elem_of_lookup_2 in Hy.
    + destruct (i - length live)%nat as [|k] eqn:Hk; [|by destruct k].
      injection Hy as <-. rewrite lookup_insert_eq. f_equal.
      rewrite Hnl. unfold len. lia.
Qed.

Lemma addv2_cons f a rest :
  addv2 E f (a :: rest) =
  match addOne E f a with
  | Panics => Panics
  | Returns f' => addv2 E f' rest
  end.
Proof. reflexivity. Qed.

Lemma addv2_holds adds : forall f live f',
  holds E f live -> numLeaves f + len adds <= 2 ^ height f ->
  NoDup (Mini E <$> (live ++ (LHash <$> adds))) ->
  addv2 E f adds = Returns f' ->
  holds E f' (live ++ (LHash <$> adds)) /\
  numLeaves f' = numLeaves f + len adds /\ height f' = height f.
Proof.
  induction adds as [|[x] adds IH]; intros f live f' Hholds Hroom Hkeys Hadd.
  { cbn [addv2] in Hadd. injection Hadd as <-. rewrite fmap_nil, app_nil_r.
    split; [done|]. unfold len; simpl. lia. }
  rewrite addv2_cons in Hadd.
  destruct (addOne E f (mkLeaf x)) as [f1|] eqn:Hone; [|discriminate].
  rewrite len_cons in Hroom. pose proof (len_nonneg adds) as Hlen.
  assert (Hkeys' : NoDup (Mini E <$> ((live ++ [x]) ++ (LHash <$> adds)))).
  { by rewrite <- app_assoc. }
  assert (Hfresh : Mini E x ∉ (Mini E <$> live)).
  { rewrite fmap_app in Hkeys. apply NoDup_app in Hkeys as (_ & Hdisj & _).
    intros Hin. apply (Hdisj _ Hin). simpl. apply elem_of_cons. by left. }
  pose proof (addOne_holds f live x f1 Hholds ltac:(lia) Hfresh Hone) as Hholds1.
  destruct (addOne_numLeaves E f (mkLeaf x) f1 Hone) as [Hnl1 Hh1].
  destruct Hholds as (Hh & Hcap & Hnl & _).
  assert (Hnl1' : numLeaves f1 = numLeaves f + 1).
  { destruct Hholds1 as (_ & _ & Hn & _). rewrite Hn, len_app, <- Hnl.
    unfold len; simpl; lia. }
  destruct (IH f1 (live ++ [x]) f' Hholds1 ltac:(rewrite Hnl1', Hh1; lia) Hkeys' Hadd)
    as (Hfinal & Hcount & Hheight).
  rewrite len_cons, fmap_cons. cbn [LHash].
  rewrite <- app_assoc in Hfinal. cbn [app] in Hfinal.
  split; [exact Hfinal|]. split; [lia|congruence].
Qed.

End RoundTripAdd.

(** ** The round trip: growth *)

Section RoundTripGrow.

Variable E : Helpers.
Import ForestData.

(** One step of growth leaves the bottom row as it was. *)
Lemma reMap_bottom_row f :
  0 <= height f <= 62 ->
  exists f1,
    reMap f (height f + 1) = (f1, None) /\ height f1 = height f + 1 /\
    forall p, 0 <= p < 2 ^ height f -> read (data f1) p = read (data f) p.
Proof.
  intros HH. eexists. split; [apply reMap_grow; lia|].
  cbn [height data set_height set_data]. split; [done|].
  intros p Hp. rewrite !shl64_one_small by lia.
  pose proof (Rows.pow2_succ (height f) ltac:(lia)) as Hsucc.
  assert (Hhalf : Z.shiftr (2 ^ (height f + 1)) 1 = 2 ^ height f).
  { rewrite Z.shiftr_div_pow2 by lia. change (2 ^ 1) with 2.
    rewrite Hsucc, Z.mul_comm. apply Z.div_mul. lia. }
  rewrite Hhalf, zeroRun_read, decide_False by lia.
  destruct (copyRows_read (height f) (Z.to_nat (height f + 1 - 1)) 1
              (resize (data f) (2 ^ (height f + 1)))) as (Hout & _);
    [lia|lia|lia|apply size_resize|].
  rewrite Rows.rowBase_1 in Hout by lia.
  replace (2 ^ (height f + 1 - 1)) with (2 ^ height f) in Hout by (f_equal; lia).
  rewrite Hout by lia. reflexivity.
Qed.

Lemma reMapTimes_frame k : forall f,
  0 <= height f -> height f + Z.of_nat k <= 63 ->
  forall p, 0 <= p < 2 ^ height f ->
    read (data (reMapTimes k f)) p = read (data f) p.
Proof.
  induction k as [|k IH]; intros f Hh Hk p Hp; [done|].
  cbn [reMapTimes]. rewrite wrap8_small by (unfold uint8; lia).
  destruct (reMap_bottom_row f ltac:(lia)) as (f1 & Hre & Hh1 & Hrow0).
  rewrite Hre. cbn [fst].
  pose proof (Rows.pow2_le (height f) (height f + 1) ltac:(lia)).
  rewrite IH; [by apply Hrow0| lia | lia | rewrite Hh1; lia].
Qed.

Lemma growLoop_holds f live (adds : list LeafTXO) f1 :
  holds E f live -> len adds < 2 ^ 63 ->
  growLoop 256 f (wrap64 (len adds)) = (f1, None) ->
  holds E f1 live /\ numLeaves f1 + len adds <= 2 ^ height f1.
Proof.
  intros (Hh & Hcap & Hnl & Hrow & Hpm) Hadds Hgrow.
  destruct (growLoop_rounds 256 f (wrap64 (len adds)))
    as (k & e & Hloop & Hknl & Hkpm & Hkh & Hmin & Hend);
    [unfold uint8; lia | lia |].
  rewrite Hloop in Hgrow. injection Hgrow as <- ->.
  pose proof (len_nonneg adds) as Ha. pose proof (len_nonneg live) as Hl.
  pose proof (Rows.pow2_le (height f) 63 ltac:(lia)) as H63.
  assert (Hn : wrap64 (numLeaves f + wrap64 (len adds)) = numLeaves f + len adds).
  { rewrite wrap64_add_wrap64. apply wrap64_small. unfold uint64.
    change (2 ^ 64) with (2 ^ 63 + 2 ^ 63). lia. }
  rewrite Hn in Hend, Hmin.
  assert (Hk63 : height f + Z.of_nat k <= 63).
  { destruct (Z.le_gt_cases (height f + Z.of_nat k) 63) as [|Hbig]; [done|].
    rewrite shl64_one_big in Hend by lia.
    specialize (Hmin (Z.of_nat k - 1) ltac:(lia)).
    pose proof (shl64_one_range (height f + (Z.of_nat k - 1))) as [? _]. lia. }
  rewrite shl64_one_small in Hend by lia.
  unfold holds. rewrite Hknl, Hkpm, Hkh.
  pose proof (Rows.pow2_le (height f) (height f + Z.of_nat k) ltac:(lia)).
  split; [|lia]. split; [lia|]. split; [lia|]. split; [done|]. split; [|done].
  rewrite <- Hrow. apply leafRow_ext. intros q Hq.
  apply reMapTimes_frame; lia.
Qed.

End RoundTripGrow.

(** ** The round trip: Remove *)

Section RoundTripRemove.

Variable E : Helpers.
Import ForestData Plan.

(** reHash writes parents only: counts, height, index and bottom row stay. *)
Lemma reHash_frame g dirt g' e :
  reHash E g dirt = Returns (g', e) ->
  numLeaves g' = numLeaves g /\ height g' = height g /\
  positionMap g' = positionMap g /\
  (0 <= height g <= 63 ->
   forall q, 0 <= q < 2 ^ height g -> read (data g') q = read (data g) q).
Proof.
  unfold reHash. destruct ((height g =? 0) || (len dirt =? 0)).
  { intros [= <- _]. done. }
  destruct (getTopsReverse E (numLeaves g) (height g)) as [tops topheights].
  destruct (fileDirt _ _ _ _ _ _) as [[[dirty2d rem]|err]|]; [|intros [= <- _]; done|done].
  pose proof (floors_plan E (height g) dirty2d (Z.to_nat (height g)) 0 tops
                topheights [] rem (data g) (HistoricHashes g)) as Hplan.
  destruct (planFloors E _ 0 _ dirty2d tops topheights [] rem) as [[ps perr]|].
  2:{ rewrite Hplan. done. }
  destruct Hplan as (hashes' & e' & Hfl & _). rewrite Hfl.
  intros [= <- _]. cbn [numLeaves height positionMap data].
  repeat split. intros Hh q Hq.
  apply (exec_frame E (height g)). intros c _.
  unfold parentOf. by apply up1_not_bottom.
Qed.

(** One swap inside the bottom row: the row changes as the list does, and
    the index still sends the key of every leaf to its position. *)
Lemma swapHash_leafRow d a b nl :
  0 <= a < nl -> 0 <= b < nl ->
  leafRow (swapHash d a b) nl = swapList (leafRow d nl) (mkArrow a b).
Proof.
  intros Ha Hb. unfold swapList. cbn [from to].
  rewrite !leafRow_lookup by lia. rewrite !Z2Nat.id by lia.
  apply list_eq. intros i.
  rewrite !list_lookup_insert. rewrite length_insert, !leafRow_length.
  destruct (decide (i < Z.to_nat nl)%nat) as [Hi|Hi].
  - rewrite !leafRow_lookup by done. rewrite read_swapHash.
    repeat case_decide; try lia; try done; f_equal; f_equal; lia.
  - rewrite !(lookup_ge_None_2 _ i) by (rewrite leafRow_length; lia).
    repeat case_decide; try lia; done.
Qed.

Lemma indexed_inj d pm nl i j :
  indexed E d pm nl -> 0 <= i < nl -> 0 <= j < nl ->
  Mini E (read d i) = Mini E (read d j) -> i = j.
Proof.
  intros Hidx Hi Hj Heq. pose proof (Hidx i Hi) as H1. pose proof (Hidx j Hj) as H2.
  rewrite Heq in H1. congruence.
Qed.

Lemma applySwap_indexed next d dirt pm s nl :
  0 <= from s < nl -> 0 <= to s < nl -> indexed E d pm nl ->
  indexed E (applySwap E next (d, dirt, pm) s).1.1
          (applySwap E next (d, dirt, pm) s).2 nl.
Proof.
  intros Ha Hb Hidx. destruct s as [a b]. cbn [from to] in *.
  unfold applySwap. cbn [from to fst snd].
  pose proof (indexed_inj d pm nl) as Hinj.
  intros i Hi. rewrite !read_swapHash, !lookup_insert.
  repeat case_decide; subst; try done; try (by apply Hidx);
    repeat match goal with
    | H : Mini E (read d ?x) = Mini E (read d ?y) |- _ =>
        apply (Hinj x y Hidx) in H; [|lia|lia]
    end; subst; try done; try congruence.
Qed.

Lemma applySwap_data next d dirt pm s :
  (applySwap E next (d, dirt, pm) s).1.1 = swapHash d (from s) (to s).
Proof. reflexivity. Qed.

Lemma applySwaps_fold next nl swaps : forall d dirt pm,
  Forall (fun s => 0 <= from s < nl /\ 0 <= to s < nl) swaps ->
  indexed E d pm nl ->
  let r := fold_left (applySwap E next) swaps (d, dirt, pm) in
  indexed E r.1.1 r.2 nl /\ leafRow r.1.1 nl = applySwaps swaps (leafRow d nl).
Proof.
  induction swaps as [|s swaps IH]; intros d dirt pm Hrange Hidx; [done|].
  apply Forall_cons in Hrange as [[Ha Hb] Hrange]. cbn [fold_left].
  pose proof (applySwap_indexed next d dirt pm s nl Ha Hb Hidx) as Hidx1.
  pose proof (applySwap_data next d dirt pm s) as Hd1.
  destruct (applySwap E next (d, dirt, pm) s) as [[d1 dirt1] pm1].
  cbn [fst snd] in Hidx1, Hd1. subst d1.
  destruct (IH _ dirt1 pm1 Hrange Hidx1) as [Hidx2 Hrow2].
  split; [exact Hidx2|]. rewrite Hrow2. unfold applySwaps. cbn [fold_left].
  f_equal. destruct s as [a b]. by apply swapHash_leafRow.
Qed.

End RoundTripRemove.

(** ** The round trip *)

Section RoundTrip.

Variable E : Helpers.
Hypothesis floorTransform_compacts : compacts E.
Import ForestData.

Lemma swapList_length {A} (l : list A) s : length (swapList l s) = length l.
Proof.
  unfold swapList. destruct (l !! Z.to_nat (from s)); [|done].
  destruct (l !! Z.to_nat (to s)); [|done]. by rewrite !length_insert.
Qed.

Lemma applySwaps_length {A} swaps : forall l : list A,
  length (applySwaps swaps l) = length l.
Proof.
  induction swaps as [|s swaps IH]; intros l; [done|].
  unfold applySwaps in *. cbn [fold_left]. by rewrite IH, swapList_length.
Qed.

Lemma removev3_unfold f dels :
  len dels <= numLeaves f -> Forall (fun dpos => dpos <= numLeaves f) dels ->
  removev3 E f dels =
  let next := wrap64 (numLeaves f - len dels) in
  let r := fold_left (applySwap E next)
             (floorTransform E dels (numLeaves f) (height f))
             (data f, [], positionMap f) in
  reHash E (mkForest next (height f) r.1.1 r.2 (HistoricHashes f)) r.1.2.
Proof.
  intros Hlen Hall. unfold removev3.
  destruct (Z.ltb_spec (numLeaves f) (len dels)) as [Hlt|Hge]; [lia|].
  destruct (List.find _ dels) as [dpos|] eqn:Hfind.
  - apply List.find_some in Hfind as [Hin Hgt]. apply Z.ltb_lt in Hgt.
    rewrite Forall_forall in Hall. apply list_elem_of_In in Hin.
    specialize (Hall _ Hin). simpl in Hall. lia.
  - cbv zeta. by destruct (fold_left _ _ _) as [[d dirt] pm].
Qed.

Lemma holds_indexed f live :
  holds E f live -> indexed E (data f) (positionMap f) (numLeaves f).
Proof.
  intros (Hh & Hcap & Hnl & Hrow & Hpm) i Hi.
  rewrite <- (Z2Nat.id i) at 2 by lia. apply Hpm.
  rewrite <- Hrow, leafRow_lookup by lia. by rewrite Z2Nat.id by lia.
Qed.

Lemma removev3_holds f live dels f' :
  holds E f live -> validDels dels (len live) ->
  removev3 E f dels = Returns (f', None) ->
  holds E f' (removePositions dels live) /\
  numLeaves f' = numLeaves f - len dels.
Proof.
  intros Hholds Hvalid Hrun. pose proof (holds_indexed f live Hholds) as Hidx.
  destruct Hholds as (Hh & Hcap & Hnl & Hrow & Hpm).
  rewrite <- Hnl in Hvalid.
  destruct (Z.lt_ge_cases (numLeaves f) (len dels)) as [Hmany|Hlen].
  { destruct (removev3_rejects E f dels (or_introl Hmany)) as [e He]. congruence. }
  assert (Hall : Forall (fun dpos => dpos <= numLeaves f) dels).
  { destruct Hvalid as [_ Hall]. eapply Forall_impl; [exact Hall|]. simpl. lia. }
  rewrite (removev3_unfold f dels Hlen Hall) in Hrun. cbv zeta in Hrun.
  destruct (floorTransform_compacts dels (numLeaves f) (height f) Hvalid)
    as [Hrange Hcompact].
  pose proof (len_nonneg dels) as Hd.
  pose proof (Rows.pow2_le (height f) 63 ltac:(lia)) as H63.
  assert (Hnext : wrap64 (numLeaves f - len dels) = numLeaves f - len dels).
  { apply wrap64_small. unfold uint64. change (2 ^ 64) with (2 ^ 63 + 2 ^ 63). lia. }
  rewrite Hnext in Hrun.
  destruct (applySwaps_fold E (numLeaves f - len dels) (numLeaves f)
              (floorTransform E dels (numLeaves f) (height f))
              (data f) [] (positionMap f) Hrange Hidx) as [Hidx' Hrow'].
  set (r := fold_left _ _ _) in *.
  apply reHash_frame in Hrun as (Hn' & Hh' & Hpm' & Hframe).
  cbn [numLeaves height positionMap data] in Hn', Hh', Hpm', Hframe.
  specialize (Hframe Hh).
  assert (Hbottom : leafRow (data f') (numLeaves f - len dels) =
                    removePositions dels live).
  { rewrite <- (Hcompact live) by (by rewrite Hnl).
    rewrite <- Hrow. rewrite <- Hrow'.
    rewrite leafRow_take by lia. apply leafRow_ext. intros q Hq. apply Hframe. lia. }
  split; [|exact Hn'].
  unfold holds. rewrite Hn', Hh', Hpm'.
  split; [done|]. split; [lia|]. split; [|split; [exact Hbottom|]].
  - rewrite <- Hbottom. unfold len in *. rewrite leafRow_length. lia.
  - intros i x Hx. rewrite <- Hbottom in Hx.
    assert (Hi : (i < Z.to_nat (numLeaves f - len dels))%nat).
    { apply lookup_lt_Some in Hx. by rewrite leafRow_length in Hx. }
    rewrite leafRow_lookup in Hx by done. injection Hx as <-.
    rewrite Hframe by lia. apply Hidx'. lia.
Qed.

Lemma replay_nil f : replay E f [] = Returns (f, None).
Proof. reflexivity. Qed.

Lemma replay_add f adds rest :
  replay E f (AddBatch adds :: rest) =
  match growLoop 256 f (wrap64 (len adds)) with
  | (f1, Some e) => Returns (f1, Some e)
  | (f1, None) =>
      match Add E f1 adds with
      | Panics => Panics
      | Returns f2 => replay E f2 rest
      end
  end.
Proof. reflexivity. Qed.

Lemma replay_remove f dels rest :
  replay E f (RemoveBatch dels :: rest) =
  match Remove E f dels with
  | Panics => Panics
  | Returns (f1, Some e) => Returns (f1, Some e)
  | Returns (f1, None) => replay E f1 rest
  end.
Proof. reflexivity. Qed.

Lemma replay_holds batches : forall f live f',
  holds E f live -> admissible E live batches ->
  replay E f batches = Returns (f', None) ->
  holds E f' (survivors live batches) /\
  numLeaves f' = numLeaves f + totalAdded batches - totalDeleted batches.
Proof.
  induction batches as [|[adds|dels] rest IH]; intros f live f' Hholds Hadm Hrun.
  - rewrite replay_nil in Hrun. injection Hrun as <-. simpl. split; [done|lia].
  - destruct Hadm as (Hlen & Hkeys & Hadm). rewrite replay_add in Hrun.
    destruct (growLoop 256 f (wrap64 (len adds))) as [f1 [e|]] eqn:Hgrow;
      [discriminate|].
    destruct (growLoop_holds E f live adds f1 Hholds Hlen Hgrow) as [Hholds1 Hroom].
    unfold Add in Hrun.
    destruct (addv2 E f1 adds) as [f2|] eqn:Hadd; [|discriminate].
    destruct (addv2_holds E adds f1 live f2 Hholds1 Hroom Hkeys Hadd)
      as (Hholds2 & Hcount & _).
    destruct (IH f2 _ f' Hholds2 Hadm Hrun) as [Hfinal Htotal].
    cbn [survivors totalAdded totalDeleted]. split; [exact Hfinal|].
    destruct Hholds as (_ & _ & Hnl & _). destruct Hholds1 as (_ & _ & Hnl1 & _).
    lia.
  - destruct Hadm as (Hvalid & Hadm). rewrite replay_remove in Hrun.
    unfold Remove in Hrun.
    destruct (removev3 E f dels) as [[f1 [e|]]|] eqn:Hrem;
      [discriminate| |discriminate].
    destruct (removev3_holds f live dels f1 Hholds Hvalid Hrem) as [Hholds1 Hcount].
    destruct (IH f1 _ f' Hholds1 Hadm Hrun) as [Hfinal Htotal].
    cbn [survivors totalAdded totalDeleted]. split; [exact Hfinal|]. lia.
Qed.

Lemma holds_NewForest : holds E NewForest [].
Proof.
  unfold holds. cbn [height numLeaves NewForest]. repeat split; try done; try lia.
Qed.

End RoundTrip.

(** C1, with the reverse-index keys kept distinct.  Batches of additions
    and deletions are replayed on the empty forest, the height being grown
    with reMap before an addition that would not fit; the deletion lists
    are valid, [floorTransform] meets its contract, and whenever leaves are
    added the keys ([Mini]) of the leaves then in the set are pairwise
    distinct.  If the replay returns without error, [numLeaves] is the
    number of leaves added minus the number deleted, and for every leaf
    still in the set the reverse index maps its key to a position below
    [numLeaves] whose slot holds that leaf's hash. *)
Theorem replay_round_trip (E : Helpers) (batches : list batch) (f : Forest)
    (Hcontract : compacts E)
    (Hadm : admissible E [] batches)
    (Hrun : replay E NewForest batches = Returns (f, None)) :
  roundTrip E batches f.
Proof.
  unfold roundTrip.
  destruct (replay_holds E Hcontract batches NewForest [] f
              (holds_NewForest E) Hadm Hrun) as [Hholds Hcount].
  split; [exact Hcount|].
  destruct Hholds as (Hh & Hcap & Hnl & Hrow & Hpm).
  intros x Hx. apply list_elem_of_lookup in Hx as [i Hi].
  exists (Z.of_nat i). pose proof (lookup_lt_Some _ _ _ Hi) as Hlt.
  split; [by apply Hpm|]. split; [rewrite Hnl; unfold len; lia|].
  rewrite <- Hrow in Hi. rewrite leafRow_lookup in Hi.
  - by injection Hi.
  - rewrite Hnl. unfold len. lia.
Qed.

(** ** The stand-in transform meets the contract *)

Section Compaction.

Context {A : Type}.
Implicit Types l pre mid post live tail : list A.

Lemma swapList_nat l (i j : nat) x y :
  l !! i = Some x -> l !! j = Some y ->
  swapList l (mkArrow (Z.of_nat i) (Z.of_nat j)) = <[j := x]> (<[i := y]> l).
Proof.
  intros Hi Hj. unfold swapList. cbn [from to]. by rewrite !Nat2Z.id, Hi, Hj.
Qed.

(** Two neighbours change places. *)
Lemma swapList_adjacent pre x y post :
  swapList (pre ++ x :: y :: post)
    (mkArrow (Z.of_nat (length pre) + 1) (Z.of_nat (length pre)))
  = pre ++ y :: x :: post.
Proof.
  replace (Z.of_nat (length pre) + 1) with (Z.of_nat (S (length pre))) by lia.
  rewrite (swapList_nat _ _ _ y x).
  - replace (S (length pre)) with (length pre + 1)%nat by lia.
    rewrite insert_app_r. cbn [insert list_insert].
    rewrite <- (Nat.add_0_r (length pre)) at 1. by rewrite insert_app_r.
  - replace (S (length pre)) with (length pre + 1)%nat by lia.
    by rewrite lookup_app_r, Nat.add_comm, Nat.add_sub by lia.
  - by rewrite list_lookup_middle.
Qed.

Lemma applySwaps_app (sw1 sw2 : list arrow) l :
  applySwaps (sw1 ++ sw2) l = applySwaps sw2 (applySwaps sw1 l).
Proof. unfold applySwaps. apply fold_left_app. Qed.

(** [bubble] carries [x] over [mid], each entry of [mid] moving one place
    down. *)
Lemma bubble_rotate mid : forall pre x post,
  applySwaps (Helper.bubble (length mid) (Z.of_nat (length pre)))
    (pre ++ x :: mid ++ post)
  = pre ++ mid ++ x :: post.
Proof.
  induction mid as [|y mid IH]; intros pre x post; [done|].
  cbn [length Helper.bubble]. unfold applySwaps. cbn [fold_left app].
  rewrite swapList_adjacent.
  replace (Z.of_nat (length pre) + 1) with (Z.of_nat (length (pre ++ [y])))
    by (rewrite length_app; simpl; lia).
  replace (pre ++ y :: x :: mid ++ post) with ((pre ++ [y]) ++ x :: mid ++ post)
    by (by rewrite <- app_assoc).
  fold (applySwaps (Helper.bubble (length mid) (Z.of_nat (length (pre ++ [y]))))
          ((pre ++ [y]) ++ x :: mid ++ post)).
  rewrite IH. by rewrite <- app_assoc.
Qed.

Lemma bubble_range count : forall d,
  Forall (fun s => d <= to s /\ to s < from s /\ from s <= d + Z.of_nat count)
    (Helper.bubble count d).
Proof.
  induction count as [|count IH]; intros d; cbn [Helper.bubble]; constructor.
  - cbn [from to]. lia.
  - eapply Forall_impl; [apply (IH (d + 1))|]. intros s. simpl. lia.
Qed.

Lemma removePositions_snoc (ds : list Z) d l :
  removePositions (ds ++ [d]) l = removePositions ds (delete (Z.to_nat d) l).
Proof. unfold removePositions. by rewrite rev_unit. Qed.

(** The swaps of [compact] stay among the first [length live] places and
    leave the survivors in front, the deleted entries behind them. *)
Lemma compact_spec (dels : list Z) : forall live tail,
  StronglySorted Z.lt dels -> Forall (fun d => 0 <= d < len live) dels ->
  Forall (fun s => 0 <= from s < len live /\ 0 <= to s < len live)
    (Helper.compact (rev dels) (len live - 1)) /\
  (length (removePositions dels live) + length dels = length live)%nat /\
  exists dead,
    applySwaps (Helper.compact (rev dels) (len live - 1)) (live ++ tail)
    = removePositions dels live ++ dead ++ tail.
Proof.
  induction dels as [|d ds IH] using rev_ind; intros live tail Hsorted Hrange.
  { cbn. split; [constructor|]. split; [lia|]. by exists []. }
  rewrite rev_unit. cbn [Helper.compact].
  apply Forall_app in Hrange as [Hds Hd]. rewrite Forall_singleton in Hd.
  assert (Hbelow : Forall (fun d' => d' < d) ds).
  { apply Forall_forall. intros d' Hd'.
    apply (StronglySorted_app_1_elem_of _ ds [d] d' d Hsorted Hd').
    by apply list_elem_of_singleton. }
  apply StronglySorted_app_1_l in Hsorted.
  unfold len in *.
  cbn beta in Hd.
  assert (Hlt : (Z.to_nat d < length live)%nat) by lia.
  destruct (lookup_lt_is_Some_2 live (Z.to_nat d) Hlt) as [x Hx].
  pose proof (take_drop_middle live (Z.to_nat d) x Hx) as Hsplit.
  set (pre := take (Z.to_nat d) live) in *.
  set (mid := drop (S (Z.to_nat d)) live) in *.
  assert (Hpre : length pre = Z.to_nat d) by (unfold pre; rewrite length_take; lia).
  assert (Hmid : length mid = Z.to_nat (Z.of_nat (length live) - 1 - d)).
  { unfold mid. rewrite length_drop. lia. }
  assert (Hdel : delete (Z.to_nat d) live = pre ++ mid).
  { rewrite <- Hsplit, <- Hpre. apply delete_middle. }
  assert (Hlen' : length (pre ++ mid) = (length live - 1)%nat).
  { rewrite length_app, Hpre, Hmid. lia. }
  destruct (IH (pre ++ mid) (x :: tail) Hsorted) as (Hrng & Hcount & dead & Hcompact).
  { rewrite Hlen'. rewrite Forall_forall in Hds, Hbelow. apply Forall_forall.
    intros d' Hd'. specialize (Hds d' Hd'). specialize (Hbelow d' Hd'). simpl in *. lia. }
  rewrite Hlen' in Hrng, Hcompact.
  replace (Z.of_nat (length live - 1) - 1) with (Z.of_nat (length live) - 1 - 1)
    in Hrng, Hcompact by lia.
  rewrite removePositions_snoc, Hdel.
  split; [|split].
  - apply Forall_app. split.
    + eapply Forall_impl; [apply bubble_range|]. intros s. simpl. lia.
    + eapply Forall_impl; [exact Hrng|]. intros s. simpl. lia.
  - rewrite length_app. simpl. lia.
  - exists (dead ++ [x]). rewrite applySwaps_app.
    rewrite <- Hmid.
    replace (live ++ tail) with (pre ++ x :: mid ++ tail)
      by (by rewrite <- Hsplit, <- app_assoc).
    replace (Helper.bubble (length mid) d)
      with (Helper.bubble (length mid) (Z.of_nat (length pre)))
      by (f_equal; lia).
    rewrite bubble_rotate.
    replace (pre ++ mid ++ x :: tail) with ((pre ++ mid) ++ x :: tail)
      by (by rewrite <- app_assoc).
    rewrite Hcompact. rewrite <- !app_assoc. done.
Qed.

End Compaction.

Lemma helpers_compacts : compacts Helper.helpers.
Proof.
  intros dels nl fh [Hsorted Hrange]. cbn [floorTransform Helper.helpers].
  unfold Helper.floorTransform. split.
  - destruct dels as [|d dels]; [constructor|].
    assert (Hnl : 0 <= nl) by (apply Forall_cons in Hrange as [? _]; lia).
    destruct (compact_spec (A := unit) (d :: dels) (replicate (Z.to_nat nl) tt) []
                Hsorted) as (Hrng & _).
    + unfold len. rewrite length_replicate, Z2Nat.id by lia. exact Hrange.
    + unfold len in Hrng. by rewrite length_replicate, Z2Nat.id in Hrng by lia.
  - intros row Hrow. subst nl.
    destruct (compact_spec dels row [] Hsorted Hrange) as (_ & Hcount & dead & Hsw).
    rewrite app_nil_r in Hsw. rewrite Hsw. rewrite app_nil_r.
    apply take_app_length'. unfold len. lia.
Qed.

(** The round trip on a run: three leaves in, the middle one out, a fourth
    in. *)
Lemma replay_round_trip_witness :
  exists f, replay Helper.helpers NewForest distinctKeys = Returns (f, None) /\
            numLeaves f = 3 /\
            roundTrip Helper.helpers distinctKeys f.
Proof.
  eexists. split; [vm_compute; reflexivity|]. split; [reflexivity|].
  apply (replay_round_trip Helper.helpers distinctKeys _ helpers_compacts).
  - cbn [admissible distinctKeys]. repeat split.
    + apply (bool_decide_unpack _). by vm_compute.
    + repeat constructor.
    + repeat constructor; vm_compute; congruence.
    + apply (bool_decide_unpack _). by vm_compute.
  - vm_compute. reflexivity.
Defined.

(** C1 as it is worded, on two leaves that share a key: the replay
    returns, both leaves are in the set, and the reverse index sends the
    key of the first to position 1, where the hash of the second is. *)
Lemma replay_shared_key_breaks_round_trip :
  exists f, replay Helper.helpers NewForest sharedKey = Returns (f, None) /\
            1 ∈ survivors [] sharedKey /\
            positionMap f !! Mini Helper.helpers 1 = Some 1 /\
            ForestData.read (data f) 1 = 2 /\
            ~ roundTrip Helper.helpers sharedKey f.
Proof.
  eexists. split; [vm_compute; reflexivity|].
  split; [apply elem_of_cons; by left|].
  split; [by vm_compute|]. split; [by vm_compute|].
  intros [_ Hall]. destruct (Hall 1) as (p & Hp & _ & Hread).
  { apply elem_of_cons. by left. }
  vm_compute in Hp. injection Hp as <-. vm_compute in Hread. discriminate.
Qed.

(** A leaf added twice and deleted once is still in the set, and its key is
    sent to the position that was deleted. *)
Lemma replay_twice_added :
  exists f, replay Helper.helpers NewForest twiceAdded = Returns (f, None) /\
            numLeaves f = 1 /\
            survivors [] twiceAdded = [2 ^ 200] /\
            positionMap f !! Mini Helper.helpers (2 ^ 200) = Some 1.
Proof.
  eexists. split; [vm_compute; reflexivity|]. repeat split; by vm_compute.
Qed.

(** ** The order of the tops *)

Section TopsOrder.

Variables leaves fh : Z.
Hypothesis Hfh : 0 <= fh.

Lemma firstLeaf_top : firstLeaf leaves fh fh = 0.
Proof.
  unfold firstLeaf. rewrite Z.land_ones by lia.
  rewrite Z.shiftr_div_pow2 by lia.
  rewrite Z.div_small; [apply Z.shiftl_0_l|].
  apply Z.mod_pos_bound. apply Rows.pow2_pos. lia.
Qed.

Lemma firstLeaf_step (h : Z) :
  0 <= h <= fh ->
  firstLeaf leaves fh (h - 1)
  = firstLeaf leaves fh h + (if Z.testbit leaves h then 2 ^ h else 0).
Proof.
  intros Hh. unfold firstLeaf.
  set (L := Z.land leaves (Z.ones (fh + 1))).
  assert (Hbit : Z.testbit leaves h = Z.testbit L h).
  { unfold L. rewrite Z.land_spec, Z.ones_spec_low by lia. by rewrite andb_true_r. }
  rewrite Hbit. replace (h - 1 + 1) with h by lia.
  set (a := Z.shiftr L h).
  assert (Hhalf : Z.shiftr L (h + 1) = Z.div2 a).
  { unfold a. rewrite Z.div2_spec, Z.shiftr_shiftr by lia. done. }
  assert (Hodd : Z.testbit L h = Z.odd a).
  { unfold a. rewrite <- Z.bit0_odd, Z.shiftr_spec by lia. f_equal. }
  rewrite Hhalf, Hodd, !Z.shiftl_mul_pow2 by lia.
  rewrite Z.pow_add_r by lia. pose proof (Z.div2_odd a) as Ha.
  destruct (Z.odd a); cbn [Z.b2z] in Ha; nia.
Qed.

Lemma setBits_succ (top : nat) :
  setBits leaves (S top)
  = setBits leaves top ++
    (if Z.testbit leaves (Z.of_nat (S top)) then [Z.of_nat (S top)] else []).
Proof.
  unfold setBits. rewrite (seq_S (S top)), fmap_app, List.filter_app.
  f_equal.
Qed.

(** The loop from row [h] down puts in front of what it was given the
    tops of the set bits [0 .. h], lowest first. *)
Lemma topsDown_ascending (h : nat) : forall position tops heights,
  Z.of_nat h <= fh -> position = firstLeaf leaves fh (Z.of_nat h) ->
  Helper.topsDown h leaves fh position tops heights
  = (((fun k => Helper.upMany (firstLeaf leaves fh k) (Z.to_nat k) fh)
        <$> setBits leaves h) ++ tops,
     setBits leaves h ++ heights).
Proof.
  induction h as [|h IH]; intros position tops heights Hle Hpos.
  - cbn [Helper.topsDown]. unfold setBits. cbn [seq fmap list_fmap List.filter].
    change (Z.of_nat 0) with 0 in *. subst position.
    by destruct (Z.testbit leaves 0).
  - cbn [Helper.topsDown]. rewrite setBits_succ.
    pose proof (firstLeaf_step (Z.of_nat (S h)) ltac:(lia)) as Hstep.
    replace (Z.of_nat (S h) - 1) with (Z.of_nat h) in Hstep by lia.
    destruct (Z.testbit leaves (Z.of_nat (S h))).
    + rewrite IH by lia. rewrite fmap_app, <- !app_assoc.
      cbn [fmap list_fmap app]. rewrite Nat2Z.id. by subst position.
    + rewrite IH by lia. by rewrite !app_nil_r.
Qed.

Lemma setBits_elem (top : nat) (h : Z) :
  h ∈ setBits leaves top -> 0 <= h <= Z.of_nat top /\ Z.testbit leaves h = true.
Proof.
  unfold setBits. intros Hin. apply list_elem_of_In, filter_In in Hin as [Hin Hbit].
  split; [|done]. apply list_elem_of_In, list_elem_of_fmap in Hin as (k & -> & Hk).
  apply elem_of_seq in Hk. lia.
Qed.

Lemma setBits_ascending (top : nat) : shortestFirst (setBits leaves top).
Proof.
  unfold shortestFirst. induction top as [|top IH].
  - unfold setBits. cbn [seq fmap list_fmap List.filter].
    destruct (Z.testbit leaves (Z.of_nat 0)); repeat constructor.
  - rewrite setBits_succ. apply StronglySorted_app. split; [|split].
    + intros a b Ha Hb. apply setBits_elem in Ha as [Ha _].
      destruct (Z.testbit leaves (Z.of_nat (S top))).
      * apply list_elem_of_singleton in Hb. lia.
      * by apply elem_of_nil in Hb.
    + exact IH.
    + destruct (Z.testbit leaves (Z.of_nat (S top))); repeat constructor.
Qed.

End TopsOrder.

(** The stand-in [Helper.getTopsReverse], for every number of leaves and
    every forest height: one top per set bit of [numLeaves] up to bit
    [height], each the root of the perfect subtree its bit stands for, with
    its row; the rows are strictly ascending.  This is a fact about the
    stand-in, not about the function forest.go calls, which is not under
    src/. *)
Theorem getTopsReverse_shortest_first (leaves fh : Z) (Hfh : 0 <= fh) :
  Helper.getTopsReverse leaves fh = topsAscending leaves fh /\
  shortestFirst (snd (Helper.getTopsReverse leaves fh)) /\
  length (fst (Helper.getTopsReverse leaves fh))
  = length (snd (Helper.getTopsReverse leaves fh)) /\
  forall h, h ∈ snd (Helper.getTopsReverse leaves fh) <->
            0 <= h <= fh /\ Z.testbit leaves h = true.
Proof.
  assert (Heq : Helper.getTopsReverse leaves fh = topsAscending leaves fh).
  { unfold Helper.getTopsReverse, topsAscending.
    rewrite (topsDown_ascending leaves fh).
    - by rewrite !app_nil_r.
    - lia.
    - rewrite Z2Nat.id by lia. symmetry. by apply firstLeaf_top. }
  split; [exact Heq|]. rewrite Heq. unfold topsAscending. cbn [fst snd].
  split; [apply setBits_ascending|]. split; [apply length_fmap|].
  intros h. split.
  - intros Hin. apply setBits_elem in Hin as [Hh Hbit]. split; [lia|done].
  - intros [Hh Hbit]. unfold setBits. apply list_elem_of_In, filter_In.
    split; [|done]. apply list_elem_of_In, list_elem_of_fmap.
    exists (Z.to_nat h). split; [lia|]. apply elem_of_seq. lia.
Qed.

Lemma getTopsReverse_shortest_first_witness :
  0 <= 3 /\
  Helper.getTopsReverse 5 3 = ([4; 12], [0; 2]) /\
  shortestFirst (snd (Helper.getTopsReverse 5 3)).
Proof.
  split; [lia|]. split; [reflexivity|].
  apply (getTopsReverse_shortest_first 5 3). lia.
Defined.

(** The stand-in on five leaves under height 3: the tops are the leaf at
    position 4 and the root at position 12 of the four leaves before it;
    entry 0 is the leaf, of row 0. *)
Lemma getTopsReverse_first_is_shortest :
  fst (Helper.getTopsReverse 5 3) !! 0%nat = Some 4 /\
  snd (Helper.getTopsReverse 5 3) = [0; 2] /\
  ~ tallestFirst (snd (Helper.getTopsReverse 5 3)).
Proof.
  split; [reflexivity|]. split; [reflexivity|].
  intros Hsorted. change (snd (Helper.getTopsReverse 5 3)) with [0; 2] in Hsorted.
  apply StronglySorted_inv in Hsorted as [_ Hall].
  apply Forall_inv in Hall. lia.
Qed.

(** The carry loop of addv2 reads entry [h] as the left sibling of the
    position it has risen to: the shortest-first lists give it that, for
    every leaf count under every height up to 6. *)
Lemma addv2_reads_left_sibling :
  forallb (fun '(leaves, fh) =>
             readsSibling (fst (Helper.getTopsReverse leaves fh)) leaves fh)
    (leafCounts 6) = true.
Proof. by vm_compute. Qed.

(** With the tops tallest first the loop reads another node: on three
    leaves under height 2, entry 0 is the root of the first two leaves, not
    leaf 2. *)
Lemma tallest_first_misreads :
  fst (Helper.getTopsTallestFirst 3 2) = [4; 2] /\
  readsSibling (fst (Helper.getTopsTallestFirst 3 2)) 3 2 = false.
Proof. split; by vm_compute. Qed.

(** Four leaves added with the tops shortest first: every node is the
    parent hash of its children.  Tallest first, the node over leaves 2 and
    3 is not. *)
Lemma fourLeaves_hashes :
  (forall pos, pos ∈ [0; 2; 4] ->
     Plan.settled Helper.helpers 2 (data fourLeaves) pos) /\
  ~ Plan.settled Helper.helpers 2 (data fourLeavesTallestFirst) 2.
Proof.
  split.
  - intros pos Hpos. repeat (apply elem_of_cons in Hpos as [->|Hpos]);
      [by vm_compute..|by apply elem_of_nil in Hpos].
  - by vm_compute.
Qed.

(** * Remove and reHash: refusals and what is left alone *)

Section RemoveEdges.

Variable E : Helpers.
Import ForestData.

(** X1. Remove refuses a request with more deletions than the forest has
    leaves, or with a position above [numLeaves]: it returns an error and
    the forest is the one it was given, storage, counters and reverse index
    included. *)
Theorem Remove_refuses_unchanged (f : Forest) (dels : list Z)
    (Hbad : numLeaves f < len dels \/
            Exists (fun dpos => numLeaves f < dpos) dels) :
  exists e, Remove E f dels = Returns (f, Some e) /\
            (numLeaves f < len dels ->
             e = ErrTooManyDels (len dels) (numLeaves f)).
Proof.
  unfold Remove, removev3.
  destruct (Z.ltb_spec (numLeaves f) (len dels)) as [Hlt|Hge].
  { eexists. split; [reflexivity|done]. }
  destruct Hbad as [Hlt|Hex]; [lia|].
  destruct (List.find _ dels) as [dpos|] eqn:Hfind.
  { eexists. split; [reflexivity|lia]. }
  exfalso. apply Exists_exists in Hex as (dpos & Hin & Hgt).
  apply list_elem_of_In in Hin.
  pose proof (List.find_none _ _ Hfind dpos Hin) as Hno. simpl in Hno.
  apply Z.ltb_ge in Hno. lia.
Qed.

(** X2. A Remove that returns without error has lowered [numLeaves] by the
    number of deletions, which was at most [numLeaves], and has left
    [height] as it was: Remove never shrinks the position space. *)
Theorem Remove_counts (f f' : Forest) (dels : list Z)
    (Hnl : uint64 (numLeaves f))
    (Hrun : Remove E f dels = Returns (f', None)) :
  len dels <= numLeaves f /\
  numLeaves f' = numLeaves f - len dels /\
  height f' = height f.
Proof.
  unfold Remove, removev3 in Hrun.
  destruct (Z.ltb_spec (numLeaves f) (len dels)) as [Hlt|Hge]; [discriminate|].
  destruct (List.find _ dels) as [dpos|]; [discriminate|].
  destruct (fold_left _ _ _) as [[d dirt] pm].
  apply reHash_frame in Hrun as (Hn & Hh & _).
  cbn [numLeaves height] in Hn, Hh. split; [done|]. split; [|done].
  rewrite Hn. apply wrap64_small. pose proof (len_nonneg dels).
  unfold uint64 in *. lia.
Qed.

(** X3. reHash writes parents only.  Whether it returns an error or not,
    [numLeaves], [height] and the reverse index are what they were, and on
    a forest of height at most 63 so is every slot of the bottom row. *)
Theorem reHash_leaves_bottom_row (g g' : Forest) (dirt : list Z) (e : option error)
    (Hh : 0 <= height g <= 63)
    (Hrun : reHash E g dirt = Returns (g', e)) :
  numLeaves g' = numLeaves g /\ height g' = height g /\
  positionMap g' = positionMap g /\
  forall q, 0 <= q < 2 ^ height g -> read (data g') q = read (data g) q.
Proof.
  apply reHash_frame in Hrun as (Hn & Hh' & Hpm & Hrow).
  repeat split; try done. by apply Hrow.
Qed.

(** A dirty list with a position above [nl] is never filed to the end. *)
Lemma fileDirt_refuses nl fh : forall dirt dirty2d h rem,
  Exists (fun pos => nl < pos) dirt ->
  fileDirt nl fh dirt dirty2d h rem = Panics \/
  exists e, fileDirt nl fh dirt dirty2d h rem = Returns (inr e).
Proof.
  induction dirt as [|pos rest IH]; intros dirty2d h rem Hex.
  { by apply Exists_nil in Hex. }
  cbn [fileDirt]. destruct (Z.ltb_spec nl pos) as [Hgt|Hle]; [eauto|].
  destruct (_ <? _); [eauto|].
  destruct (dirty2d !! _) as [row|]; [|by left].
  apply IH. apply Exists_cons in Hex as [Hhere|Hrest]; [lia|done].
Qed.

(** X4. reHash checks the whole dirty list before it writes anything: when
    some dirty position is above [numLeaves] and the call returns, the
    forest is untouched, and an error is returned unless [height] is 0, in
    which case the list is not looked at. *)
Theorem reHash_checks_dirt_first (g g' : Forest) (dirt : list Z) (e : option error)
    (Hbad : Exists (fun pos => numLeaves g < pos) dirt)
    (Hrun : reHash E g dirt = Returns (g', e)) :
  g' = g /\ (e = None <-> height g = 0).
Proof.
  unfold reHash in Hrun.
  assert (Hdirt : (len dirt =? 0) = false).
  { destruct dirt; [by apply Exists_nil in Hbad|]. by apply Z.eqb_neq. }
  rewrite Hdirt, orb_false_r in Hrun.
  destruct (Z.eqb_spec (height g) 0) as [H0|Hne].
  { injection Hrun as <- <-. by split. }
  destruct (getTopsReverse E (numLeaves g) (height g)) as [tops topheights].
  destruct (fileDirt_refuses (numLeaves g) (height g) dirt
              (replicate (Z.to_nat (height g)) []) 0 0 Hbad) as [Hp|[err Herr]].
  - by rewrite Hp in Hrun.
  - rewrite Herr in Hrun. injection Hrun as <- <-. by split.
Qed.

End RemoveEdges.

Lemma Remove_refuses_unchanged_witness :
  exists e, Remove Helper.helpers fourLeaves [0; 9] = Returns (fourLeaves, Some e).
Proof.
  destruct (Remove_refuses_unchanged Helper.helpers fourLeaves [0; 9]) as (e & He & _).
  - right. apply Exists_cons. right. apply Exists_cons. left.
    change (numLeaves fourLeaves) with 4. lia.
  - by exists e.
Defined.

Lemma Remove_counts_witness :
  exists f', Remove Helper.helpers fourLeaves [1] = Returns (f', None) /\
             numLeaves f' = numLeaves fourLeaves - len [1] /\
             height f' = height fourLeaves.
Proof.
  eexists. split; [vm_compute; reflexivity|].
  eapply proj2, (Remove_counts Helper.helpers fourLeaves).
  - change (numLeaves fourLeaves) with 4. unfold uint64. lia.
  - vm_compute. reflexivity.
Defined.

Lemma reHash_leaves_bottom_row_witness :
  exists g' e,
    reHash Helper.helpers staleForest [0] = Returns (g', e) /\
    numLeaves g' = numLeaves staleForest /\ height g' = height staleForest /\
    positionMap g' = positionMap staleForest /\
    forall q, 0 <= q < 2 ^ height staleForest ->
      ForestData.read (data g') q = ForestData.read (data staleForest) q.
Proof.
  eexists _, _. split; [vm_compute; reflexivity|].
  eapply (reHash_leaves_bottom_row Helper.helpers staleForest _ [0]).
  - change (height staleForest) with 2. lia.
  - vm_compute. reflexivity.
Defined.

Lemma reHash_checks_dirt_first_witness :
  reHash Helper.helpers fourLeaves [1; 7] =
    Returns (fourLeaves, Some (ErrDirtExceeds 7 4)) /\
  (Some (ErrDirtExceeds 7 4) = None <-> height fourLeaves = 0).
Proof.
  split; [vm_compute; reflexivity|].
  eapply proj2, (reHash_checks_dirt_first Helper.helpers fourLeaves fourLeaves [1; 7]).
  - apply Exists_cons. right. apply Exists_cons. left.
    change (numLeaves fourLeaves) with 4. lia.
  - vm_compute. reflexivity.
Defined.

(** * cleanup: what it clears and what it forgets *)

Section Cleanup.

Variable E : Helpers.
Import ForestData.

Lemma cleanup_loop_fields count : forall p f,
  numLeaves (cleanup_loop E count p f) = numLeaves f /\
  height (cleanup_loop E count p f) = height f /\
  HistoricHashes (cleanup_loop E count p f) = HistoricHashes f.
Proof.
  induction count as [|count IH]; intros p f; [done|].
  cbn [cleanup_loop]. by rewrite !(proj1 (IH _ _)), !(proj1 (proj2 (IH _ _))),
    !(proj2 (proj2 (IH _ _))).
Qed.

Lemma cleanup_loop_read count : forall p f q,
  read (data (cleanup_loop E count p f)) q =
  if decide (p <= q < p + Z.of_nat count) then empty else read (data f) q.
Proof.
  induction count as [|count IH]; intros p f q; cbn [cleanup_loop].
  - by rewrite decide_False by lia.
  - rewrite IH. cbn [data set_data set_positionMap].
    destruct (Z.eq_dec q p) as [->|Hne].
    + rewrite read_write_eq. repeat case_decide; try lia; done.
    + rewrite read_write_ne by done. repeat case_decide; try lia; done.
Qed.

Lemma cleanup_loop_submap count : forall p f,
  positionMap (cleanup_loop E count p f) ⊆ positionMap f.
Proof.
  induction count as [|count IH]; intros p f; cbn [cleanup_loop]; [done|].
  etransitivity; [apply IH|]. cbn [positionMap set_data set_positionMap].
  apply delete_subseteq.
Qed.

Lemma cleanup_loop_other count : forall p f k,
  (forall q, p <= q < p + Z.of_nat count -> Mini E (read (data f) q) <> k) ->
  positionMap (cleanup_loop E count p f) !! k = positionMap f !! k.
Proof.
  induction count as [|count IH]; intros p f k Hk; cbn [cleanup_loop]; [done|].
  rewrite IH.
  - cbn [positionMap set_data set_positionMap]. apply lookup_delete_ne.
    apply Hk. lia.
  - intros q Hq. cbn [data set_data]. rewrite read_write_ne by lia. apply Hk. lia.
Qed.

Lemma cleanup_loop_gone count : forall p f q,
  p <= q < p + Z.of_nat count ->
  positionMap (cleanup_loop E count p f) !! Mini E (read (data f) q) = None.
Proof.
  induction count as [|count IH]; intros p f q Hq; [lia|]. cbn [cleanup_loop].
  destruct (Z.eq_dec q p) as [->|Hne].
  - eapply lookup_weaken_None; [|apply cleanup_loop_submap].
    cbn [positionMap set_data set_positionMap]. apply lookup_delete_eq.
  - specialize (IH (p + 1)
      (set_data (set_positionMap f
                   (delete (Mini E (read (data f) p)) (positionMap f)))
         (write (data f) p empty)) q ltac:(lia)).
    cbn [data set_data] in IH. by rewrite read_write_ne in IH by done.
Qed.

Lemma cleanup_count f overshoot :
  0 <= numLeaves f -> 0 <= overshoot -> numLeaves f + overshoot < 2 ^ 64 ->
  cleanup E f overshoot = cleanup_loop E (Z.to_nat overshoot) (numLeaves f) f.
Proof.
  intros Hnl Ho Hfit. unfold cleanup.
  rewrite wrap64_small by (unfold uint64; lia). do 2 f_equal. lia.
Qed.

(** X5. cleanup leaves the counters alone and sets to the sentinel exactly
    the [overshoot] slots from position [numLeaves] on; every other slot
    holds the hash it held. *)
Theorem cleanup_clears_slots (f : Forest) (overshoot : Z)
    (Hnl : 0 <= numLeaves f) (Ho : 0 <= overshoot)
    (Hfit : numLeaves f + overshoot < 2 ^ 64) :
  numLeaves (cleanup E f overshoot) = numLeaves f /\
  height (cleanup E f overshoot) = height f /\
  forall q, read (data (cleanup E f overshoot)) q =
            if decide (numLeaves f <= q < numLeaves f + overshoot)
            then empty else read (data f) q.
Proof.
  rewrite cleanup_count by done.
  destruct (cleanup_loop_fields (Z.to_nat overshoot) (numLeaves f) f) as (Hn & Hh & _).
  split; [done|]. split; [done|]. intros q. rewrite cleanup_loop_read.
  repeat case_decide; try lia; done.
Qed.

(** X6. cleanup only ever takes entries out of the reverse index: the key
    of every hash found in a cleared slot is unbound afterwards, whatever
    position it was bound to, and every other key keeps its binding. *)
Theorem cleanup_forgets_keys (f : Forest) (overshoot : Z)
    (Hnl : 0 <= numLeaves f) (Ho : 0 <= overshoot)
    (Hfit : numLeaves f + overshoot < 2 ^ 64) :
  positionMap (cleanup E f overshoot) ⊆ positionMap f /\
  (forall q, numLeaves f <= q < numLeaves f + overshoot ->
     positionMap (cleanup E f overshoot) !! Mini E (read (data f) q) = None) /\
  (forall k,
     (forall q, numLeaves f <= q < numLeaves f + overshoot ->
        Mini E (read (data f) q) <> k) ->
     positionMap (cleanup E f overshoot) !! k = positionMap f !! k).
Proof.
  rewrite cleanup_count by done. split; [apply cleanup_loop_submap|]. split.
  - intros q Hq. apply cleanup_loop_gone. lia.
  - intros k Hk. apply cleanup_loop_other. intros q Hq. apply Hk. lia.
Qed.

End Cleanup.

Lemma cleanup_clears_slots_witness :
  0 <= numLeaves tallForest /\ 0 <= 3 /\ numLeaves tallForest + 3 < 2 ^ 64 /\
  ForestData.read (data (cleanup Helper.helpers tallForest 3)) 2 = empty /\
  ForestData.read (data (cleanup Helper.helpers tallForest 3)) 1 = 6.
Proof.
  assert (H1 : 0 <= numLeaves tallForest) by (simpl; lia).
  assert (H2 : 0 <= 3) by lia.
  assert (H3 : numLeaves tallForest + 3 < 2 ^ 64) by (simpl; lia).
  split; [exact H1|]. split; [exact H2|]. split; [exact H3|].
  destruct (cleanup_clears_slots Helper.helpers tallForest 3 H1 H2 H3)
    as (_ & _ & Hread).
  split; rewrite Hread; reflexivity.
Defined.

Lemma cleanup_forgets_keys_witness :
  0 <= numLeaves (set_numLeaves fourLeaves 3) /\ 0 <= 1 /\
  numLeaves (set_numLeaves fourLeaves 3) + 1 < 2 ^ 64 /\
  positionMap (cleanup Helper.helpers (set_numLeaves fourLeaves 3) 1)
    ⊆ positionMap fourLeaves.
Proof.
  assert (H1 : 0 <= numLeaves (set_numLeaves fourLeaves 3)) by (simpl; lia).
  assert (H2 : 0 <= 1) by lia.
  assert (H3 : numLeaves (set_numLeaves fourLeaves 3) + 1 < 2 ^ 64) by (simpl; lia).
  split; [exact H1|]. split; [exact H2|]. split; [exact H3|].
  exact (proj1 (cleanup_forgets_keys Helper.helpers (set_numLeaves fourLeaves 3) 1
                  H1 H2 H3)).
Defined.

(** * Add: batches, the bottom row and the reverse index *)

Section AddEffects.

Variable E : Helpers.
Import ForestData.

(** X7. Adding a batch is adding its first part and then the rest: the
    leaves of a batch are handled one after the other, and a panic in the
    first part is the panic of the whole. *)
Theorem addv2_app (f : Forest) (adds more : list LeafTXO) :
  addv2 E f (adds ++ more) =
  match addv2 E f adds with
  | Panics => Panics
  | Returns f' => addv2 E f' more
  end.
Proof.
  revert f. induction adds as [|a adds IH]; intros f; [done|].
  rewrite <- app_comm_cons, !addv2_cons.
  destruct (addOne E f a) as [f1|]; [apply IH|done].
Qed.

(** One leaf, when there is room for it under the height. *)
Lemma addOne_row f a f' :
  0 <= height f <= 63 -> 0 <= numLeaves f < 2 ^ height f ->
  addOne E f a = Returns f' ->
  numLeaves f' = numLeaves f + 1 /\ height f' = height f /\
  HistoricHashes f' = HistoricHashes f /\
  positionMap f' = <[Mini E (LHash a) := numLeaves f]> (positionMap f) /\
  forall q, 0 <= q < 2 ^ height f ->
    read (data f') q = if decide (q = numLeaves f) then LHash a else read (data f) q.
Proof.
  intros Hh Hnl Hadd. apply addOne_inversion in Hadd as (d' & Hcarry & ->).
  cbn [numLeaves height HistoricHashes positionMap data].
  pose proof (Rows.pow2_le (height f) 63 ltac:(lia)) as H63.
  split. { apply wrap64_small. unfold uint64. change (2 ^ 64) with (2 ^ 63 + 2 ^ 63). lia. }
  repeat (split; [reflexivity|]).
  intros q Hq. rewrite (carry_frame _ _ _ _ _ _ _ _ _ _ Hh Hcarry q Hq).
  apply read_write.
Qed.

Lemma addv2_rows adds : forall f f',
  0 <= height f <= 63 -> 0 <= numLeaves f ->
  numLeaves f + len adds <= 2 ^ height f ->
  addv2 E f adds = Returns f' ->
  numLeaves f' = numLeaves f + len adds /\ height f' = height f /\
  HistoricHashes f' = HistoricHashes f /\
  (forall q, 0 <= q < 2 ^ height f -> ~ (numLeaves f <= q < numLeaves f + len adds) ->
     read (data f') q = read (data f) q) /\
  (forall (i : nat) a, adds !! i = Some a ->
     read (data f') (numLeaves f + Z.of_nat i) = LHash a) /\
  (forall (i : nat) a, adds !! i = Some a ->
     (forall (j : nat) b, (i < j)%nat -> adds !! j = Some b ->
        Mini E (LHash b) <> Mini E (LHash a)) ->
     positionMap f' !! Mini E (LHash a) = Some (numLeaves f + Z.of_nat i)) /\
  (forall k, (forall a, a ∈ adds -> Mini E (LHash a) <> k) ->
     positionMap f' !! k = positionMap f !! k).
Proof.
  induction adds as [|a adds IH]; intros f f' Hh Hnl Hroom Hadd.
  { injection Hadd as <-. change (len []) with 0. rewrite Z.add_0_r.
    repeat split; try done; intros i a Hi; by rewrite lookup_nil in Hi. }
  rewrite addv2_cons in Hadd.
  destruct (addOne E f a) as [f1|] eqn:Hone; [|discriminate].
  rewrite len_cons in *. pose proof (len_nonneg adds) as Hlen.
  destruct (addOne_row f a f1 Hh ltac:(lia) Hone) as (Hn1 & Hh1 & Hhist1 & Hpm1 & Hd1).
  destruct (IH f1 f' ltac:(lia) ltac:(lia) ltac:(rewrite Hn1, Hh1; lia) Hadd)
    as (Hn & Hh' & Hhist & Hout & Hin & Hidx & Hkeep).
  rewrite Hn1, Hh1 in *.
  split; [lia|]. split; [done|]. split; [congruence|]. split; [|split; [|split]].
  - intros q Hq Hnot. rewrite Hout by lia. rewrite Hd1 by lia.
    by rewrite decide_False by lia.
  - intros [|i] b Hb.
    + injection Hb as ->. rewrite Z.add_0_r, Hout by lia.
      rewrite Hd1 by lia. by rewrite decide_True.
    + replace (numLeaves f + Z.of_nat (S i)) with (numLeaves f + 1 + Z.of_nat i) by lia.
      by apply Hin.
  - intros [|i] b Hb Hlast.
    + injection Hb as ->. rewrite Z.add_0_r, Hkeep.
      * rewrite Hpm1. apply lookup_insert_eq.
      * intros c Hc. apply list_elem_of_lookup in Hc as [j Hj].
        apply (Hlast (S j) c); [lia|done].
    + replace (numLeaves f + Z.of_nat (S i)) with (numLeaves f + 1 + Z.of_nat i) by lia.
      apply Hidx; [done|]. intros j c Hij Hc. apply (Hlast (S j) c); [lia|done].
  - intros k Hk. rewrite Hkeep.
    + rewrite Hpm1. apply lookup_insert_ne. apply Hk. apply elem_of_cons. by left.
    + intros c Hc. apply Hk. apply elem_of_cons. by right.
Qed.

(** X8. Add with room under the height: [numLeaves] grows by the number of
    leaves and [height] and the hash counter stay; the hashes go to the
    bottom row from position [numLeaves] on, in the order given, and the
    row below that is as it was; every key not among those added keeps its
    binding in the reverse index, and of the leaves of the batch that share
    a key the last one is the one indexed. *)
Theorem Add_appends_leaves (f f' : Forest) (adds : list LeafTXO)
    (Hh : 0 <= height f <= 63) (Hnl : 0 <= numLeaves f)
    (Hroom : numLeaves f + len adds <= 2 ^ height f)
    (Hrun : Add E f adds = Returns f') :
  numLeaves f' = numLeaves f + len adds /\ height f' = height f /\
  HistoricHashes f' = HistoricHashes f /\
  leafRow (data f') (numLeaves f') = leafRow (data f) (numLeaves f) ++ (LHash <$> adds) /\
  (forall (i : nat) a, adds !! i = Some a ->
     (forall (j : nat) b, (i < j)%nat -> adds !! j = Some b ->
        Mini E (LHash b) <> Mini E (LHash a)) ->
     positionMap f' !! Mini E (LHash a) = Some (numLeaves f + Z.of_nat i)) /\
  (forall k, (forall a, a ∈ adds -> Mini E (LHash a) <> k) ->
     positionMap f' !! k = positionMap f !! k).
Proof.
  destruct (addv2_rows adds f f' Hh Hnl Hroom Hrun)
    as (Hn & Hh' & Hhist & Hout & Hin & Hidx & Hkeep).
  repeat (split; [done|]). split; [|by split].
  pose proof (len_nonneg adds) as Hlen.
  apply list_eq. intros i. rewrite Hn.
  destruct (decide (i < Z.to_nat (numLeaves f))%nat) as [Hlo|Hhi].
  - rewrite lookup_app_l by (rewrite leafRow_length; lia).
    rewrite !leafRow_lookup by lia. f_equal. apply Hout; lia.
  - rewrite lookup_app_r by (rewrite leafRow_length; lia).
    rewrite leafRow_length, list_lookup_fmap.
    destruct (adds !! (i - Z.to_nat (numLeaves f))%nat) as [a|] eqn:Ha.
    + pose proof (lookup_lt_Some _ _ _ Ha) as Hlt. unfold len in *.
      rewrite leafRow_lookup by lia. cbn [fmap option_fmap option_map]. f_equal.
      rewrite <- (Hin _ _ Ha). f_equal. lia.
    + apply lookup_ge_None in Ha. unfold len in *.
      apply lookup_ge_None_2. rewrite leafRow_length. lia.
Qed.

(** The keys bound after a batch: those bound before and those of the
    batch. *)
Lemma addv2_dom adds : forall f f',
  addv2 E f adds = Returns f' ->
  dom (positionMap f') =
  dom (positionMap f) ∪ list_to_set (Mini E <$> (LHash <$> adds)).
Proof.
  induction adds as [|a adds IH]; intros f f' Hadd.
  { injection Hadd as <-. by rewrite !fmap_nil, list_to_set_nil, (right_id_L _ _). }
  rewrite addv2_cons in Hadd.
  destruct (addOne E f a) as [f1|] eqn:Hone; [|discriminate].
  apply addOne_inversion in Hone as (d' & _ & ->).
  rewrite (IH _ _ Hadd). cbn [positionMap]. rewrite dom_insert_L.
  rewrite !fmap_cons, list_to_set_cons.
  by rewrite (comm_L _ {[_]} (dom _)), <- (assoc_L _).
Qed.

End AddEffects.

Lemma Add_appends_leaves_witness :
  exists f',
    Add Helper.helpers tallForest [mkLeaf 8; mkLeaf 9] = Returns f' /\
    numLeaves f' = 4 /\
    leafRow (data f') (numLeaves f') =
      leafRow (data tallForest) (numLeaves tallForest) ++ [8; 9].
Proof.
  destruct (Add Helper.helpers tallForest [mkLeaf 8; mkLeaf 9]) as [f'|] eqn:Hrun;
    [|vm_compute in Hrun; discriminate].
  exists f'. split; [reflexivity|].
  destruct (Add_appends_leaves Helper.helpers tallForest f' [mkLeaf 8; mkLeaf 9])
    as (Hn & _ & _ & Hrow & _).
  - change (height tallForest) with 63. lia.
  - change (numLeaves tallForest) with 2. lia.
  - change (numLeaves tallForest) with 2. change (height tallForest) with 63.
    change (len [mkLeaf 8; mkLeaf 9]) with 2. lia.
  - exact Hrun.
  - split; [exact Hn|exact Hrow].
Defined.

(** * The checks: sanity and PosMapSanity *)

Section Checks.

Variable E : Helpers.

Lemma PosMapSanity_loop_spec f count : forall i,
  match PosMapSanity_loop E count i f with
  | None =>
      forall j, i <= j < i + Z.of_nat count ->
        default 0 (positionMap f !! Mini E (ForestData.read (data f) j)) = j
  | Some e =>
      exists j, e = ErrPosMap j /\ i <= j < i + Z.of_nat count /\
        default 0 (positionMap f !! Mini E (ForestData.read (data f) j)) <> j /\
        forall j', i <= j' < j ->
          default 0 (positionMap f !! Mini E (ForestData.read (data f) j')) = j'
  end.
Proof.
  induction count as [|count IH]; intros i; cbn [PosMapSanity_loop]; [intros j; lia|].
  destruct (Z.eqb_spec (default 0 (positionMap f !! Mini E (ForestData.read (data f) i))) i)
    as [Heq|Hne].
  - specialize (IH (i + 1)). destruct (PosMapSanity_loop E count (i + 1) f) as [e|].
    + destruct IH as (j & -> & Hj & Hbad & Hbefore). exists j.
      split; [done|]. split; [lia|]. split; [done|]. intros j' Hj'.
      destruct (Z.eq_dec j' i) as [->|Hne]; [done|]. apply Hbefore. lia.
    + intros j Hj. destruct (Z.eq_dec j i) as [->|Hne]; [done|]. apply IH. lia.
  - exists i. split; [done|]. split; [lia|]. split; [done|]. intros j' Hj'. lia.
Qed.

(** X9. PosMapSanity walks the bottom row upwards and reports the first
    position whose key the reverse index does not send back to it, a key
    that is not bound counting as bound to 0; it returns nil exactly when
    there is no such position below [numLeaves]. *)
Theorem PosMapSanity_first_mismatch (f : Forest) :
  match PosMapSanity E f with
  | None =>
      forall j, 0 <= j < numLeaves f ->
        default 0 (positionMap f !! Mini E (ForestData.read (data f) j)) = j
  | Some e =>
      exists j, e = ErrPosMap j /\ 0 <= j < numLeaves f /\
        default 0 (positionMap f !! Mini E (ForestData.read (data f) j)) <> j /\
        forall j', 0 <= j' < j ->
          default 0 (positionMap f !! Mini E (ForestData.read (data f) j')) = j'
  end.
Proof.
  unfold PosMapSanity.
  pose proof (PosMapSanity_loop_spec f (Z.to_nat (numLeaves f)) 0) as Hspec.
  destruct (PosMapSanity_loop E _ 0 f) as [e|].
  - destruct Hspec as (j & -> & Hj & Hbad & Hbefore). exists j.
    split; [done|]. split; [lia|]. by split.
  - intros j Hj. apply Hspec. lia.
Qed.

Lemma PosMapSanity_indexed f :
  indexed E (data f) (positionMap f) (numLeaves f) -> PosMapSanity E f = None.
Proof.
  intros Hidx. unfold PosMapSanity.
  pose proof (PosMapSanity_loop_spec f (Z.to_nat (numLeaves f)) 0) as Hspec.
  destruct (PosMapSanity_loop E _ 0 f) as [e|]; [|done].
  destruct Hspec as (j & _ & Hj & Hbad & _). exfalso. apply Hbad.
  by rewrite (Hidx j) by lia.
Qed.

(** X10. PosMapSanity does not see that the leaf at position 0 has no
    entry in the reverse index: a missing key reads as position 0, so the
    check passes as long as every other leaf is indexed. *)
Theorem PosMapSanity_misses_leaf_0 (f : Forest)
    (Hnl : 0 < numLeaves f)
    (Hmissing : positionMap f !! Mini E (ForestData.read (data f) 0) = None)
    (Hrest : forall j, 0 < j < numLeaves f ->
       positionMap f !! Mini E (ForestData.read (data f) j) = Some j) :
  PosMapSanity E f = None.
Proof.
  unfold PosMapSanity.
  pose proof (PosMapSanity_loop_spec f (Z.to_nat (numLeaves f)) 0) as Hspec.
  destruct (PosMapSanity_loop E _ 0 f) as [e|]; [|done].
  destruct Hspec as (j & _ & Hj & Hbad & _). exfalso. apply Hbad.
  destruct (Z.eq_dec j 0) as [->|Hne].
  - by rewrite Hmissing.
  - by rewrite Hrest by lia.
Qed.

(** X11. From height 64 on the capacity [1 << height] that sanity compares
    with is 0 in uint64: every forest with a leaf is reported as too low,
    whatever it holds. *)
Theorem sanity_height_64 (f : Forest)
    (Hh : 64 <= height f) (Hnl : 0 < numLeaves f) :
  sanity E f = Some (ErrInsufficientHeight (numLeaves f) (height f)).
Proof.
  unfold sanity. rewrite shl64_one_big by done.
  by destruct (Z.ltb_spec 0 (numLeaves f)); [|lia].
Qed.

(** X12. sanity returns nil exactly when [numLeaves] is at most
    [1 << height] (in uint64), none of the hashes GetTops returns is the
    sentinel, and the reverse index has at most [numLeaves] entries. *)
Theorem sanity_nil_iff (f : Forest) :
  sanity E f = None <->
  numLeaves f <= shl64 1 (height f) /\
  Forall (fun h => h <> empty) (GetTops E f) /\
  Z.of_nat (size (positionMap f)) <= numLeaves f.
Proof.
  unfold sanity, GetTops.
  destruct (Z.ltb_spec (shl64 1 (height f)) (numLeaves f)) as [Hlow|Hfits].
  { split; [discriminate|]. intros [? _]. lia. }
  destruct (List.find _ _) as [t|] eqn:Hfind.
  - split; [discriminate|]. intros (_ & Htops & _). exfalso.
    apply List.find_some in Hfind as [Hin Hempty]. apply Z.eqb_eq in Hempty.
    rewrite Forall_forall in Htops. apply (Htops (ForestData.read (data f) t)); [|done].
    apply list_elem_of_fmap_2. by apply list_elem_of_In.
  - assert (Htops : Forall (fun h => h <> empty)
                      (ForestData.read (data f) <$> (getTopsReverse E (numLeaves f) (height f)).1)).
    { apply Forall_fmap, Forall_forall. intros t Ht. cbn.
      apply list_elem_of_In in Ht.
      pose proof (List.find_none _ _ Hfind t Ht) as Hno. cbn in Hno.
      by apply Z.eqb_neq in Hno. }
    destruct (Z.ltb_spec (numLeaves f) (Z.of_nat (size (positionMap f)))) as [Hbig|Hok].
    + split; [discriminate|]. intros (_ & _ & ?). lia.
    + split; [|done]. intros _. by repeat split.
Qed.

End Checks.

Lemma PosMapSanity_misses_leaf_0_witness :
  0 < numLeaves unindexedLeaf /\ positionMap unindexedLeaf = ∅ /\
  PosMapSanity Helper.helpers unindexedLeaf = None.
Proof.
  split; [reflexivity|]. split; [reflexivity|].
  apply (PosMapSanity_misses_leaf_0 Helper.helpers unindexedLeaf).
  - reflexivity.
  - reflexivity.
  - intros j Hj. change (numLeaves unindexedLeaf) with 1 in Hj. lia.
Defined.

Lemma sanity_height_64_witness :
  64 <= height (set_height tallForest 64) /\
  0 < numLeaves (set_height tallForest 64) /\
  sanity Helper.helpers (set_height tallForest 64) = Some (ErrInsufficientHeight 2 64).
Proof.
  assert (H1 : 64 <= height (set_height tallForest 64)) by (simpl; lia).
  assert (H2 : 0 < numLeaves (set_height tallForest 64)) by (simpl; lia).
  split; [exact H1|]. split; [exact H2|].
  exact (sanity_height_64 Helper.helpers (set_height tallForest 64) H1 H2).
Defined.

(** X13. After any replay of admissible batches on the empty forest that
    returns without error, with a [floorTransform] that meets its contract,
    PosMapSanity returns nil. *)
Theorem replay_passes_PosMapSanity (E : Helpers) (batches : list batch) (f : Forest)
    (Hcontract : compacts E)
    (Hadm : admissible E [] batches)
    (Hrun : replay E NewForest batches = Returns (f, None)) :
  PosMapSanity E f = None.
Proof.
  destruct (replay_holds E Hcontract batches NewForest [] f
              (holds_NewForest E) Hadm Hrun) as [Hholds _].
  apply PosMapSanity_indexed. by apply (holds_indexed E f (survivors [] batches)).
Qed.

Lemma distinctKeys_admissible : admissible Helper.helpers [] distinctKeys.
Proof.
  cbn [admissible distinctKeys]. repeat split.
  - apply (bool_decide_unpack _). by vm_compute.
  - repeat constructor.
  - repeat constructor; vm_compute; congruence.
  - apply (bool_decide_unpack _). by vm_compute.
Qed.

Lemma replay_passes_PosMapSanity_witness :
  exists f, replay Helper.helpers NewForest distinctKeys = Returns (f, None) /\
            PosMapSanity Helper.helpers f = None.
Proof.
  destruct (replay Helper.helpers NewForest distinctKeys) as [[f [e|]]|] eqn:Hrun;
    [vm_compute in Hrun; discriminate| |vm_compute in Hrun; discriminate].
  exists f. split; [reflexivity|].
  exact (replay_passes_PosMapSanity Helper.helpers distinctKeys f helpers_compacts
           distinctKeys_admissible Hrun).
Defined.

(** * WriteForest and RestoreForest *)

Section Persist.

Variable E : Helpers.

(** A read of [n] bytes that are there. *)
Lemma fileRead_exact (pre b post : list Z) (n : nat) :
  length b = n -> (0 < n)%nat ->
  fileRead (mkFile (pre ++ b ++ post) (length pre)) n
  = (mkFile (pre ++ b ++ post) (length pre + n), inl b).
Proof.
  intros Hlen Hpos. unfold fileRead. cbn [contents offset].
  rewrite drop_app_length. destruct b as [|x b]; [simpl in Hlen; lia|].
  cbn [app]. change (x :: b ++ post) with ((x :: b) ++ post).
  rewrite take_app_length' by done. rewrite Hlen, Nat.sub_diag. cbn [replicate].
  by rewrite app_nil_r.
Qed.

Lemma written_start (fl : File) (b : list Z) :
  contents (written fl b 0) = b ++ drop (length b) (contents fl).
Proof. reflexivity. Qed.

(** The two reads of RestoreForest on a file that starts with the eight
    bytes [b8] and the byte [b1]. *)
Lemma fileRead_two (b8 b1 tl : list Z) :
  length b8 = 8%nat -> length b1 = 1%nat ->
  exists m1 m2,
    fileRead (mkFile (b8 ++ b1 ++ tl) 0) 8 = (m1, inl b8) /\
    fileRead m1 1 = (m2, inl b1).
Proof.
  intros H8 H1. eexists _, _. split.
  - apply (fileRead_exact [] b8 (b1 ++ tl) 8 H8). lia.
  - pose proof (fileRead_exact b8 b1 tl 1 H1 ltac:(lia)) as Hread.
    rewrite H8 in Hread. exact Hread.
Qed.

(** X14. What WriteForest writes, RestoreForest reads back: when the
    decoders undo the encoders on [numLeaves] and [height], in 8 bytes and
    1 byte, and the write and the diagnostic file succeed, a RestoreForest
    from the start of the written file returns without error a forest with
    the [numLeaves] and the [height] that were written, on the storage it
    was given. *)
Theorem WriteForest_RestoreForest (U64tB U8tB : Z -> list Z)
    (WriteAt : File -> list Z -> nat -> File * option error)
    (fs : FileSystem) (f g : Forest) (fl other : File)
    (Hlen8 : length (U64tB (numLeaves f)) = 8%nat)
    (Hlen1 : length (U8tB (height f)) = 1%nat)
    (Hdec64 : BtU64 E (U64tB (numLeaves f)) = numLeaves f)
    (Hdec8 : BtU8 E (U8tB (height f)) = height f)
    (Hwrite : WriteAt fl (U64tB (numLeaves f) ++ U8tB (height f)) 0%nat
              = (written fl (U64tB (numLeaves f) ++ U8tB (height f)) 0, None))
    (Hopen : openOk fs "generatedpositionmap" = true)
    (Hdiag : writeOk fs "generatedpositionmap" = true) :
  exists fl' g',
    WriteForest U64tB U8tB WriteAt f fl = (fl', None) /\
    result (RestoreForest E fs g (mkFile (contents fl') 0) other) = Returns (g', None) /\
    numLeaves g' = numLeaves f /\ height g' = height f /\ data g' = data g.
Proof.
  unfold WriteForest. rewrite Hwrite. eexists _, _. split; [reflexivity|].
  rewrite written_start, <- app_assoc.
  destruct (fileRead_two (U64tB (numLeaves f)) (U8tB (height f))
              (drop (length (U64tB (numLeaves f) ++ U8tB (height f))) (contents fl))
              Hlen8 Hlen1) as (m1 & m2 & Hr1 & Hr2).
  unfold RestoreForest. rewrite Hr1, Hopen, Hdiag. cbn [negb]. rewrite Hr2.
  cbn [result]. split; [reflexivity|].
  cbn [numLeaves height data set_height]. by rewrite Hdec64, Hdec8.
Qed.

(** X15. What the scan of RestoreForest builds: when the call returns
    without error and the leaves of the bottom row, up to the [numLeaves]
    read, have pairwise distinct keys, the reverse index sends the key of
    every one of them to its position, whatever the index held before. *)
Theorem RestoreForest_rebuilds_index (fs : FileSystem) (f f' : Forest)
    (miscForestFile forestFile : File)
    (Hrun : result (RestoreForest E fs f miscForestFile forestFile)
            = Returns (f', None))
    (Hkeys : forall i j, 0 <= i < numLeaves f' -> 0 <= j < numLeaves f' ->
       Mini E (ForestData.read (data f) i) = Mini E (ForestData.read (data f) j) ->
       i = j) :
  data f' = data f /\
  indexed E (data f') (positionMap f') (numLeaves f').
Proof.
  unfold RestoreForest in Hrun.
  destruct (fileRead miscForestFile 8) as [m1 [b8|e8]]; [|discriminate].
  destruct (openOk fs _); cbn [negb] in Hrun; [|discriminate].
  destruct (writeOk fs _); cbn [negb] in Hrun; [|discriminate].
  destruct (fileRead m1 1) as [m2 [b1|e1]]; [|discriminate].
  cbn [result] in Hrun. injection Hrun as <-.
  cbn [numLeaves data positionMap set_height] in *. split; [done|].
  intros i Hi.
  destruct (scanLeaves_leaf E (data f) (Z.to_nat (BtU64 E b8)) 0 (positionMap f) i)
    as (j' & Hlook & Hsame & Hj'); [lia|].
  rewrite Hlook. f_equal. apply Hkeys; [lia|lia|done].
Qed.

(** X16. A metadata file with one to eight bytes left is not refused at
    the first read, which fills the rest of the buffer with zeros: the
    diagnostic file succeeding, RestoreForest returns io.EOF from the read
    of the height, having already set [numLeaves] from the padded bytes and
    rebuilt the reverse index; [height] is the old one. *)
Theorem RestoreForest_short_file (fs : FileSystem) (f : Forest)
    (miscForestFile forestFile : File)
    (Hshort : (0 < length (drop (offset miscForestFile) (contents miscForestFile))
               <= 8)%nat)
    (Hopen : openOk fs "generatedpositionmap" = true)
    (Hdiag : writeOk fs "generatedpositionmap" = true) :
  let left := drop (offset miscForestFile) (contents miscForestFile) in
  let nl := BtU64 E (left ++ replicate (8 - length left) 0) in
  result (RestoreForest E fs f miscForestFile forestFile) =
    Returns (mkForest nl (height f) (data f)
               (scanLeaves E (Z.to_nat nl) 0 (data f) (positionMap f))
               (HistoricHashes f),
             Some ErrEOF).
Proof.
  cbv zeta. unfold RestoreForest, fileRead at 1.
  destruct (drop (offset miscForestFile) (contents miscForestFile))
    as [|x left] eqn:Hleft; [simpl in Hshort; lia|].
  rewrite take_ge by lia. rewrite Hopen, Hdiag. cbn [negb].
  unfold fileRead. cbn [contents offset].
  rewrite <- drop_drop, Hleft, drop_all. reflexivity.
Qed.

End Persist.

Lemma WriteForest_RestoreForest_witness :
  exists fl' g',
    WriteForest Codec.U64tB Codec.U8tB Codec.WriteAt fourLeaves (mkFile [] 0)
      = (fl', None) /\
    result (RestoreForest Helper.helpers (mkFS (fun _ => true) (fun _ => true))
              NewForest (mkFile (contents fl') 0) (mkFile [] 0))
      = Returns (g', None) /\
    numLeaves g' = numLeaves fourLeaves /\ height g' = height fourLeaves /\
    data g' = data NewForest.
Proof.
  apply (WriteForest_RestoreForest Helper.helpers Codec.U64tB Codec.U8tB Codec.WriteAt
           (mkFS (fun _ => true) (fun _ => true)) fourLeaves NewForest
           (mkFile [] 0) (mkFile [] 0)); reflexivity.
Defined.

Lemma RestoreForest_rebuilds_index_witness :
  exists f',
    result (RestoreForest Helper.helpers (mkFS (fun _ => true) (fun _ => true))
              unindexedLeaf (mkFile [0; 0; 0; 0; 0; 0; 0; 1; 0] 0) (mkFile [] 0))
      = Returns (f', None) /\
    indexed Helper.helpers (data f') (positionMap f') (numLeaves f').
Proof.
  eexists. split; [reflexivity|].
  eapply proj2, (RestoreForest_rebuilds_index Helper.helpers
                   (mkFS (fun _ => true) (fun _ => true)) unindexedLeaf _
                   (mkFile [0; 0; 0; 0; 0; 0; 0; 1; 0] 0) (mkFile [] 0)).
  - reflexivity.
  - intros i j Hi Hj _.
    match type of Hi with
    | context [numLeaves ?t] =>
        assert (Hn : numLeaves t = 1) by (vm_compute; reflexivity);
        rewrite Hn in Hi, Hj
    end.
    lia.
Defined.

Lemma RestoreForest_short_file_witness :
  result (RestoreForest Helper.helpers (mkFS (fun _ => true) (fun _ => true))
            NewForest (mkFile [0; 0; 0; 0; 0; 0; 0; 3] 0) (mkFile [] 0)) =
    Returns (mkForest 3 0 (data NewForest)
               (scanLeaves Helper.helpers 3 0 (data NewForest) ∅) 0,
             Some ErrEOF).
Proof.
  apply (RestoreForest_short_file Helper.helpers (mkFS (fun _ => true) (fun _ => true))
           NewForest (mkFile [0; 0; 0; 0; 0; 0; 0; 3] 0) (mkFile [] 0));
    [simpl; lia|reflexivity|reflexivity].
Defined.

(** * Modify: the block as a whole *)

Section ModifyErrors.

Variable E : Helpers.

(** X17. Modify with more deletions than the forest has leaves never goes
    through: it returns an error and no undo block, with [numLeaves] and
    the reverse index as they were.  The growth loop has run before the
    deletions are looked at, so the forest may come back higher: it does
    whenever the loop condition, on the wrapped difference, held at the
    start and the height was below 255. *)
Theorem Modify_too_many_dels (f : Forest) (adds : list LeafTXO) (dels : list Z)
    (Hh : uint8 (height f))
    (Hmany : numLeaves f < len dels) :
  exists f' e,
    Modify E f adds dels = Returns (f', None, Some e) /\
    numLeaves f' = numLeaves f /\ positionMap f' = positionMap f /\
    height f <= height f' /\
    (shl64 1 (height f) < wrap64 (numLeaves f + wrap64 (len adds - len dels)) ->
     height f < 255 -> height f < height f').
Proof.
  unfold Modify.
  destruct (growLoop_rounds 256 f (wrap64 (len adds - len dels)) Hh)
    as (k & e & Hloop & Hknl & Hkpm & Hkh & Hmin & Hend).
  { unfold uint8 in Hh. lia. }
  rewrite Hloop.
  assert (Hgrown : shl64 1 (height f) <
                     wrap64 (numLeaves f + wrap64 (len adds - len dels)) ->
                   height f < 255 -> height f < height (reMapTimes k f)).
  { intros Hcond Hlow. rewrite Hkh. destruct k as [|k]; [|lia].
    rewrite Z.add_0_r in Hend. destruct e; lia. }
  destruct e as [err|].
  - exists (reMapTimes k f), err. repeat split; try done. lia.
  - unfold applyBlock.
    destruct (removev3_rejects E (reMapTimes k f) dels) as [err Herr].
    { left. by rewrite Hknl. }
    rewrite Herr. exists (reMapTimes k f), err. repeat split; try done. lia.
Qed.

End ModifyErrors.

Lemma Modify_too_many_dels_witness :
  uint8 (height NewForest) /\ numLeaves NewForest < len [0] /\
  exists f' e,
    Modify Helper.helpers NewForest [] [0] = Returns (f', None, Some e) /\
    numLeaves f' = numLeaves NewForest /\ height NewForest < height f'.
Proof.
  assert (H1 : uint8 (height NewForest)) by (unfold uint8; simpl; lia).
  assert (H2 : numLeaves NewForest < len [0]) by reflexivity.
  split; [exact H1|]. split; [exact H2|].
  destruct (Modify_too_many_dels Helper.helpers NewForest [] [0] H1 H2)
    as (f' & e & Hrun & Hnl & _ & _ & Hgrown).
  exists f', e. split; [exact Hrun|]. split; [exact Hnl|].
  apply Hgrown; [reflexivity|simpl; lia].
Defined.

Section ModifyRoundTrip.

Variable E : Helpers.
Hypothesis floorTransform_compacts : compacts E.

(** A swap rearranges: the list holds what it held. *)
Lemma swapList_elem {A} (l : list A) (s : arrow) (x : A) :
  x ∈ swapList l s <-> x ∈ l.
Proof.
  unfold swapList.
  destruct (l !! Z.to_nat (from s)) as [a|] eqn:Ha; [|done].
  destruct (l !! Z.to_nat (to s)) as [b|] eqn:Hb; [|done].
  pose proof (lookup_lt_Some _ _ _ Ha) as Hi.
  pose proof (lookup_lt_Some _ _ _ Hb) as Hj.
  rewrite !list_elem_of_lookup. split; intros [k Hk].
  - rewrite !list_lookup_insert, length_insert in Hk.
    repeat case_decide; simplify_eq; eauto.
  - destruct (decide (k = Z.to_nat (from s))) as [->|Hki].
    + exists (Z.to_nat (to s)). rewrite list_lookup_insert_eq
        by (by rewrite length_insert). congruence.
    + destruct (decide (k = Z.to_nat (to s))) as [->|Hkj].
      * exists (Z.to_nat (from s)).
        rewrite list_lookup_insert_ne by done.
        rewrite list_lookup_insert_eq by done. congruence.
      * exists k. by rewrite !list_lookup_insert_ne by done.
Qed.

Lemma applySwaps_elem {A} (swaps : list arrow) : forall (l : list A) x,
  x ∈ applySwaps swaps l <-> x ∈ l.
Proof.
  induction swaps as [|s swaps IH]; intros l x; [done|].
  unfold applySwaps in *. cbn [fold_left]. by rewrite IH, swapList_elem.
Qed.

(** The swaps of a removal bind no key that was not bound. *)
Lemma applySwaps_bound next nl swaps : forall d dirt pm k,
  Forall (fun s => 0 <= from s < nl /\ 0 <= to s < nl) swaps ->
  indexed E d pm nl ->
  is_Some ((fold_left (applySwap E next) swaps (d, dirt, pm)).2 !! k) ->
  is_Some (pm !! k).
Proof.
  induction swaps as [|s swaps IH]; intros d dirt pm k Hrange Hidx Hk; [done|].
  apply Forall_cons in Hrange as [[Ha Hb] Hrange]. cbn [fold_left] in Hk.
  pose proof (applySwap_indexed E next d dirt pm s nl Ha Hb Hidx) as Hidx1.
  assert (Hpm1 : forall k', is_Some ((applySwap E next (d, dirt, pm) s).2 !! k') ->
                            is_Some (pm !! k')).
  { intros k'. unfold applySwap. cbn [snd].
    rewrite !lookup_insert, !read_swapHash.
    pose proof (Hidx (from s) Ha) as Hfrom. pose proof (Hidx (to s) Hb) as Hto.
    repeat case_decide; subst; try done; intros _; eauto. }
  destruct (applySwap E next (d, dirt, pm) s) as [[d1 dirt1] pm1].
  cbn [fst snd] in Hidx1, Hpm1. apply Hpm1. by apply (IH d1 dirt1 pm1).
Qed.

(** Remove on a forest that holds [live]: besides what [removev3_holds]
    says, the row up to the old [numLeaves] is a rearrangement of [live],
    still indexed, and no key has been bound that was not. *)
Lemma removev3_row f live dels f' :
  holds E f live -> validDels dels (len live) ->
  removev3 E f dels = Returns (f', None) ->
  height f' = height f /\
  indexed E (data f') (positionMap f') (numLeaves f) /\
  (forall x, x ∈ leafRow (data f') (numLeaves f) <-> x ∈ live) /\
  (forall k, is_Some (positionMap f' !! k) -> is_Some (positionMap f !! k)).
Proof.
  intros Hholds Hvalid Hrun. pose proof (holds_indexed E f live Hholds) as Hidx.
  destruct Hholds as (Hh & Hcap & Hnl & Hrow & Hpm).
  rewrite <- Hnl in Hvalid.
  destruct (Z.lt_ge_cases (numLeaves f) (len dels)) as [Hmany|Hlen].
  { destruct (removev3_rejects E f dels (or_introl Hmany)) as [e He]. congruence. }
  assert (Hall : Forall (fun dpos => dpos <= numLeaves f) dels).
  { destruct Hvalid as [_ Hall]. eapply Forall_impl; [exact Hall|]. simpl. lia. }
  rewrite (removev3_unfold E f dels Hlen Hall) in Hrun. cbv zeta in Hrun.
  destruct (floorTransform_compacts dels (numLeaves f) (height f) Hvalid)
    as [Hrange _].
  destruct (applySwaps_fold E (wrap64 (numLeaves f - len dels)) (numLeaves f)
              (floorTransform E dels (numLeaves f) (height f))
              (data f) [] (positionMap f) Hrange Hidx) as [Hidx' Hrow'].
  pose proof (applySwaps_bound (wrap64 (numLeaves f - len dels)) (numLeaves f)
                (floorTransform E dels (numLeaves f) (height f))
                (data f) [] (positionMap f)) as Hbound.
  set (r := fold_left _ _ _) in *.
  apply reHash_frame in Hrun as (_ & Hh' & Hpm' & Hframe).
  cbn [numLeaves height positionMap data] in Hh', Hpm', Hframe.
  specialize (Hframe Hh).
  assert (Hsame : leafRow (data f') (numLeaves f) = leafRow r.1.1 (numLeaves f)).
  { apply leafRow_ext. intros q Hq. apply Hframe. lia. }
  split; [done|]. split; [|split].
  - intros i Hi. rewrite Hpm', Hframe by lia. by apply Hidx'.
  - intros x. rewrite Hsame, Hrow', Hrow. apply applySwaps_elem.
  - intros k Hk. rewrite Hpm' in Hk. by apply Hbound.
Qed.

(** The growth loop of Modify on a forest that holds [live], for any
    [delta]: the leaves stay and the loop ends with room for the wrapped
    sum. *)
Lemma growLoop_holds_delta f live delta f1 :
  holds E f live -> growLoop 256 f delta = (f1, None) ->
  holds E f1 live /\ positionMap f1 = positionMap f /\
  wrap64 (numLeaves f + delta) <= 2 ^ height f1.
Proof.
  intros (Hh & Hcap & Hnl & Hrow & Hpm) Hgrow.
  destruct (growLoop_rounds 256 f delta)
    as (k & e & Hloop & Hknl & Hkpm & Hkh & Hmin & Hend);
    [unfold uint8; lia | lia |].
  rewrite Hloop in Hgrow. injection Hgrow as <- ->.
  pose proof (wrap64_range (numLeaves f + delta)) as [Hw0 _].
  pose proof (len_nonneg live) as Hl.
  assert (Hk63 : height f + Z.of_nat k <= 63).
  { destruct (Z.le_gt_cases (height f + Z.of_nat k) 63) as [|Hbig]; [done|].
    rewrite shl64_one_big in Hend by lia.
    specialize (Hmin (Z.of_nat k - 1) ltac:(lia)).
    pose proof (shl64_one_range (height f + (Z.of_nat k - 1))) as [? _]. lia. }
  rewrite shl64_one_small in Hend by lia.
  unfold holds. rewrite Hknl, Hkpm, Hkh.
  pose proof (Rows.pow2_le (height f) (height f + Z.of_nat k) ltac:(lia)).
  split; [|by split]. split; [lia|]. split; [lia|]. split; [done|]. split; [|done].
  rewrite <- Hrow. apply leafRow_ext. intros q Hq. apply reMapTimes_frame; lia.
Qed.

(** cleanup after a removal: the leaves that are left stay indexed, and a
    key that is still bound was bound before and is the key of no cleared
    slot. *)
Lemma cleanup_holds f live n :
  holds E f live -> 0 <= n -> numLeaves f + n <= 2 ^ height f ->
  indexed E (data f) (positionMap f) (numLeaves f + n) ->
  holds E (cleanup E f n) live /\
  (forall k, is_Some (positionMap (cleanup E f n) !! k) ->
     is_Some (positionMap f !! k) /\
     forall q, numLeaves f <= q < numLeaves f + n ->
       Mini E (ForestData.read (data f) q) <> k).
Proof.
  intros (Hh & Hcap & Hnl & Hrow & Hpm) Hn Hroom Hidx.
  pose proof (len_nonneg live) as Hl.
  pose proof (Rows.pow2_le (height f) 63 ltac:(lia)) as H63.
  rewrite cleanup_count by (try lia; change (2 ^ 64) with (2 ^ 63 + 2 ^ 63); lia).
  destruct (cleanup_loop_fields E (Z.to_nat n) (numLeaves f) f) as (Hn' & Hh' & _).
  split.
  - unfold holds. rewrite Hn', Hh'. repeat (split; [done|]). split.
    + rewrite <- Hrow. apply leafRow_ext. intros q Hq.
      rewrite cleanup_loop_read. by rewrite decide_False by lia.
    + intros i x Hx. rewrite cleanup_loop_other; [by apply Hpm|].
      intros q Hq Heq. pose proof (lookup_lt_Some _ _ _ Hx) as Hi.
      unfold len in *.
      rewrite <- Hrow, leafRow_lookup in Hx by lia. injection Hx as <-.
      apply (indexed_inj E _ _ _ q (Z.of_nat i) Hidx) in Heq; lia.
  - intros k Hk. split.
    + eapply lookup_weaken_is_Some; [exact Hk|apply cleanup_loop_submap].
    + intros q Hq Heq. subst k.
      rewrite cleanup_loop_gone in Hk by lia. by destruct Hk.
Qed.

(** X18. Modify keeps the reverse index exact.  On a forest that holds
    the leaves [live] with pairwise distinct keys and no other key bound, a
    Modify with a valid deletion list, a [floorTransform] that meets its
    contract and leaves to add whose keys are new returns, when it returns
    without error, a forest that holds the leaves left followed by the
    leaves added, again with no other key bound: [numLeaves] is the old one
    minus the deletions plus the additions, and the reverse index has
    exactly [numLeaves] entries. *)
Theorem Modify_keeps_index_exact (f f' : Forest) (live : list Hash)
    (adds : list LeafTXO) (dels : list Z) (ub : option (undoBlock E))
    (Htight : tight E f live)
    (Hdels : validDels dels (len live))
    (Hadds : len adds < 2 ^ 63)
    (Hkeys : NoDup (Mini E <$> (removePositions dels live ++ (LHash <$> adds))))
    (Hrun : Modify E f adds dels = Returns (f', ub, None)) :
  tight E f' (removePositions dels live ++ (LHash <$> adds)) /\
  numLeaves f' = numLeaves f - len dels + len adds /\
  Z.of_nat (size (positionMap f')) = numLeaves f'.
Proof.
  destruct Htight as (Hholds & Hnodup & Hexact).
  unfold Modify in Hrun.
  destruct (growLoop 256 f _) as [f1 [e|]] eqn:Hgrow; [discriminate|].
  destruct (growLoop_holds_delta f live _ f1 Hholds Hgrow) as (Hholds1 & Hpm1 & Hroom).
  unfold applyBlock in Hrun.
  destruct (removev3 E f1 dels) as [[f2 [e|]]|] eqn:Hrem;
    [discriminate| |discriminate].
  destruct (removev3_holds E floorTransform_compacts f1 live dels f2
              Hholds1 Hdels Hrem) as [Hholds2 Hn2].
  destruct (removev3_row f1 live dels f2 Hholds1 Hdels Hrem)
    as (Hh2 & Hidx2 & Hrow2 & Hbound2).
  destruct (addv2 E (cleanup E f2 (len dels)) adds) as [f4|] eqn:Hadd; [|discriminate].
  injection Hrun as <- _.
  pose proof (len_nonneg dels) as Hd. pose proof (len_nonneg adds) as Ha.
  pose proof (len_nonneg live) as Hl.
  pose proof (len_nonneg (removePositions dels live)) as Hl'.
  assert (Hnl : numLeaves f = len live) by (by destruct Hholds as (_ & _ & ? & _)).
  assert (Hnl1 : numLeaves f1 = len live) by (by destruct Hholds1 as (_ & _ & ? & _)).
  assert (Hnl2 : numLeaves f2 = len (removePositions dels live))
    by (by destruct Hholds2 as (_ & _ & ? & _)).
  assert (Hh1 : 0 <= height f1 <= 63) by (by destruct Hholds1 as (? & _)).
  assert (Hcap1 : numLeaves f1 <= 2 ^ height f1) by (by destruct Hholds1 as (_ & ? & _)).
  pose proof (Rows.pow2_le (height f1) 63 ltac:(lia)) as H63.
  assert (Hsum : numLeaves f - len dels + len adds <= 2 ^ height f1).
  { rewrite wrap64_add_wrap64 in Hroom. rewrite wrap64_small in Hroom; [lia|].
    unfold uint64. change (2 ^ 64) with (2 ^ 63 + 2 ^ 63). lia. }
  replace (numLeaves f1) with (numLeaves f2 + len dels) in Hidx2, Hrow2 by lia.
  destruct (cleanup_holds f2 (removePositions dels live) (len dels) Hholds2 Hd)
    as [Hholds3 Hbound3]; [rewrite Hh2; lia|exact Hidx2|].
  set (f3 := cleanup E f2 (len dels)) in *.
  assert (Hn3 : numLeaves f3 = numLeaves f2) by
    (destruct Hholds3 as (_ & _ & ? & _); lia).
  assert (Hh3 : height f3 = height f1).
  { unfold f3. rewrite cleanup_count
      by (try lia; change (2 ^ 64) with (2 ^ 63 + 2 ^ 63); lia).
    rewrite (proj1 (proj2 (cleanup_loop_fields E _ _ _))). done. }
  destruct (addv2_holds E adds f3 (removePositions dels live) f4 Hholds3
              ltac:(rewrite Hn3, Hh3; lia) Hkeys Hadd) as (Hholds4 & Hn4 & _).
  assert (Hexact4 : forall k, is_Some (positionMap f4 !! k) ->
            k ∈ Mini E <$> (removePositions dels live ++ (LHash <$> adds))).
  { intros k Hk. rewrite fmap_app. apply elem_of_app.
    apply elem_of_dom in Hk. rewrite (addv2_dom E adds f3 f4 Hadd) in Hk.
    apply elem_of_union in Hk as [Hk|Hk]; [left|right; by apply elem_of_list_to_set in Hk].
    apply elem_of_dom in Hk. destruct (Hbound3 k Hk) as [Hk2 Hnotdead].
    apply Hbound2 in Hk2. rewrite Hpm1 in Hk2.
    apply Hexact, list_elem_of_fmap in Hk2 as (x & -> & Hx).
    apply Hrow2, list_elem_of_lookup in Hx as [q Hq].
    pose proof (lookup_lt_Some _ _ _ Hq) as Hqlt. rewrite leafRow_length in Hqlt.
    rewrite leafRow_lookup in Hq by done. injection Hq as <-.
    destruct (Z.lt_ge_cases (Z.of_nat q) (numLeaves f2)) as [Hlow|Hhigh].
    - apply list_elem_of_fmap_2.
      destruct Hholds2 as (_ & _ & _ & <- & _).
      apply list_elem_of_lookup. exists q. apply leafRow_lookup. lia.
    - exfalso. apply (Hnotdead (Z.of_nat q)); [lia|done]. }
  split; [|split; [lia|]].
  - split; [exact Hholds4|]. split; [exact Hkeys|exact Hexact4].
  - rewrite <- (size_dom (D := gset Z)).
    assert (Hdom : dom (D := gset Z) (positionMap f4) =
              list_to_set (C := gset Z)
                (Mini E <$> (removePositions dels live ++ (LHash <$> adds)))).
    { apply set_eq. intros k. rewrite elem_of_dom, elem_of_list_to_set.
      split; [apply Hexact4|]. intros Hk.
      apply list_elem_of_fmap in Hk as (x & -> & Hx).
      apply list_elem_of_lookup in Hx as [i Hi].
      destruct Hholds4 as (_ & _ & _ & _ & Hpm4).
      exact (mk_is_Some _ _ (Hpm4 i x Hi)). }
    rewrite Hdom, size_list_to_set by exact Hkeys.
    destruct Hholds4 as (_ & _ & -> & _). unfold len. by rewrite length_fmap.
Qed.

Lemma tight_NewForest : tight E NewForest [].
Proof.
  split; [apply holds_NewForest|]. split; [constructor|].
  intros k Hk. cbn in Hk. rewrite lookup_empty in Hk. by destruct Hk.
Qed.

End ModifyRoundTrip.

Lemma Modify_keeps_index_exact_witness :
  exists f2 ub2,
    Modify Helper.helpers NewForest firstBlock []
      = Returns (afterFirstBlock, Some (3, []), None) /\
    Modify Helper.helpers afterFirstBlock secondBlock [1] = Returns (f2, ub2, None) /\
    tight Helper.helpers f2 [2 ^ 200; 2 ^ 202; 2 ^ 203] /\
    numLeaves f2 = 3 /\ Z.of_nat (size (positionMap f2)) = numLeaves f2.
Proof.
  assert (Hrun1 : Modify Helper.helpers NewForest firstBlock []
                  = Returns (afterFirstBlock, Some (3, []), None))
    by (vm_compute; reflexivity).
  destruct (Modify_keeps_index_exact Helper.helpers helpers_compacts NewForest
              afterFirstBlock [] firstBlock [] (Some (3, [])) (tight_NewForest Helper.helpers))
    as (Ht1 & Hn1 & _).
  { split; constructor. }
  { reflexivity. }
  { apply (bool_decide_unpack _). by vm_compute. }
  { exact Hrun1. }
  destruct (Modify Helper.helpers afterFirstBlock secondBlock [1])
    as [[[f2 ub2] [e|]]|] eqn:Hrun2;
    [vm_compute in Hrun2; discriminate| |vm_compute in Hrun2; discriminate].
  destruct (Modify_keeps_index_exact Helper.helpers helpers_compacts afterFirstBlock
              f2 _ secondBlock [1] ub2 Ht1) as (Ht2 & Hn2 & Hsize).
  { split; [repeat constructor|]. repeat constructor; vm_compute; congruence. }
  { reflexivity. }
  { apply (bool_decide_unpack _). by vm_compute. }
  { exact Hrun2. }
  exists f2, ub2. split; [exact Hrun1|]. split; [reflexivity|].
  split; [exact Ht2|]. split; [|exact Hsize].
  rewrite Hn2, Hn1. reflexivity.
Defined.

(** * Add builds the hash tree *)

Module Nodes.

Lemma nodePos_inRow H j y :
  0 <= j <= H -> 0 <= y < 2 ^ (H - j) -> Plan.inRow H j (nodePos H j y).
Proof.
  intros Hj Hy. unfold Plan.inRow, nodePos. rewrite Rows.rowBase_next by lia. lia.
Qed.

(** Nodes at different offsets or in different rows are at different
    positions. *)
Lemma nodePos_inj H j y j' y' :
  0 <= j <= H -> 0 <= j' <= H -> 0 <= y < 2 ^ (H - j) -> 0 <= y' < 2 ^ (H - j') ->
  nodePos H j y = nodePos H j' y' -> j = j' /\ y = y'.
Proof.
  intros Hj Hj' Hy Hy' Heq.
  pose proof (nodePos_inRow H j y Hj Hy) as Hin.
  pose proof (nodePos_inRow H j' y' Hj' Hy') as Hin'.
  rewrite Heq in Hin.
  pose proof (RowFacts.inRow_unique H j j' _ Hj Hj' Hin Hin') as ->.
  split; [done|]. unfold nodePos in Heq. lia.
Qed.

Lemma shiftr_range nl H j :
  0 <= nl < 2 ^ H -> 0 <= j <= H -> 0 <= Z.shiftr nl j < 2 ^ (H - j).
Proof.
  intros Hnl Hj. rewrite Z.shiftr_div_pow2 by lia.
  pose proof (Rows.pow2_pos j ltac:(lia)) as Hpos.
  split; [apply Z.div_pos; lia|].
  apply Z.div_lt_upper_bound; [lia|].
  rewrite <- Z.pow_add_r by lia. replace (j + (H - j)) with H by lia. lia.
Qed.

Lemma shiftr_succ nl j : 0 <= j -> Z.shiftr nl (j + 1) = Z.shiftr nl j / 2.
Proof.
  intros Hj. rewrite <- Z.shiftr_shiftr by lia.
  rewrite (Z.shiftr_div_pow2 _ 1) by lia. reflexivity.
Qed.

Lemma shiftr_odd nl j :
  0 <= j -> Z.testbit nl j = true -> Z.shiftr nl j = 2 * (Z.shiftr nl j / 2) + 1.
Proof.
  intros Hj Hbit. rewrite Z.testbit_odd in Hbit.
  pose proof (Zmod_odd (Z.shiftr nl j)) as Hmod. rewrite Hbit in Hmod.
  Z.div_mod_to_equations; lia.
Qed.

(** The parent of the node at offset [y] of row [j] is the node at offset
    [y / 2] of the row above. *)
Lemma up1_node H j y :
  0 <= H <= 63 -> 0 <= j < H -> 0 <= y < 2 ^ (H - j) ->
  up1 (nodePos H j y) H = nodePos H (j + 1) (y / 2).
Proof.
  intros HH Hj Hy. unfold nodePos.
  destruct (RowFacts.bases H j Hj) as (X & M & HX & HM & HMX & Hb0 & Hb1 & _).
  assert (Hlen : 2 ^ (H - j) = 2 * M).
  { pose proof (Rows.rowBase_next H j ltac:(lia)). lia. }
  rewrite Bits.up1_eq; [|lia|].
  - rewrite Hb0, Hb1, HX. Z.div_mod_to_equations; lia.
  - rewrite (Rows.pow2_succ H) by lia. lia.
Qed.

Lemma full_below nl j y : 0 <= j -> full nl j y -> 0 <= y < Z.shiftr nl j.
Proof.
  intros Hj [Hy Hfull]. split; [done|]. rewrite Z.shiftr_div_pow2 by lia.
  pose proof (Rows.pow2_pos j Hj) as Hpos.
  assert (y + 1 <= nl / 2 ^ j); [|lia].
  apply Z.div_le_lower_bound; lia.
Qed.

Lemma full_children nl r x :
  0 <= r -> full nl (r + 1) x -> full nl r (2 * x) /\ full nl r (2 * x + 1).
Proof.
  intros Hr [Hx Hfull]. rewrite Rows.pow2_succ in Hfull by done.
  pose proof (Rows.pow2_pos r Hr) as Hpos. unfold full. split; split; nia.
Qed.

(** The nodes that a new leaf completes are those over it in the rows
    reached by the carry. *)
Lemma full_new nl r x :
  0 <= nl -> 0 <= r -> full (nl + 1) (r + 1) x -> ~ full nl (r + 1) x ->
  (forall i, 0 <= i <= r -> Z.testbit nl i = true) /\
  Z.shiftr nl (r + 1) = x /\ Z.shiftr nl r = 2 * x + 1.
Proof.
  intros Hnl Hr [Hx Hfull] Hnot.
  assert (Heq : (x + 1) * 2 ^ (r + 1) = nl + 1).
  { unfold full in Hnot. lia. }
  pose proof (Rows.pow2_pos r Hr) as Hpos.
  rewrite Rows.pow2_succ in Heq by done.
  split; [|split].
  - intros i Hi. apply Z.testbit_true; [lia|].
    pose proof (Rows.pow2_pos i ltac:(lia)) as Hposi.
    pose proof (Rows.pow2_pos (r - i) ltac:(lia)) as Hposd.
    assert (Hsplit : 2 ^ r = 2 ^ i * 2 ^ (r - i)).
    { rewrite <- Z.pow_add_r by lia. f_equal. lia. }
    assert (Hdiv : nl / 2 ^ i = 2 * ((x + 1) * 2 ^ (r - i)) - 1).
    { symmetry. apply (Z.div_unique nl (2 ^ i) _ (2 ^ i - 1)); [lia|]. nia. }
    rewrite Hdiv. Z.div_mod_to_equations; lia.
  - rewrite Z.shiftr_div_pow2, Rows.pow2_succ by lia. symmetry.
    apply (Z.div_unique nl (2 * 2 ^ r) x (2 * 2 ^ r - 1)); [lia|nia].
  - rewrite Z.shiftr_div_pow2 by lia. symmetry.
    apply (Z.div_unique nl (2 ^ r) (2 * x + 1) (2 ^ r - 1)); [lia|nia].
Qed.

Lemma classic_full nl r x : full nl r x \/ ~ full nl r x.
Proof.
  unfold full. destruct (Z.le_gt_cases 0 x); [|right; lia].
  destruct (Z.le_gt_cases ((x + 1) * 2 ^ r) nl); [left|right]; lia.
Qed.

End Nodes.

Section AddTree.

Variable E : Helpers.
Variables nl H : Z.
Hypothesis HH : 0 <= H <= 63.
Hypothesis Hnl : 0 <= nl < 2 ^ H.
Hypothesis Htops : topsForCarry E nl H.

Lemma high_bits_clear j : H <= j -> Z.testbit nl j = false.
Proof.
  intros Hj. destruct (Z.eq_dec nl 0) as [->|Hne]; [apply Z.bits_0|].
  apply Z.bits_above_log2; [lia|].
  apply Z.lt_le_trans with H; [|done]. apply Z.log2_lt_pow2; lia.
Qed.

Lemma edge_ne j j' y :
  0 <= j <= H -> 0 <= j' <= H -> 0 <= y < 2 ^ (H - j') ->
  j <> j' \/ y <> Z.shiftr nl j -> overLeaf nl H j <> nodePos H j' y.
Proof.
  intros Hj Hj' Hy Hdiff Heq. unfold overLeaf in Heq.
  apply Nodes.nodePos_inj in Heq as [Hrow Hoff]; try done; [lia|].
  by apply Nodes.shiftr_range.
Qed.

(** The carry loop from row [h] on: it returns; it writes the nodes over
    the new leaf in the rows above [h] and nothing else; and each of those
    it reaches holds the parent hash of the two nodes below it. *)
Lemma carry_hashed fuel : forall h pos n d,
  0 <= h <= H -> H - h < Z.of_nat fuel ->
  (forall j, 0 <= j < h -> Z.testbit nl j = true) ->
  pos = overLeaf nl H h -> n = ForestData.read d pos ->
  exists d',
    carry E fuel nl H (fst (getTopsReverse E nl H)) h pos n d = Returns d' /\
    (forall q, (forall j, h < j <= H -> q <> overLeaf nl H j) ->
       ForestData.read d' q = ForestData.read d q) /\
    (forall j, h <= j < H -> (forall i, h <= i <= j -> Z.testbit nl i = true) ->
       ForestData.read d' (overLeaf nl H (j + 1)) =
       Parent E (ForestData.read d' (overLeaf nl H j - 1)) (ForestData.read d' (overLeaf nl H j))).
Proof.
  induction fuel as [|fuel IH]; intros h pos n d Hh Hfuel Hlow Hpos Hn; [lia|].
  cbn [carry]. rewrite carry_condition.
  destruct (Z.testbit nl h) eqn:Hbit.
  2:{ exists d. split; [done|]. split; [done|]. intros j Hj Hbits.
      rewrite (Hbits h) in Hbit by lia. done. }
  assert (HhH : h < H).
  { destruct (Z.lt_ge_cases h H) as [|Hge]; [done|].
    by rewrite high_bits_clear in Hbit. }
  assert (Htop : (fst (getTopsReverse E nl H)) !! Z.to_nat h = Some (overLeaf nl H h - 1)).
  { unfold overLeaf. rewrite <- (Z2Nat.id h) at 2 3 by lia. apply Htops.
    intros j Hj. destruct (Z.eq_dec j h) as [->|]; [done|]. apply Hlow. lia. }
  rewrite Htop.
  pose proof (Nodes.shiftr_range nl H h Hnl ltac:(lia)) as Hoff.
  pose proof (Nodes.shiftr_range nl H (h + 1) Hnl ltac:(lia)) as Hoff1.
  pose proof (Nodes.shiftr_odd nl h ltac:(lia) Hbit) as Hodd.
  assert (Hup : up1 pos H = overLeaf nl H (h + 1)).
  { subst pos. unfold overLeaf. rewrite Nodes.up1_node by lia.
    by rewrite Nodes.shiftr_succ by lia. }
  rewrite Hup.
  set (n' := Parent E (ForestData.read d (overLeaf nl H h - 1)) n).
  destruct (IH (h + 1) (overLeaf nl H (h + 1)) n' (ForestData.write d (overLeaf nl H (h + 1)) n'))
    as (d' & Hrun & Hout & Hin); [lia|lia| |done|by rewrite read_write_eq|].
  { intros j Hj. destruct (Z.eq_dec j h) as [->|]; [done|]. apply Hlow. lia. }
  exists d'. split; [exact Hrun|].
  assert (Hrow_h : forall y, 0 <= y < 2 ^ (H - h) ->
            ForestData.read d' (nodePos H h y) = ForestData.read d (nodePos H h y)).
  { intros y Hy. rewrite Hout.
    - apply read_write_ne. intros Heq. symmetry in Heq.
      apply edge_ne in Heq; [done|lia|lia|done|left; lia].
    - intros j Hj Heq. symmetry in Heq.
      apply edge_ne in Heq; [done|lia|lia|done|left; lia]. }
  split.
  - intros q Hq. rewrite Hout by (intros j Hj; apply Hq; lia).
    apply read_write_ne. apply Hq. lia.
  - intros j Hj Hbits. destruct (Z.eq_dec j h) as [->|Hne].
    + rewrite Hout.
      2:{ intros j Hj' Heq. unfold overLeaf in Heq.
          apply Nodes.nodePos_inj in Heq as [? _]; try lia;
            by apply Nodes.shiftr_range; lia. }
      rewrite read_write_eq. unfold n'. subst n pos. unfold overLeaf.
      replace (nodePos H h (Z.shiftr nl h) - 1)
        with (nodePos H h (Z.shiftr nl h - 1)) by (unfold nodePos; lia).
      by rewrite !Hrow_h by lia.
    + apply Hin; [lia|]. intros i Hi. apply Hbits. lia.
Qed.

(** One leaf added to a hash tree with room for it. *)
Lemma addOne_hashed f a :
  numLeaves f = nl -> height f = H -> hashed E H (data f) nl ->
  exists f', addOne E f a = Returns f' /\ hashed E H (data f') (nl + 1).
Proof.
  intros Hn Hh Htree. unfold addOne. rewrite Hn, Hh.
  assert (Hedge0 : overLeaf nl H 0 = nl).
  { unfold overLeaf, nodePos. rewrite Rows.rowBase_0, Z.shiftr_0_r by lia. lia. }
  destruct (carry_hashed 65 0 nl (LHash a)
              (ForestData.write (data f) nl (LHash a)))
    as (d' & Hrun & Hout & Hin); [lia|lia|lia|done|by rewrite read_write_eq|].
  rewrite Hrun. eexists. split; [reflexivity|]. cbn [data].
  assert (Hold : forall j y, 0 <= j <= H -> full nl j y ->
            ForestData.read d' (nodePos H j y) = ForestData.read (data f) (nodePos H j y)).
  { intros j y Hj Hfull. apply (Nodes.full_below nl j y ltac:(lia)) in Hfull.
    pose proof (Nodes.shiftr_range nl H j Hnl Hj) as Hoff.
    rewrite Hout.
    - apply read_write_ne. rewrite <- Hedge0. intros Heq. symmetry in Heq.
      apply edge_ne in Heq; [done|lia|lia|lia|].
      destruct (Z.eq_dec 0 j) as [<-|]; [right; lia|by left].
    - intros j' Hj' Heq. symmetry in Heq.
      apply edge_ne in Heq; [done|lia|lia|lia|].
      destruct (Z.eq_dec j' j) as [->|]; [right; lia|by left]. }
  intros r x Hr Hfull.
  destruct (Nodes.classic_full nl (r + 1) x) as [Hwas|Hnew].
  - destruct (Nodes.full_children nl r x ltac:(lia) Hwas) as [Hl Hrt].
    rewrite !Hold by (done || lia). by apply Htree.
  - destruct (Nodes.full_new nl r x ltac:(lia) ltac:(lia) Hfull Hnew)
      as (Hbits & Hx & Hrx).
    specialize (Hin r ltac:(lia) ltac:(intros i Hi; apply Hbits; lia)).
    unfold overLeaf in Hin. rewrite Hx, Hrx in Hin.
    replace (nodePos H r (2 * x + 1) - 1) with (nodePos H r (2 * x)) in Hin
      by (unfold nodePos; lia).
    exact Hin.
Qed.

End AddTree.

(** X19. Add builds the hash tree.  On a forest of height at most 63 with
    room for the batch, in which every full node above the bottom row
    holds the parent hash of its two children, and with lists of tops
    whose entry [h] is the left neighbour the carry loop combines with,
    Add returns (it does not panic), [numLeaves] grows by the number of
    leaves, and again every full node holds the parent hash of its
    children. *)
Theorem Add_builds_hash_tree (E : Helpers) (f : Forest) (adds : list LeafTXO)
    (Hh : 0 <= height f <= 63) (Hnl : 0 <= numLeaves f)
    (Hroom : numLeaves f + len adds <= 2 ^ height f)
    (Htops : forall n, numLeaves f <= n < numLeaves f + len adds ->
       topsForCarry E n (height f))
    (Htree : hashed E (height f) (data f) (numLeaves f)) :
  exists f',
    Add E f adds = Returns f' /\
    numLeaves f' = numLeaves f + len adds /\ height f' = height f /\
    hashed E (height f') (data f') (numLeaves f').
Proof.
  unfold Add. revert f Hh Hnl Hroom Htops Htree.
  induction adds as [|a adds IH]; intros f Hh Hnl Hroom Htops Htree.
  { exists f. change (len []) with 0. rewrite Z.add_0_r. by repeat split. }
  rewrite len_cons in *. pose proof (len_nonneg adds) as Hlen.
  destruct (addOne_hashed E (numLeaves f) (height f) Hh ltac:(lia)
              (Htops (numLeaves f) ltac:(lia)) f a eq_refl eq_refl Htree)
    as (f1 & Hone & Htree1).
  destruct (addOne_numLeaves E f a f1 Hone) as [Hn1 Hh1].
  pose proof (Rows.pow2_le (height f) 63 ltac:(lia)) as H63.
  rewrite wrap64_small in Hn1
    by (unfold uint64; change (2 ^ 64) with (2 ^ 63 + 2 ^ 63); lia).
  rewrite addv2_cons, Hone.
  destruct (IH f1) as (f' & Hrun & Hn' & Hh' & Htree').
  - by rewrite Hh1.
  - lia.
  - rewrite Hn1, Hh1. lia.
  - intros n Hn. rewrite Hh1. apply Htops. lia.
  - by rewrite Hn1, Hh1.
  - exists f'. split; [exact Hrun|]. split; [lia|]. split; [congruence|exact Htree'].
Qed.

Lemma Add_builds_hash_tree_witness :
  exists f',
    Add Helper.helpers emptyHeight2 thirdBlock = Returns f' /\
    numLeaves f' = numLeaves emptyHeight2 + len thirdBlock /\
    height f' = height emptyHeight2 /\
    hashed Helper.helpers (height f') (data f') (numLeaves f').
Proof.
  apply (Add_builds_hash_tree Helper.helpers emptyHeight2 thirdBlock).
  - unfold emptyHeight2; simpl; lia.
  - unfold emptyHeight2; simpl; lia.
  - unfold emptyHeight2, thirdBlock, len; simpl; lia.
  - intros n Hn. unfold emptyHeight2, thirdBlock, len in Hn. simpl in Hn.
    change (height emptyHeight2) with 2.
    assert (Hcases : n = 0 \/ n = 1 \/ n = 2 \/ n = 3) by lia.
    intros h Hbits.
    destruct Hcases as [-> | [-> | [-> | ->]]]; destruct h as [|[|[|h]]];
      try reflexivity;
      try (specialize (Hbits 0 ltac:(lia)); discriminate);
      try (specialize (Hbits 1 ltac:(lia)); discriminate);
      try (specialize (Hbits 2 ltac:(lia)); discriminate).
  - intros r x Hr [Hx Hfull]. change (numLeaves emptyHeight2) with 0 in Hfull.
    pose proof (Rows.pow2_pos (r + 1) ltac:(lia)). nia.
Defined.

(** * reMap keeps the hash tree *)

Section ReMapTree.

Import ForestData.

(** What a step of growth does to the rows, for heights up to 62. *)
Lemma reMap_rows f :
  0 <= height f <= 62 ->
  exists f1,
    reMap f (height f + 1) = (f1, None) /\
    height f1 = height f + 1 /\ numLeaves f1 = numLeaves f /\
    (forall p, 0 <= p < 2 ^ height f -> read (data f1) p = read (data f) p) /\
    (forall r x, 1 <= r <= height f -> 0 <= x < 2 ^ (height f - r) ->
       read (data f) (rowBase (height f) r + x) <> empty ->
       read (data f1) (rowBase (height f + 1) r + x)
       = read (data f) (rowBase (height f) r + x)).
Proof.
  intros HH. set (H := height f) in *.
  eexists. split; [apply reMap_grow; lia|]. fold H.
  cbn [height numLeaves data set_height set_data].
  split; [done|]. split; [done|].
  rewrite !shl64_one_small by lia.
  pose proof (Rows.pow2_pos H ltac:(lia)) as Hpos.
  pose proof (Rows.pow2_succ H ltac:(lia)) as Hsucc.
  assert (Hhalf : Z.shiftr (2 ^ (H + 1)) 1 = 2 ^ H).
  { rewrite Z.shiftr_div_pow2 by lia. change (2 ^ 1) with 2.
    rewrite Hsucc, Z.mul_comm. apply Z.div_mul. lia. }
  rewrite Hhalf.
  destruct (copyRows_read H (Z.to_nat (H + 1 - 1)) 1
              (resize (data f) (2 ^ (H + 1)))) as (Hout & Hin);
    [lia|lia|lia|apply size_resize|].
  rewrite Rows.rowBase_1 in Hout, Hin by lia.
  replace (2 ^ (H + 1 - 1)) with (2 ^ H) in Hout, Hin by (f_equal; lia).
  split.
  - intros p Hp. rewrite zeroRun_read, decide_False by lia.
    rewrite Hout by lia. reflexivity.
  - intros r x Hr Hx Hne.
    pose proof (Rows.rowBase_ge (H + 1) r ltac:(lia)).
    rewrite zeroRun_read, decide_False by lia.
    apply Hin; [lia|lia|exact Hne].
Qed.

(** X20. reMap keeps the hash tree.  On a forest of height [H <= 62]
    whose leaves fit under [H], in which every full node above the bottom
    row holds the parent hash of its children and is not the sentinel,
    reMap to [H + 1] succeeds and every full node, at its position under
    the new height, still holds the parent hash of its children. *)
Theorem reMap_keeps_hash_tree (E : Helpers) (f : Forest)
    (Hh : 0 <= height f <= 62)
    (Hnl : 0 <= numLeaves f <= 2 ^ height f)
    (Hfilled : forall r x, 1 <= r <= height f -> full (numLeaves f) r x ->
       read (data f) (nodePos (height f) r x) <> empty)
    (Htree : hashed E (height f) (data f) (numLeaves f)) :
  exists f',
    reMap f (height f + 1) = (f', None) /\
    hashed E (height f') (data f') (numLeaves f').
Proof.
  destruct (reMap_rows f Hh) as (f1 & Hre & Hh1 & Hn1 & Hrow0 & Hrows).
  exists f1. split; [exact Hre|]. rewrite Hh1, Hn1.
  set (H := height f) in *. set (nl := numLeaves f) in *.
  pose proof (Rows.pow2_pos H ltac:(lia)) as HposH.
  assert (Hoff : forall r x, 0 <= r <= H -> full nl r x -> 0 <= x < 2 ^ (H - r)).
  { intros r x Hr [Hx Hfull]. split; [done|].
    pose proof (Rows.pow2_pos r ltac:(lia)) as Hpr.
    assert (Hsplit : 2 ^ H = 2 ^ r * 2 ^ (H - r)).
    { rewrite <- Z.pow_add_r by lia. f_equal. lia. }
    nia. }
  assert (Hmoved : forall r x, 0 <= r <= H -> full nl r x ->
            read (data f1) (nodePos (H + 1) r x) = read (data f) (nodePos H r x)).
  { intros r x Hr Hfull. pose proof (Hoff r x Hr Hfull) as Hx.
    destruct (Z.eq_dec r 0) as [->|Hr0].
    - unfold nodePos. rewrite !Rows.rowBase_0 by lia. apply Hrow0.
      rewrite Z.sub_0_r in Hx. lia.
    - unfold nodePos. apply Hrows; [lia|lia|]. by apply (Hfilled r x); [lia|]. }
  intros r x Hr Hfull.
  destruct (Z.eq_dec r H) as [->|HrH].
  { exfalso. destruct Hfull as [Hx Hfull].
    rewrite Rows.pow2_succ in Hfull by lia. nia. }
  destruct (Nodes.full_children nl r x ltac:(lia) Hfull) as [Hl Hrt].
  rewrite !Hmoved by (done || lia). apply Htree; [lia|done].
Qed.

End ReMapTree.

Lemma fourLeaves_tree :
  hashed Helper.helpers (height fourLeaves) (data fourLeaves) (numLeaves fourLeaves) /\
  forall r x, 1 <= r <= height fourLeaves -> full (numLeaves fourLeaves) r x ->
    ForestData.read (data fourLeaves) (nodePos (height fourLeaves) r x) <> empty.
Proof.
  change (height fourLeaves) with 2. change (numLeaves fourLeaves) with 4.
  split.
  - intros r x Hr [Hx Hfull].
    assert (Hrs : r = 0 \/ r = 1) by lia.
    destruct Hrs as [-> | ->]; cbn in Hfull.
    + assert (Hxs : x = 0 \/ x = 1) by lia.
      destruct Hxs as [-> | ->]; vm_compute; reflexivity.
    + assert (x = 0) as -> by lia. vm_compute. reflexivity.
  - intros r x Hr [Hx Hfull].
    assert (Hrs : r = 1 \/ r = 2) by lia.
    destruct Hrs as [-> | ->]; cbn in Hfull.
    + assert (Hxs : x = 0 \/ x = 1) by lia.
      destruct Hxs as [-> | ->]; vm_compute; discriminate.
    + assert (x = 0) as -> by lia. vm_compute. discriminate.
Qed.

Lemma reMap_keeps_hash_tree_witness :
  exists f',
    reMap fourLeaves (height fourLeaves + 1) = (f', None) /\
    hashed Helper.helpers (height f') (data f') (numLeaves f').
Proof.
  apply (reMap_keeps_hash_tree Helper.helpers fourLeaves).
  - change (height fourLeaves) with 2. lia.
  - change (height fourLeaves) with 2. change (numLeaves fourLeaves) with 4. lia.
  - apply fourLeaves_tree.
  - apply fourLeaves_tree.
Defined.

(** * Modify against Add and Remove *)

Section ModifyComposes.

Variable E : Helpers.

Lemma Forest_eta f :
  mkForest (numLeaves f) (height f) (data f) (positionMap f) (HistoricHashes f) = f.
Proof. by destruct f. Qed.

Lemma cleanup_0 f : uint64 (numLeaves f) -> cleanup E f 0 = f.
Proof.
  intros Hnl. unfold cleanup. rewrite Z.add_0_r, wrap64_small by done.
  by rewrite Z.sub_diag.
Qed.

(** X21. Modify without deletions is the growth loop followed by Add:
    when [floorTransform] has no swaps for an empty deletion list, a
    Modify with additions only ends as the replay of that one batch does,
    with the same forest and the same error, or the same panic. *)
Theorem Modify_without_dels (f : Forest) (adds : list LeafTXO)
    (Hh : uint8 (height f)) (Hnl : uint64 (numLeaves f))
    (Hswaps : forall h, floorTransform E [] (numLeaves f) h = []) :
  replay E f [AddBatch adds] =
  match Modify E f adds [] with
  | Panics => Panics
  | Returns (f', _, e) => Returns (f', e)
  end.
Proof.
  rewrite replay_add. unfold Modify. change (len []) with 0. rewrite Z.sub_0_r.
  destruct (growLoop_rounds 256 f (wrap64 (len adds)) Hh)
    as (k & e & Hloop & Hknl & _).
  { unfold uint8 in Hh. lia. }
  rewrite Hloop. destruct e as [err|]; [done|].
  set (f1 := reMapTimes k f) in *.
  unfold applyBlock, removev3. rewrite Hknl.
  change (len []) with 0. cbn [List.find].
  destruct (Z.ltb_spec (numLeaves f) 0) as [Hneg|_]; [unfold uint64 in Hnl; lia|].
  rewrite Hswaps. cbn [fold_left]. rewrite Z.sub_0_r, wrap64_small by done.
  rewrite <- Hknl, Forest_eta.
  unfold reHash. change (len []) with 0. rewrite Z.eqb_refl, orb_true_r.
  rewrite cleanup_0 by (by rewrite Hknl).
  unfold Add. by destruct (addv2 E f1 adds).
Qed.

(** X22. Modify without additions is Remove followed by cleanup, with no
    growth: on a forest of height at most 63 whose leaves fit under it, and
    with at most [numLeaves] deletions, the growth loop does not run, an
    error of Remove is handed back with the forest Remove left, and
    otherwise the slots of the deleted leaves are cleared and their keys
    taken out of the reverse index. *)
Theorem Modify_without_adds (f : Forest) (dels : list Z)
    (Hh : 0 <= height f <= 63)
    (Hnl : 0 <= numLeaves f <= 2 ^ height f)
    (Hdels : len dels <= numLeaves f) :
  Modify E f [] dels =
  match Remove E f dels with
  | Panics => Panics
  | Returns (f2, Some e) => Returns (f2, None, Some e)
  | Returns (f2, None) =>
      Returns (cleanup E f2 (len dels),
               Some (BuildUndoData E (cleanup E f2 (len dels)) 0 dels), None)
  end.
Proof.
  unfold Modify. change (len []) with 0.
  pose proof (len_nonneg dels) as Hd.
  pose proof (Rows.pow2_le (height f) 63 ltac:(lia)) as H63.
  assert (Hfits : growLoop 256 f (wrap64 (0 - len dels)) = (f, None)).
  { cbn [growLoop]. rewrite wrap64_add_wrap64, shl64_one_small by lia.
    rewrite wrap64_small
      by (unfold uint64; change (2 ^ 64) with (2 ^ 63 + 2 ^ 63); lia).
    by destruct (Z.ltb_spec (2 ^ height f) (numLeaves f + (0 - len dels))); [lia|]. }
  rewrite Hfits. unfold applyBlock, Remove.
  destruct (removev3 E f dels) as [[f2 [e|]]|]; done.
Qed.

End ModifyComposes.

Lemma Modify_without_dels_witness :
  replay Helper.helpers NewForest [AddBatch firstBlock] =
  match Modify Helper.helpers NewForest firstBlock [] with
  | Panics => Panics
  | Returns (f', _, e) => Returns (f', e)
  end.
Proof.
  apply (Modify_without_dels Helper.helpers NewForest firstBlock).
  - unfold uint8. simpl. lia.
  - unfold uint64. simpl. lia.
  - intros h. reflexivity.
Defined.

Lemma Modify_without_adds_witness :
  0 <= height fourLeaves <= 63 /\
  Modify Helper.helpers fourLeaves [] [1] =
  match Remove Helper.helpers fourLeaves [1] with
  | Panics => Panics
  | Returns (f2, Some e) => Returns (f2, None, Some e)
  | Returns (f2, None) =>
      Returns (cleanup Helper.helpers f2 (len [1]),
               Some (BuildUndoData Helper.helpers
                       (cleanup Helper.helpers f2 (len [1])) 0 [1]), None)
  end.
Proof.
  assert (H1 : 0 <= height fourLeaves <= 63) by (change (height fourLeaves) with 2; lia).
  split; [exact H1|].
  apply (Modify_without_adds Helper.helpers fourLeaves [1] H1).
  - change (height fourLeaves) with 2. change (numLeaves fourLeaves) with 4. lia.
  - change (numLeaves fourLeaves) with 4. change (len [1]) with 1. lia.
Defined.

(** * Remove keeps the hash tree *)

Section SwapsEffect.

Variable E : Helpers.
Import ForestData.

(** The swaps of a removal, [next] being the number of leaves left: slots
    outside the old bottom row are not touched, no sentinel comes into the
    row, and a slot below [next] that is not in the dirt holds what it
    held. *)
Lemma applySwaps_effect next nl swaps : forall d dirt pm,
  Forall (fun s => (0 <= from s < nl /\ 0 <= to s < nl) /\
                   (from s < next -> to s < next)) swaps ->
  let r := fold_left (applySwap E next) swaps (d, dirt, pm) in
  (forall q, ~ (0 <= q < nl) -> read r.1.1 q = read d q) /\
  ((forall q, 0 <= q < nl -> read d q <> empty) ->
   forall q, 0 <= q < nl -> read r.1.1 q <> empty) /\
  (forall q, q < next -> q ∉ (r.1.2) -> (q ∉ dirt) /\ read r.1.1 q = read d q) /\
  (forall p, p ∈ (r.1.2) -> p ∈ dirt \/ 0 <= p < next).
Proof.
  induction swaps as [|s swaps IH]; intros d dirt pm Hswaps; cbv zeta.
  { cbn [fold_left fst snd]. repeat split; try done. by left. }
  apply Forall_cons in Hswaps as [[[Hf Ht] Hdirt] Hswaps]. cbn [fold_left].
  set (d1 := swapHash d (from s) (to s)).
  set (dirt1 := if to s <? next then
                  if from s <? next then dirt ++ [to s] ++ [from s]
                  else dirt ++ [to s]
                else dirt).
  assert (Hstep : exists pm1, applySwap E next (d, dirt, pm) s = (d1, dirt1, pm1))
    by (eexists; reflexivity).
  destruct Hstep as [pm1 ->].
  destruct (IH d1 dirt1 pm1 Hswaps) as (Hout & Hfull & Hclean & Hin).
  split; [|split; [|split]].
  - intros q Hq. rewrite Hout by done. unfold d1. rewrite read_swapHash.
    repeat case_decide; subst; try lia; done.
  - intros Hne q Hq. apply Hfull; [|done]. intros q' Hq'. unfold d1.
    rewrite read_swapHash. repeat case_decide; by apply Hne.
  - intros q Hq Hnot. destruct (Hclean q Hq Hnot) as [Hnot1 Hread].
    unfold dirt1 in Hnot1.
    destruct (Z.ltb_spec (to s) next) as [Hto|Hto];
      [destruct (Z.ltb_spec (from s) next) as [Hfrom|Hfrom]|].
    + rewrite !not_elem_of_app, !list_elem_of_singleton in Hnot1.
      destruct Hnot1 as (Hd & Hq1 & Hq2). split; [done|].
      rewrite Hread. unfold d1. rewrite read_swapHash.
      by rewrite !decide_False by done.
    + rewrite !not_elem_of_app, !list_elem_of_singleton in Hnot1.
      destruct Hnot1 as (Hd & Hq1). split; [done|].
      rewrite Hread. unfold d1. rewrite read_swapHash.
      by rewrite !decide_False by (done || lia).
    + split; [done|]. rewrite Hread. unfold d1. rewrite read_swapHash.
      by rewrite !decide_False by lia.
  - intros p Hp. destruct (Hin p Hp) as [Hp1|Hp1]; [|by right].
    unfold dirt1 in Hp1.
    destruct (Z.ltb_spec (to s) next) as [Hto|Hto];
      [destruct (Z.ltb_spec (from s) next) as [Hfrom|Hfrom]|];
      rewrite ?elem_of_app, ?list_elem_of_singleton in Hp1;
      destruct_or?; subst; (by left) || (right; lia).
Qed.

End SwapsEffect.

Section RehashCovers.

Variable E : Helpers.
Variables nl H : Z.
Hypothesis HH : 0 <= H <= 63.
Hypothesis Hnl : 0 <= nl <= 2 ^ H.
Hypothesis mergeSortedSlices_spec :
  forall a b x, x ∈ mergeSortedSlices E a b <-> x ∈ a \/ x ∈ b.

Import ForestData Plan.

Lemma full_offset r x : 0 <= r <= H -> full nl r x -> 0 <= x < 2 ^ (H - r).
Proof.
  intros Hr [Hx Hfull]. split; [done|].
  pose proof (Rows.pow2_pos r ltac:(lia)) as Hpr.
  assert (Hsplit : 2 ^ H = 2 ^ r * 2 ^ (H - r)).
  { rewrite <- Z.pow_add_r by lia. f_equal. lia. }
  nia.
Qed.

(** The two children of a full node: their row, their parent, and which
    is left and which is right. *)
Lemma children_of_full r x c :
  0 <= r < H -> full nl (r + 1) x ->
  c = nodePos H r (2 * x) \/ c = nodePos H r (2 * x + 1) ->
  inRow H r c /\ parentOf H c = nodePos H (r + 1) x /\
  leftOf c = nodePos H r (2 * x) /\ rightOf c = nodePos H r (2 * x + 1).
Proof.
  intros Hr Hfull Hc.
  pose proof (full_offset (r + 1) x ltac:(lia) Hfull) as Hx.
  assert (Hlen : 2 ^ (H - r) = 2 * 2 ^ (H - (r + 1))).
  { replace (H - r) with (H - (r + 1) + 1) by lia. apply Rows.pow2_succ. lia. }
  assert (Hin : inRow H r c).
  { destruct Hc as [-> | ->]; apply Nodes.nodePos_inRow; lia. }
  destruct (RowFacts.children_parent H r c HH Hr Hin) as (Hl & Hrt & Hp & _).
  destruct (RowFacts.bases H r Hr) as (X & M & HX & HM & HMX & Hb0 & Hb1 & _).
  split; [done|]. rewrite Hl, Hrt, Hp. unfold nodePos in *. rewrite Hb0, Hb1, HX in *.
  destruct Hc as [-> | ->]; repeat split; Z.div_mod_to_equations; lia.
Qed.

Lemma childOfFull_row c :
  childOfFull nl H c -> exists r, 0 <= r < H /\ inRow H r c.
Proof.
  intros (r & x & Hr & Hfull & Hc). exists r. split; [done|].
  by destruct (children_of_full r x c Hr Hfull Hc).
Qed.

(** The right neighbour named by [Z.lor c 1] is a child of the same node. *)
Lemma childOfFull_sibling c :
  childOfFull nl H c ->
  childOfFull nl H (Z.lor c 1) /\ parentOf H (Z.lor c 1) = parentOf H c.
Proof.
  intros (r & x & Hr & Hfull & Hc).
  destruct (children_of_full r x c Hr Hfull Hc) as (_ & Hp & _ & Hrt).
  unfold rightOf in Hrt. rewrite Hrt. split.
  - exists r, x. split; [done|]. split; [done|]. by right.
  - rewrite Hp. by destruct (children_of_full r x (nodePos H r (2 * x + 1))
                               Hr Hfull (or_intror eq_refl)) as (_ & ? & _).
Qed.

(** One row: a position that has a parent in the forest is hashed, itself
    or through its neighbour, when no top is such a position. *)
Lemma planRow_covers tops :
  Forall (fun t => ~ childOfFull nl H t) tops ->
  forall row ps c,
    planRow tops row = (ps, false) -> c ∈ row -> childOfFull nl H c ->
    exists c', c' ∈ ps /\ parentOf H c' = parentOf H c.
Proof.
  intros Htops. induction row as [|pos rest IH]; intros ps c Hplan Hc Hchild.
  { by apply elem_of_nil in Hc. }
  cbn [planRow] in Hplan.
  destruct (match rest with [] => false | next :: _ => Z.lor pos 1 =? next end)
    eqn:Hsib.
  { apply elem_of_cons in Hc as [->|Hc]; [|by apply IH].
    destruct rest as [|next rest']; [discriminate|]. apply Z.eqb_eq in Hsib.
    destruct (childOfFull_sibling pos Hchild) as [Hchild' Hsame].
    rewrite <- Hsame. rewrite Hsib in *.
    apply IH; [done|apply elem_of_cons; by left|done]. }
  destruct tops as [|top0 tops']; [by injection Hplan|].
  apply Forall_cons in Htops as [Htop0 Htops'].
  destruct (Z.eqb_spec pos top0) as [->|Hne].
  { apply elem_of_cons in Hc as [->|Hc]; [done|by apply IH]. }
  destruct (planRow (top0 :: tops') rest) as [ps' err'] eqn:Hrest.
  injection Hplan as <- ->.
  apply elem_of_cons in Hc as [->|Hc].
  - exists pos. split; [apply elem_of_cons; by left|done].
  - destruct (IH ps' c eq_refl Hc Hchild) as (c' & Hc' & Hsame).
    exists c'. split; [apply elem_of_cons; by right|done].
Qed.

Lemma not_childOfFull_top_row c : inRow H H c -> ~ childOfFull nl H c.
Proof.
  intros Hin Hchild. apply childOfFull_row in Hchild as (r & Hr & Hin').
  pose proof (RowFacts.inRow_unique H r H c ltac:(lia) ltac:(lia) Hin' Hin). lia.
Qed.

(** All floors: every position given to a floor that has a parent in the
    forest is hashed, itself or through its neighbour, and so is the
    parent of every hashed position that has one. *)
Lemma planFloors_covers dirty2d :
  filedByRow H dirty2d ->
  forall fuel h tops topheights currentRow rem ps,
    0 <= h -> h + Z.of_nat fuel = H -> Forall (inRow H h) currentRow ->
    Forall (fun t => ~ childOfFull nl H t) tops ->
    planFloors E fuel h H dirty2d tops topheights currentRow rem = Some (ps, false) ->
    (forall c, childOfFull nl H c ->
       c ∈ currentRow \/ (exists row, dirty2d !! Z.to_nat h = Some row /\ c ∈ row) ->
       exists c', c' ∈ ps /\ parentOf H c' = parentOf H c) /\
    (forall c, c ∈ ps -> childOfFull nl H (parentOf H c) ->
       exists c', c' ∈ ps /\ parentOf H c' = parentOf H (parentOf H c)).
Proof.
  intros Hfiled.
  induction fuel as [|fuel IH];
    intros h tops topheights currentRow rem ps Hh Hfuel Hcur Htops Hplan.
  { assert (h = H) as -> by lia. cbn [planFloors] in Hplan. injection Hplan as <-.
    split; [|intros c Hc; by apply elem_of_nil in Hc].
    intros c Hchild Hc. exfalso. apply (not_childOfFull_top_row c); [|done].
    destruct Hc as [Hc|(row & Hrow & Hc)].
    - rewrite Forall_forall in Hcur. by apply Hcur.
    - apply Hfiled in Hrow. rewrite Z2Nat.id in Hrow by lia.
      rewrite Forall_forall in Hrow. by apply Hrow. }
  cbn [planFloors] in Hplan.
  destruct (dirty2d !! Z.to_nat h) as [dirty|] eqn:Hdirty; [|discriminate].
  pose proof (Hfiled _ _ Hdirty) as Hdrow. rewrite Z2Nat.id in Hdrow by lia.
  set (row := mergeSortedSlices E currentRow dirty) in *.
  assert (Hrow : Forall (inRow H h) row).
  { apply Forall_forall. intros x Hx.
    apply mergeSortedSlices_spec in Hx as [Hx|Hx];
      [rewrite Forall_forall in Hcur | rewrite Forall_forall in Hdrow]; auto. }
  assert (Hin_row : forall c,
            c ∈ currentRow \/ (exists row', Some dirty = Some row' /\ c ∈ row') ->
            c ∈ row).
  { intros c [Hc|(row' & [= <-] & Hc)]; apply mergeSortedSlices_spec; auto. }
  destruct ((rem - len dirty =? 0) && (len row =? 0)) eqn:Hbreak.
  { injection Hplan as <-. split; [|intros c Hc; by apply elem_of_nil in Hc].
    intros c _ Hc. apply Hin_row in Hc.
    apply andb_true_iff in Hbreak as [_ Hempty]. apply Z.eqb_eq in Hempty.
    destruct row; [by apply elem_of_nil in Hc|]. unfold len in Hempty. simpl in Hempty. lia. }
  pose proof (planRow_sub tops row) as Hsub.
  pose proof (planRow_covers tops Htops row) as Hcover.
  destruct (planRow tops row) as [ps0 err0]. cbn [fst] in Hsub.
  assert (Hps0 : Forall (inRow H h) ps0).
  { apply Forall_forall. intros x Hx. rewrite Forall_forall in Hrow. auto. }
  destruct err0; [discriminate|].
  destruct topheights as [|th ths]; [discriminate|].
  pose proof (parents_next_row H HH h ps0 ltac:(lia) Hps0) as Hnext.
  assert (Hrest : exists tops' ths' ps',
            Forall (fun t => ~ childOfFull nl H t) tops' /\
            planFloors E fuel (h + 1) H dirty2d tops' ths' (map (parentOf H) ps0)
              (rem - len dirty) = Some (ps', false) /\ ps = ps0 ++ ps').
  { destruct (th =? h).
    - destruct tops as [|t ts]; [discriminate|].
      apply Forall_cons in Htops as [_ Hts].
      destruct (planFloors E fuel (h + 1) H dirty2d ts ths _ _) as [[ps' err']|] eqn:Hr;
        [|discriminate].
      injection Hplan as <- <-. by exists ts, ths, ps'.
    - destruct (planFloors E fuel (h + 1) H dirty2d tops (th :: ths) _ _)
        as [[ps' err']|] eqn:Hr; [|discriminate].
      injection Hplan as <- <-. by exists tops, (th :: ths), ps'. }
  destruct Hrest as (tops' & ths' & ps' & Htops' & Hr & ->).
  destruct (IH (h + 1) tops' ths' _ _ ps' ltac:(lia) ltac:(lia) Hnext Htops' Hr)
    as [Hfirst Hsecond].
  split.
  - intros c Hchild Hc. apply Hin_row in Hc.
    destruct (Hcover ps0 c eq_refl Hc Hchild) as (c' & Hc' & Hsame).
    exists c'. split; [apply elem_of_app; by left|done].
  - intros c Hc Hchild. apply elem_of_app in Hc as [Hc|Hc].
    + destruct (Hfirst (parentOf H c) Hchild) as (c' & Hc' & Hsame).
      { left. apply list_elem_of_In, in_map, list_elem_of_In. done. }
      exists c'. split; [apply elem_of_app; by right|done].
    + destruct (Hsecond c Hc Hchild) as (c' & Hc' & Hsame).
      exists c'. split; [apply elem_of_app; by right|done].
Qed.

End RehashCovers.

Section TreeAfterRehash.

Variable E : Helpers.
Variables nl nl' H : Z.
Hypothesis HH : 0 <= H <= 63.
Hypothesis Hnl : 0 <= nl' <= nl /\ nl <= 2 ^ H.
Hypothesis Hparent : forall l r, Parent E l r <> empty.

Import ForestData Plan.

(** [d] is the storage before the removal, [d1] after the swaps, [dirt]
    the dirty list, [ps] the positions reHash hashes. *)
Variables d d1 : ForestData.t.
Variable dirt ps : list Z.
Hypothesis Hout : forall q, ~ (0 <= q < nl) -> read d1 q = read d q.
Hypothesis Hleaves : forall q, 0 <= q < nl -> read d1 q <> empty.
Hypothesis Hclean : forall q, 0 <= q < nl' -> q ∉ dirt -> read d1 q = read d q.
Hypothesis Htree : hashed E H d nl.
Hypothesis Hsorted : rowSorted H 0 ps.
Hypothesis Hcover_dirt : forall c, childOfFull nl' H c -> c ∈ dirt ->
  exists c', c' ∈ ps /\ parentOf H c' = parentOf H c.
Hypothesis Hcover_up : forall c, c ∈ ps -> childOfFull nl' H (parentOf H c) ->
  exists c', c' ∈ ps /\ parentOf H c' = parentOf H (parentOf H c).

Lemma full_row_bound r x : 0 <= r -> full nl' r x -> r <= H.
Proof.
  intros Hr [Hx Hfull]. destruct (Z.le_gt_cases r H) as [|Hgt]; [done|].
  pose proof (Rows.pow2_lt H r ltac:(lia)). nia.
Qed.

Lemma rehashed_rows (n : nat) : forall x,
  full nl' (Z.of_nat n) x ->
  read (exec E H ps d1) (nodePos H (Z.of_nat n) x) <> empty /\
  (forall r, 0 <= r -> Z.of_nat n = r + 1 ->
     read (exec E H ps d1) (nodePos H (r + 1) x) =
     Parent E (read (exec E H ps d1) (nodePos H r (2 * x)))
              (read (exec E H ps d1) (nodePos H r (2 * x + 1)))).
Proof.
  set (d' := exec E H ps d1).
  induction n as [|n IH]; intros x Hfull.
  { split; [|intros; lia]. destruct Hfull as [Hx Hfull].
    change (2 ^ Z.of_nat 0) with 1 in Hfull.
    unfold nodePos. rewrite Rows.rowBase_0 by lia.
    unfold d'. rewrite exec_frame; [apply Hleaves; lia|].
    intros c _. unfold parentOf. apply up1_not_bottom; lia. }
  replace (Z.of_nat (S n)) with (Z.of_nat n + 1) in * by lia.
  set (r := Z.of_nat n) in *.
  pose proof (full_row_bound (r + 1) x ltac:(lia) Hfull) as HrH.
  destruct (Nodes.full_children nl' r x ltac:(lia) Hfull) as [Hfl Hfr].
  destruct (IH _ Hfl) as [Hl _]. destruct (IH _ Hfr) as [Hrt _].
  set (N := nodePos H (r + 1) x). set (cl := nodePos H r (2 * x)).
  set (cr := nodePos H r (2 * x + 1)). fold cl in Hl. fold cr in Hrt.
  destruct (children_of_full nl' H HH ltac:(lia) r x cl ltac:(lia) Hfull
              (or_introl eq_refl)) as (Hclrow & Hclp & _ & _).
  destruct (children_of_full nl' H HH ltac:(lia) r x cr ltac:(lia) Hfull
              (or_intror eq_refl)) as (Hcrrow & Hcrp & _ & _).
  fold N in Hclp, Hcrp.
  assert (Hvalue : read d' N = Parent E (read d' cl) (read d' cr)).
  { assert (Hdec : Decision (Exists (fun c => parentOf H c = N) ps))
      by (apply Exists_dec; intros c; apply Z.eq_dec).
    destruct Hdec as [Hex|Hno].
    - apply Exists_exists in Hex as (c & Hc & HcN).
      pose proof (exec_settled E H HH 0 ps ltac:(lia) Hsorted d1 c Hc) as Hset.
      fold d' in Hset. unfold settled, hashStep in Hset.
      rewrite read_write_eq, HcN in Hset.
      destruct (rowSorted_rows H 0 ps Hsorted c Hc) as (r' & Hr' & Hcrow).
      destruct (RowFacts.children_parent H r' c HH ltac:(lia) Hcrow)
        as (Hcl & Hcr & Hcp & _ & _ & Hprow).
      assert (Hrows : r' = r).
      { rewrite HcN in Hprow.
        pose proof (Nodes.nodePos_inRow H (r + 1) x ltac:(lia)
                      (full_offset nl' H HH ltac:(lia) (r + 1) x ltac:(lia) Hfull)) as HNrow.
        fold N in HNrow.
        pose proof (RowFacts.inRow_unique H (r' + 1) (r + 1) N ltac:(lia) ltac:(lia)
                      Hprow HNrow). lia. }
      subst r'.
      destruct (RowFacts.bases H r ltac:(lia)) as (X & M & HX & HM & HMX & Hb0 & Hb1 & _).
      assert (Hleft : leftOf c = cl).
      { rewrite Hcl. rewrite HcN in Hcp. unfold N, cl, nodePos in *.
        rewrite Hb0, Hb1, HX in *. lia. }
      assert (Hright : rightOf c = cr).
      { rewrite Hcr. rewrite HcN in Hcp. unfold N, cr, nodePos in *.
        rewrite Hb0, Hb1, HX in *. lia. }
      rewrite Hleft, Hright in Hset. rewrite <- Hset.
      destruct (Z.eqb_spec (read d' cl) empty); [done|].
      destruct (Z.eqb_spec (read d' cr) empty); [done|]. reflexivity.
    - apply not_Exists_Forall in Hno; [|intros c; apply Z.eq_dec].
      rewrite Forall_forall in Hno.
      assert (HN : read d' N = read d N).
      { unfold d'. rewrite exec_frame by (intros c Hc; by apply Hno).
        apply Hout. pose proof (Rows.rowBase_ge H (r + 1) ltac:(lia)).
        unfold N, nodePos. destruct Hfull. lia. }
      assert (Hchild : forall c0, c0 = cl \/ c0 = cr -> parentOf H c0 = N ->
                read d' c0 = read d c0).
      { intros c0 Hc0 Hc0p.
        assert (Hc0full : childOfFull nl' H c0).
        { exists r, x. split; [lia|]. split; [done|]. exact Hc0. }
        assert (Hnotps : forall c, c ∈ ps -> parentOf H c <> c0).
        { intros c Hc Heq. subst c0.
          destruct (Hcover_up c Hc Hc0full) as (c' & Hc' & Hsame).
          apply (Hno c' Hc'). by rewrite Hsame. }
        unfold d'. rewrite exec_frame by done.
        destruct (Z.eq_dec r 0) as [Hr0|Hr0].
        - apply Hclean.
          + destruct Hfull as [Hx Hfull]. rewrite Hr0 in *.
            change (2 ^ (0 + 1)) with 2 in Hfull.
            unfold cl, cr, nodePos in Hc0. rewrite Hr0, Rows.rowBase_0 in Hc0 by lia.
            lia.
          + intros Hdirt. destruct (Hcover_dirt c0 Hc0full Hdirt) as (c' & Hc' & Hsame).
            apply (Hno c' Hc'). by rewrite Hsame.
        - apply Hout. pose proof (Rows.rowBase_ge H r ltac:(lia)).
          destruct Hfull as [Hx _]. unfold cl, cr, nodePos in Hc0. lia. }
      rewrite HN, (Hchild cl) by auto. rewrite (Hchild cr) by auto.
      apply Htree; [lia|]. destruct Hfull as [Hx Hfull]. split; [done|lia]. }
  split.
  - fold N. rewrite Hvalue. apply Hparent.
  - intros r0 _ Hr0. assert (r0 = r) as -> by lia. exact Hvalue.
Qed.

Lemma tree_after_rehash :
  hashed E H (exec E H ps d1) nl' /\
  forall q, 0 <= q < nl' -> read (exec E H ps d1) q <> empty.
Proof.
  split.
  - intros r x Hr Hfull.
    destruct (rehashed_rows (Z.to_nat (r + 1)) x) as [_ Hval].
    + by rewrite Z2Nat.id by lia.
    + apply Hval; lia.
  - intros q Hq. rewrite exec_frame; [apply Hleaves; lia|].
    intros c _. unfold parentOf. apply up1_not_bottom; lia.
Qed.

End TreeAfterRehash.

(** * Remove: the hash tree after a removal *)

Section RemoveTree.

Variable E : Helpers.
Import ForestData Plan.

(** Every dirty position of the bottom row is filed under row 0. *)
Lemma fileDirt_all nl H : 0 <= H <= 63 -> forall dirt acc rem d2d rem',
  Forall (fun p => 0 <= p < 2 ^ H) dirt ->
  fileDirt nl H dirt acc 0 rem = Returns (inl (d2d, rem')) ->
  forall p, p ∈ dirt \/ (exists row, acc !! 0%nat = Some row /\ p ∈ row) ->
  exists row, d2d !! 0%nat = Some row /\ p ∈ row.
Proof.
  intros HH. induction dirt as [|pos dirt IH]; intros acc rem d2d rem' Hdirt Hfile p Hp.
  { simpl in Hfile. injection Hfile as <- <-.
    destruct Hp as [Hp|Hp]; [by apply elem_of_nil in Hp|done]. }
  apply Forall_cons in Hdirt as [Hpos Hdirt]. simpl in Hfile.
  destruct (nl <? pos); [discriminate|].
  rewrite Bits.detectHeight_bottom in Hfile by lia.
  change (Z.max 0 0) with 0 in Hfile.
  destruct (H <? 0); [discriminate|].
  change (Z.to_nat 0) with 0%nat in Hfile.
  destruct (acc !! 0%nat) as [row|] eqn:Hrow; [|discriminate].
  apply (IH _ _ _ _ Hdirt Hfile).
  assert (Hnew : <[0%nat := row ++ [pos]]> acc !! 0%nat = Some (row ++ [pos])).
  { rewrite list_lookup_insert. apply lookup_lt_Some in Hrow.
    by rewrite decide_True by (split; [done|lia]). }
  destruct Hp as [Hp|(row' & Hrow' & Hp)].
  - apply elem_of_cons in Hp as [->|Hp]; [|by left].
    right. exists (row ++ [pos]). split; [done|].
    apply elem_of_app. right. by apply list_elem_of_singleton.
  - right. exists (row ++ [pos]). split; [done|].
    assert (row' = row) as -> by congruence. apply elem_of_app. by left.
Qed.

(** X23. Remove keeps the hash tree.  On a forest of height at most 63
    with [numLeaves <= 2^height], whose leaves are all non-empty and in
    which every complete node above the bottom row holds the parent hash
    of its two children: when every swap of [floorTransform] has both ends
    among the leaves and a swap whose [from] is below the new leaf count
    has its [to] below it too, [mergeSortedSlices] returns exactly the
    positions of its two arguments, no top handed out for the new leaf
    count has a complete parent, and [Parent] never returns the empty
    hash, then after a Remove that returns without error [numLeaves] has
    dropped by the number of deletions, [height] is unchanged, every leaf
    that is left is non-empty and every complete node over the leaves that
    are left holds the parent hash of its two children. *)
Theorem Remove_keeps_hash_tree (f f' : Forest) (dels : list Z)
    (Hh : 0 <= height f <= 63)
    (Hnl : 0 <= numLeaves f <= 2 ^ height f)
    (Hmerge : forall a b x, x ∈ mergeSortedSlices E a b <-> x ∈ a \/ x ∈ b)
    (Hparent : forall l r, Parent E l r <> empty)
    (Hswaps : Forall (fun s =>
                 (0 <= from s < numLeaves f /\ 0 <= to s < numLeaves f) /\
                 (from s < numLeaves f - len dels -> to s < numLeaves f - len dels))
              (floorTransform E dels (numLeaves f) (height f)))
    (Htops : Forall (fun t => ~ childOfFull (numLeaves f - len dels) (height f) t)
               (fst (getTopsReverse E (numLeaves f - len dels) (height f))))
    (Hleaves : forall q, 0 <= q < numLeaves f -> read (data f) q <> empty)
    (Htree : hashed E (height f) (data f) (numLeaves f))
    (Hrun : Remove E f dels = Returns (f', None)) :
  numLeaves f' = numLeaves f - len dels /\ height f' = height f /\
  hashed E (height f') (data f') (numLeaves f') /\
  forall q, 0 <= q < numLeaves f' -> read (data f') q <> empty.
Proof.
  unfold Remove, removev3 in Hrun.
  destruct (Z.ltb_spec (numLeaves f) (len dels)) as [Hlt|Hge]; [discriminate|].
  destruct (List.find _ dels) as [dpos|]; [discriminate|].
  pose proof (len_nonneg dels) as Hlen.
  pose proof (Rows.pow2_le (height f) 63 ltac:(lia)) as Hpow.
  rewrite wrap64_small in Hrun by (unfold uint64; lia).
  set (nl' := numLeaves f - len dels) in *.
  pose proof (applySwaps_effect E nl' (numLeaves f) _ (data f) [] (positionMap f) Hswaps)
    as Heff.
  cbv zeta in Heff.
  destruct (fold_left _ _ _) as [[d1 dirt] pm1]. cbn [fst snd] in Heff.
  destruct Heff as (Hout & Hfull & Hclean & Hdirtin).
  assert (Hdirt : Forall (fun p => 0 <= p < 2 ^ height f) dirt).
  { apply Forall_forall. intros p Hp.
    destruct (Hdirtin p Hp) as [Hnil|Hp']; [by apply elem_of_nil in Hnil|lia]. }
  assert (Hgoal : forall ps,
            rowSorted (height f) 0 ps ->
            (forall c, childOfFull nl' (height f) c -> c ∈ dirt ->
               exists c', c' ∈ ps /\ parentOf (height f) c' = parentOf (height f) c) ->
            (forall c, c ∈ ps -> childOfFull nl' (height f) (parentOf (height f) c) ->
               exists c', c' ∈ ps /\
                 parentOf (height f) c' = parentOf (height f) (parentOf (height f) c)) ->
            hashed E (height f) (exec E (height f) ps d1) nl' /\
            forall q, 0 <= q < nl' -> read (exec E (height f) ps d1) q <> empty).
  { intros ps Hsorted Hc1 Hc2.
    apply (tree_after_rehash E (numLeaves f) nl' (height f) Hh ltac:(lia) Hparent
             (data f) d1 dirt ps); try done.
    - by apply Hfull.
    - intros q Hq Hnot. apply Hclean; [lia|done]. }
  unfold reHash in Hrun. cbn [height numLeaves data HistoricHashes positionMap] in Hrun.
  destruct ((height f =? 0) || (len dirt =? 0)) eqn:Hskip.
  { injection Hrun as <-. cbn [height numLeaves data].
    split; [done|]. split; [done|].
    apply (Hgoal []); [constructor| |intros c Hc; by apply elem_of_nil in Hc].
    intros c (r & x & Hr & _) Hc. apply orb_true_iff in Hskip as [H0|H0].
    - apply Z.eqb_eq in H0. lia.
    - apply Z.eqb_eq in H0. destruct dirt; [by apply elem_of_nil in Hc|].
      unfold len in H0. simpl in H0. lia. }
  destruct (getTopsReverse E nl' (height f)) as [tops topheights] eqn:Htr.
  cbn [fst] in Htops.
  destruct (fileDirt _ _ _ _ _ _) as [[[dirty2d rem]|e]|] eqn:Hfile;
    [|discriminate|discriminate].
  pose proof (floors_plan E (height f) dirty2d (Z.to_nat (height f)) 0 tops
                topheights [] rem d1 (HistoricHashes f)) as Hplan.
  destruct (planFloors E _ 0 _ dirty2d tops topheights [] rem)
    as [[ps err]|] eqn:Hps; [|rewrite Hplan in Hrun; discriminate].
  destruct Hplan as (hashes1 & e1 & Hfl1 & He1).
  rewrite Hfl1 in Hrun. injection Hrun as <- ->.
  assert (Herr : err = false) by (by apply He1). subst err.
  cbn [height numLeaves data].
  split; [done|]. split; [done|].
  assert (Hfiled : filedByRow (height f) dirty2d).
  { eapply (fileDirt_rows (height f) Hh nl' dirt);
      [exact Hdirt|apply filedByRow_replicate|exact Hfile]. }
  destruct (planFloors_covers E nl' (height f) Hh ltac:(lia) Hmerge dirty2d Hfiled
              (Z.to_nat (height f)) 0 tops topheights [] rem ps
              ltac:(lia) ltac:(lia) ltac:(constructor) Htops Hps) as [Hc1 Hc2].
  apply Hgoal.
  - apply (planFloors_rowSorted E (height f) Hh ltac:(intros a b x; apply Hmerge)
             dirty2d Hfiled (Z.to_nat (height f)) 0 tops topheights [] rem ps false);
      [lia|lia|constructor|exact Hps].
  - intros c Hchild Hc. apply Hc1; [done|]. right.
    change (Z.to_nat 0) with 0%nat.
    apply (fileDirt_all nl' (height f) Hh dirt _ 0 dirty2d rem Hdirt Hfile). by left.
  - exact Hc2.
Qed.

End RemoveTree.

(** The stand-in merge returns every position of its two arguments. *)
Lemma mergeSortedSlices_all a : forall b x,
  x ∈ a \/ x ∈ b -> x ∈ Helper.mergeSortedSlices a b.
Proof.
  induction a as [|y a IHa]; intros b x Hx.
  { destruct Hx as [Hx|Hx]; [by apply elem_of_nil in Hx|done]. }
  induction b as [|z b IHb].
  { destruct Hx as [Hx|Hx]; [done|by apply elem_of_nil in Hx]. }
  cbn [Helper.mergeSortedSlices].
  destruct (Z.ltb_spec y z) as [Hyz|Hyz].
  - destruct Hx as [Hx|Hx].
    + apply elem_of_cons in Hx as [->|Hx]; [apply elem_of_cons; by left|].
      apply elem_of_cons. right. apply IHa. by left.
    + apply elem_of_cons. right. apply IHa. by right.
  - destruct (Z.ltb_spec z y) as [Hzy|Hzy].
    + destruct Hx as [Hx|Hx].
      * apply elem_of_cons. right. apply IHb. by left.
      * apply elem_of_cons in Hx as [->|Hx]; [apply elem_of_cons; by left|].
        apply elem_of_cons. right. apply IHb. by right.
    + assert (y = z) as -> by lia.
      destruct Hx as [Hx|Hx]; apply elem_of_cons in Hx as [->|Hx];
        try (apply elem_of_cons; by left);
        apply elem_of_cons; right; apply IHa; [by left|by right].
Qed.

Lemma treeOfFour_tree :
  hashed treeHelpers 2 (data treeOfFour) 4 /\
  forall q, 0 <= q < 4 -> ForestData.read (data treeOfFour) q <> empty.
Proof.
  split.
  - intros r x Hr [Hx Hfull].
    assert (Hrs : r = 0 \/ r = 1) by lia.
    destruct Hrs as [-> | ->]; cbn in Hfull.
    + assert (Hxs : x = 0 \/ x = 1) by lia.
      destruct Hxs as [-> | ->]; vm_compute; reflexivity.
    + assert (x = 0) as -> by lia. vm_compute. reflexivity.
  - intros q Hq.
    assert (Hqs : q = 0 \/ q = 1 \/ q = 2 \/ q = 3) by lia.
    destruct Hqs as [-> | [-> | [-> | ->]]]; vm_compute; discriminate.
Qed.

(** Under height 2 with three leaves only leaves 0 and 1 have a parent in
    the forest. *)
Lemma childOfFull_three c : childOfFull 3 2 c -> c = 0 \/ c = 1.
Proof.
  intros (r & x & Hr & [Hx Hfull] & Hc).
  assert (Hrs : r = 0 \/ r = 1) by lia.
  destruct Hrs as [-> | ->]; cbn in Hfull; [|lia].
  assert (x = 0) as -> by lia.
  unfold nodePos in Hc. change (rowBase 2 0) with 0 in Hc. lia.
Qed.

Lemma Remove_keeps_hash_tree_witness :
  exists f',
    Remove treeHelpers treeOfFour [1] = Returns (f', None) /\
    numLeaves f' = numLeaves treeOfFour - len [1] /\
    height f' = height treeOfFour /\
    hashed treeHelpers (height f') (data f') (numLeaves f') /\
    forall q, 0 <= q < numLeaves f' -> ForestData.read (data f') q <> empty.
Proof.
  destruct (Remove treeHelpers treeOfFour [1]) as [[f' [e|]]|] eqn:Hrun;
    [vm_compute in Hrun; discriminate| |vm_compute in Hrun; discriminate].
  exists f'. split; [reflexivity|].
  apply (Remove_keeps_hash_tree treeHelpers treeOfFour f' [1]).
  - change (height treeOfFour) with 2. lia.
  - change (height treeOfFour) with 2. change (numLeaves treeOfFour) with 4. lia.
  - intros a b x. split; [apply mergeSortedSlices_elem|apply mergeSortedSlices_all].
  - intros l r. unfold treeHelpers, Parent, oddParent, empty. lia.
  - change (numLeaves treeOfFour) with 4. change (height treeOfFour) with 2.
    change (floorTransform treeHelpers [1] 4 2)
      with [mkArrow 2 1; mkArrow 3 2].
    change (4 - len [1]) with 3.
    repeat constructor; cbn [from to]; lia.
  - change (numLeaves treeOfFour) with 4. change (height treeOfFour) with 2.
    change (4 - len [1]) with 3.
    change (fst (getTopsReverse treeHelpers 3 2)) with [2; 4].
    repeat constructor; intros Hc; apply childOfFull_three in Hc; lia.
  - change (numLeaves treeOfFour) with 4. apply treeOfFour_tree.
  - change (numLeaves treeOfFour) with 4. change (height treeOfFour) with 2.
    apply treeOfFour_tree.
  - exact Hrun.
Defined.
